(** * client-vector-search: the embedding index of [src/index.ts]

    A shallow embedding of [cosineSimilarity], the class [EmbeddingIndex]
    and the class [DynamicDB], with the properties the specification
    states about them.

    - JavaScript numbers are IEEE 754 binary64 values: they are modelled
      by Rocq's primitive floats, whose operations are the same ones.
      Where the source only counts with a number ([precision], [topK]),
      the number is an integer.
    - Values are [undefined], [null], booleans, numbers, strings, dense
      arrays, references to other objects and the members of
      [Object.prototype].
    - Records are plain objects, as object literals and [JSON.parse]
      make them and as the storage engine returns them: finite maps from
      field names to values, with [Object.prototype], unmodified, as
      their prototype.  Property lookup and the [in] operator see the
      fields of the record itself and the members it inherits;
      [Object.keys] sees the fields of the record itself.
    - A method is a function of the state of its object; an asynchronous
      method returns the way its promise settles.  The storage engine
      behind [indexedDB] is modelled after the IndexedDB standard. *)

From Stdlib Require Import ZArith Floats.
From stdpp Require Import gmap strings list fin_maps sorting.

Set Default Proof Using "Type".
Set Warnings "-register-all,-inexact-float".

(** ** JavaScript values *)

(** The identity of an array or object: [===] compares references. *)
Definition loc := nat.

(** [VMember name] is the value that [Object.prototype] holds under
    [name]: a built-in function, and for [__proto__] the prototype
    itself. *)
Inductive value : Type :=
| VUndefined
| VNull
| VBool (b : bool)
| VNumber (x : float)
| VString (s : string)
| VArray (ref : loc) (items : list value)
| VObject (ref : loc)
| VMember (name : string).

(** A record of the index, [{ [key: string]: any }]. *)
Abbreviation record := (gmap string value).

(** What [throw] raises.  [Error msg] is [new Error(msg)]; the other two
    are raised by the language itself.  An exception of the storage
    engine is written [Error name], with the name it carries. *)
Inductive exn : Type :=
| Error (message : string)
| RangeError
| TypeError.

Inductive result (A : Type) : Type :=
| Ok (a : A)
| Throw (e : exn).
Arguments Ok {A} a.
Arguments Throw {A} e.

(** The error taxonomy of the specification, by the messages of the source. *)
Definition LengthMismatchError : exn := Error "Vectors must have the same length".
Definition InvalidEmbeddingError : exn :=
  Error "Object must have an embedding property of type number[]".
Definition SchemaMismatchError : exn :=
  Error "Object must have the same properties as the initial objects".
Definition NotFoundError : exn := Error "Vector not found".
Definition EmptyIndexError : exn := Error "Index is empty".
Definition NotInitializedError : exn := Error "Database not initialized".
Definition CollectionMissingError : exn := Error "Object store not initialized".
Definition InsertError : exn := Error "Failed to add object".
Definition DataCloneError : exn := Error "DataCloneError".

(** The built-in functions of the host that the source calls and whose
    results depend on decimal notation.  They are left abstract: every
    theorem holds whatever they return.
    - [coerceToNumber] is [ToNumber] on strings, arrays, objects and
      functions;
    - [toFixed x digits] is [x.toFixed(digits)] for [0 <= digits <= 100];
    - [parseFloat] is the global function of that name. *)
Class Builtins : Type := {
  coerceToNumber : value -> float;
  toFixed : float -> Z -> string;
  parseFloat : string -> float;
}.

Module JS.

(** [a === b] *)
Definition strict_equals (a b : value) : bool :=
  match a, b with
  | VUndefined, VUndefined => true
  | VNull, VNull => true
  | VBool x, VBool y => Bool.eqb x y
  | VNumber x, VNumber y => PrimFloat.eqb x y
  | VString x, VString y => String.eqb x y
  | VArray r _, VArray r' _ => Nat.eqb r r'
  | VObject r, VObject r' => Nat.eqb r r'
  | VMember x, VMember y => String.eqb x y
  | _, _ => false
  end.

(** The names of the members of [Object.prototype], which every plain
    object inherits. *)
Definition Object_prototype : list string :=
  ["constructor"; "__defineGetter__"; "__defineSetter__"; "hasOwnProperty";
   "__lookupGetter__"; "__lookupSetter__"; "isPrototypeOf"; "propertyIsEnumerable";
   "toString"; "valueOf"; "__proto__"; "toLocaleString"].

(** [key] is the name of an inherited member. *)
Definition inherited (key : string) : bool := bool_decide (key ∈ Object_prototype).

(** [obj[key]]: the field of the record, else the inherited member, else
    [undefined]. *)
Definition prop (obj : record) (key : string) : value :=
  match obj !! key with
  | Some v => v
  | None => if inherited key then VMember key else VUndefined
  end.

(** [key in obj]: the record has the field, or inherits a member of
    that name. *)
Definition has (key : string) (obj : record) : bool :=
  bool_decide (is_Some (obj !! key)) || inherited key.

(** [Object.keys(obj)].  The source only tests the result for emptiness
    and runs [every] over it, so the order of the names is immaterial. *)
Definition Object_keys (obj : record) : list string :=
  (map_to_list obj).*1.

(** [Array.isArray(v)] *)
Definition Array_isArray (v : value) : bool :=
  match v with VArray _ _ => true | _ => false end.

Section Coercions.
Context `{Builtins}.

Definition ToNumber (v : value) : float :=
  match v with
  | VUndefined => nan
  | VNull => 0
  | VBool true => 1
  | VBool false => 0
  | VNumber x => x
  | VString _ | VArray _ _ | VObject _ | VMember _ => coerceToNumber v
  end.

(** The global [isNaN]. *)
Definition isNaN (v : value) : bool := is_nan (ToNumber v).

(** [x.toFixed(digits)]: a [RangeError] outside [0..100]. *)
Definition Number_toFixed (x : float) (digits : Z) : result string :=
  if ((digits <? 0) || (100 <? digits))%Z then Throw RangeError
  else Ok (toFixed x digits).
End Coercions.

(** [l.findIndex(p)]: [-1] when no element satisfies [p]. *)
Fixpoint findIndex {A} (p : A -> bool) (l : list A) : Z :=
  match l with
  | [] => -1
  | x :: l' =>
      if p x then 0
      else let i := findIndex p l' in if (i =? -1)%Z then -1 else (i + 1)%Z
  end.

(** [l.slice(0, finish)] for an integer [finish]: a negative one counts
    from the end. *)
Definition slice0 {A} (finish : Z) (l : list A) : list A :=
  let len := Z.of_nat (length l) in
  let k := if (finish <? 0)%Z then Z.max (len + finish) 0 else Z.min finish len in
  take (Z.to_nat k) l.

(** [l.sort(cmp)].  The sort is stable; an element moves behind another
    only when [cmp] of the two is positive (a [NaN] from [cmp] counts as
    [0]).  With a consistent comparator every stable sort returns this
    list; with an inconsistent one the order is implementation-defined,
    and nothing below depends on it. *)
Fixpoint sort_insert {A} (cmp : A -> A -> float) (x : A) (l : list A) : list A :=
  match l with
  | [] => [x]
  | y :: l' => if (0 <? cmp x y)%float then y :: sort_insert cmp x l' else x :: y :: l'
  end.

Fixpoint sort {A} (cmp : A -> A -> float) (l : list A) : list A :=
  match l with
  | [] => []
  | x :: l' => sort_insert cmp x (sort cmp l')
  end.

End JS.

(** ** [cosineSimilarity] *)

Section CosineSimilarity.
Context `{Builtins}.
Open Scope float_scope.

(** [vecA.reduce((sum, a, i) => sum + a * (vecB[i] !== undefined ? vecB[i] : 0), 0)] *)
Definition dotProduct (vecA vecB : list float) : float :=
  foldl (fun sum '(i, a) => sum + a * (default 0 (vecB !! i))) 0 (imap pair vecA).

(** [Math.sqrt(vec.reduce((sum, a) => sum + a * a, 0))] *)
Definition magnitude (vec : list float) : float :=
  sqrt (foldl (fun sum a => sum + a * a) 0 vec).

Definition cosineSimilarity (vecA vecB : list float) (precision : Z) : result float :=
  if negb (length vecA =? length vecB)%nat then Throw LengthMismatchError
  else
    let dotProduct := dotProduct vecA vecB in
    let magnitudeA := magnitude vecA in
    let magnitudeB := magnitude vecB in
    if (magnitudeA =? 0) || (magnitudeB =? 0) then Ok 0
    else
      match JS.Number_toFixed (dotProduct / (magnitudeA * magnitudeB)) precision with
      | Ok s => Ok (parseFloat s)
      | Throw e => Throw e
      end.
End CosineSimilarity.

(** ** Methods: state passing with exceptions

    A method of a class with state [S] maps the state before the call to
    its outcome and the state after it.  A [throw] keeps every assignment
    made before it. *)

Definition method (S A : Type) : Type := S -> result A * S.

Section Method.
Context {S : Type}.

Definition ret {A} (a : A) : method S A := fun s => (Ok a, s).
Definition throw {A} (e : exn) : method S A := fun s => (Throw e, s).
Definition bind {A B} (m : method S A) (k : A -> method S B) : method S B :=
  fun s => match m s with
           | (Ok a, s') => k a s'
           | (Throw e, s') => (Throw e, s')
           end.
Definition this : method S S := fun s => (Ok s, s).
Definition assign (f : S -> S) : method S unit := fun s => (Ok tt, f s).

(** [l.forEach(f)] *)
Fixpoint forEach {A} (f : A -> method S unit) (l : list A) : method S unit :=
  match l with
  | [] => ret tt
  | x :: l' => bind (f x) (fun _ => forEach f l')
  end.
End Method.

(** Runs the steps of a method on the state at hand. *)
Ltac step_method := unfold bind, this, throw, assign, ret; simpl.

Notation "'do' x <- m ; k" := (bind m (fun x => k))
  (at level 100, x name, m at next level, k at level 200, right associativity).
Notation "m ;; k" := (bind m (fun _ => k))
  (at level 100, k at level 200, right associativity).

(** ** Promises

    An asynchronous method maps the state at the call to the way its
    promise settles and the state at that moment.  [Unsettled] is a
    promise that never settles. *)

Inductive promise (A : Type) : Type :=
| Resolved (a : A)
| Rejected (e : exn)
| Unsettled.
Arguments Resolved {A} a.
Arguments Rejected {A} e.
Arguments Unsettled {A}.

Definition async (S A : Type) : Type := S -> promise A * S.

Definition then_ {S A B} (m : async S A) (k : A -> async S B) : async S B :=
  fun s => match m s with
           | (Resolved a, s') => k a s'
           | (Rejected e, s') => (Rejected e, s')
           | (Unsettled, s') => (Unsettled, s')
           end.

Notation "'await' x <- m ; k" := (then_ m (fun x => k))
  (at level 100, x name, m at next level, k at level 200, right associativity).

(** ** The storage engine

    The module-level [indexedDB] factory, as the IndexedDB standard
    describes it: named databases with a version, object stores that
    hand out increasing keys (so a store is the list of its values in
    insertion order), a count of open connections, and the requests that
    have been issued but not yet carried out.  The engine carries out
    the issued requests, in order, before it serves a later operation on
    the same store.  [clones] tells which records the engine can clone:
    [add] throws at the call for the others (a record with a function
    in it, say).  [accepts] tells which of the issued insertions the
    engine carries out; it fails the others (quota and the like). *)

Module IndexedDB.
Record database : Type := {
  version : Z;
  stores : gmap string (list record);
  connections : nat;
}.

(** An [objectStore.add(item)] issued on a connection to [target]. *)
Record request : Type := {
  target : string;
  store : string;
  item : record;
}.

Record t : Type := {
  databases : gmap string database;
  pending : list request;
  clones : record -> bool;
  accepts : record -> bool;
}.

Definition set_databases (f : gmap string database -> gmap string database) (e : t) : t :=
  {| databases := f (databases e); pending := pending e; clones := clones e;
     accepts := accepts e |}.

Definition append (collection : string) (x : record) (d : database) : database :=
  {| version := version d;
     stores := alter (fun values => values ++ [x]) collection (stores d);
     connections := connections d |}.

Definition carry_out (e : t) (r : request) : t :=
  if accepts e (item r)
  then set_databases (alter (append (store r) (item r)) (target r)) e
  else e.

(** The engine carries out everything that has been issued. *)
Definition settle (e : t) : t :=
  foldl carry_out {| databases := databases e; pending := []; clones := clones e;
                     accepts := accepts e |}
        (pending e).

Definition issue (r : request) (e : t) : t :=
  {| databases := databases e; pending := pending e ++ [r]; clones := clones e;
     accepts := accepts e |}.

Inductive opened : Type :=
| Upgraded       (* [upgradeneeded], then [success] *)
| Unchanged      (* [success] alone *)
| VersionError   (* [error]: the database is at a later version *)
| Blocked.       (* another connection stays open: no event ever *)

(** [indexedDB.open(name, v)] *)
Definition open (name : string) (v : Z) (e : t) : opened * t :=
  let e := settle e in
  match databases e !! name with
  | None =>
      (Upgraded,
       set_databases (insert name {| version := v; stores := ∅; connections := 1 |}) e)
  | Some d =>
      if (v <? version d)%Z then (VersionError, e)
      else if (v =? version d)%Z then
        (Unchanged,
         set_databases (insert name {| version := version d; stores := stores d;
                                       connections := S (connections d) |}) e)
      else if (0 <? connections d)%nat then (Blocked, e)
      else
        (Upgraded,
         set_databases (insert name {| version := v; stores := stores d;
                                       connections := 1 |}) e)
  end.

(** [connection.close()] *)
Definition close (name : string) (e : t) : t :=
  set_databases (alter (fun d => {| version := version d; stores := stores d;
                                    connections := pred (connections d) |}) name) e.

(** [db.objectStoreNames.contains(collection)] *)
Definition contains (name collection : string) (e : t) : bool :=
  match databases e !! name with
  | Some d => bool_decide (is_Some (stores d !! collection))
  | None => false
  end.

(** [db.createObjectStore(collection, { autoIncrement: true })] *)
Definition createObjectStore (name collection : string) (e : t) : t :=
  set_databases (alter (fun d => {| version := version d;
                                    stores := <[collection := []]> (stores d);
                                    connections := connections d |}) name) e.

(** The values a cursor over [collection] visits, in key order; the
    read waits for the requests issued before it. *)
Definition values (name collection : string) (e : t) : list record :=
  match databases e !! name with
  | Some d => default [] (stores d !! collection)
  | None => []
  end.
End IndexedDB.

(** ** [DynamicDB] *)

Module DynamicDB.
(** A connection, [IDBDatabase]. *)
Record IDBDatabase : Type := { name : string; closed : bool }.

(** [objectStores] is a plain object: it holds a handle under the name
    of every collection this instance has created itself, and a lookup
    in it also finds what every plain object inherits.  The field of the
    model is the set of the names that have been assigned.  (Assigning
    under the name [__proto__] replaces what the object inherits by the
    handle assigned; [this.objectStores["__proto__"]] is an object
    before and after.  What other names then resolve to depends on the
    engine's handles and is not followed: the statements that depend on
    such a lookup are about instances that have created no collection
    of this name.) *)
Record t : Type := {
  db : option IDBDatabase;
  objectStores : gset string;
  version : Z;
}.

(** [new DynamicDB()] *)
Definition new : t := {| db := None; objectStores := ∅; version := 1 |}.

(** The state the methods run in: the engine and the instance. *)
Abbreviation state := (IndexedDB.t * t)%type.

Definition initializeDB (name : string) : async state unit :=
  fun '(engine, self) =>
    match db self with
    | Some _ => (Resolved tt, (engine, self))
    | None =>
        match IndexedDB.open name (version self) engine with
        | (IndexedDB.Upgraded, engine') | (IndexedDB.Unchanged, engine') =>
            (Resolved tt,
             (engine', {| db := Some {| name := name; closed := false |};
                          objectStores := objectStores self;
                          version := version self |}))
        | (IndexedDB.VersionError, engine') =>
            (Rejected (Error "Database initialization failed"), (engine', self))
        | (IndexedDB.Blocked, engine') => (Unsettled, (engine', self))
        end
    end.

Definition createNewVersion (collection : string) : async state unit :=
  fun '(engine, self) =>
    let engine :=
      match db self with
      | Some c => if closed c then engine else IndexedDB.close (name c) engine
      | None => engine
      end in
    let closed_db := (fun c => {| name := name c; closed := true |}) <$> db self in
    let version := (version self + 1)%Z in
    (* this.db?.name || "defaultDB": the empty name is falsy too *)
    let target :=
      match db self with
      | Some c => if String.eqb (name c) "" then "defaultDB" else name c
      | None => "defaultDB"
      end in
    match IndexedDB.open target version engine with
    | (IndexedDB.Upgraded, engine') =>
        let connection := Some {| name := target; closed := false |} in
        if negb (IndexedDB.contains target collection engine')
        then (Resolved tt,
              (IndexedDB.createObjectStore target collection engine',
               {| db := connection;
                  objectStores := {[collection]} ∪ objectStores self;
                  version := version |}))
        else (Resolved tt,
              (engine', {| db := connection; objectStores := objectStores self;
                           version := version |}))
    | (IndexedDB.Unchanged, engine') =>
        (Resolved tt,
         (engine', {| db := Some {| name := target; closed := false |};
                      objectStores := objectStores self; version := version |}))
    | (IndexedDB.VersionError, engine') =>
        (Rejected (Error "Failed to create new version"),
         (engine', {| db := closed_db; objectStores := objectStores self;
                      version := version |}))
    | (IndexedDB.Blocked, engine') =>
        (Unsettled,
         (engine', {| db := closed_db; objectStores := objectStores self;
                      version := version |}))
    end.

Definition makeObjectStore (collection : string) : async state unit :=
  fun '(engine, self) =>
    match db self with
    | None => (Rejected NotInitializedError, (engine, self))
    | Some _ => createNewVersion collection (engine, self)
    end.

(** [this.db.transaction([collection], mode)] throws on a closed
    connection and on a collection the database does not have. *)
Definition transaction (c : IDBDatabase) (collection : string) (engine : IndexedDB.t)
  : result unit :=
  if closed c then Throw (Error "InvalidStateError")
  else if negb (IndexedDB.contains (name c) collection engine)
       then Throw (Error "NotFoundError")
       else Ok tt.

(** What a call of [addToDB] leaves behind: a promise that is already
    rejected, or one that settles when the engine carries out the
    request. *)
Inductive insertion : Type :=
| Refused (e : exn)
| Issued.

(** [this.objectStores[collection]] is truthy: a handle has been
    assigned under the name, or the name is that of an inherited member
    (all of which are objects). *)
Definition listed (collection : string) (self : t) : bool :=
  bool_decide (collection ∈ objectStores self) || JS.inherited collection.

(** [objectStore.add(obj)] clones the record at the call and throws when
    it cannot; the promise is then rejected with what was thrown, as it
    is when [transaction] throws, and no request has been issued. *)
Definition addToDB (collection : string) (obj : record) (s : state) : insertion * state :=
  let '(engine, self) := s in
  match db self with
  | None => (Refused NotInitializedError, s)
  | Some c =>
      if negb (listed collection self)
      then (Refused CollectionMissingError, s)
      else
        match transaction c collection engine with
        | Throw e => (Refused e, s)
        | Ok _ =>
            if IndexedDB.clones engine obj
            then (Issued,
                  (IndexedDB.issue {| IndexedDB.target := name c;
                                      IndexedDB.store := collection;
                                      IndexedDB.item := obj |} engine, self))
            else (Refused DataCloneError, s)
        end
  end.

(** How the promise of an [Issued] insertion of [obj] settles. *)
Definition insertion_settles (engine : IndexedDB.t) (obj : record) : promise unit :=
  if IndexedDB.accepts engine obj then Resolved tt else Rejected InsertError.

(** A run of [dbGenerator]: the first [next()] is rejected, or the
    generator yields records and then ends, or waits for ever. *)
Inductive iteration : Type :=
| Fails (e : exn)
| Yields (records : list record) (ends : bool).

(** The consumer of the generator, as far as the generator depends on
    it: [waits i] tells whether the consumer has asked for the next
    value by the time the cursor fires for the [i]-th time after its
    first event.  [for await] with a body that does not suspend asks at
    once, every time. *)
Abbreviation consumer := (nat -> bool).

Definition at_once : consumer := fun _ => true.

(** The events of the cursor after the first: one for each further
    value [vs], then one for the end.  The handler resolves the promise
    of the moment and moves the cursor on.  While the generator is
    suspended at [yield], the promise of the moment is one that has been
    resolved already: the value of the event is lost, and when the end
    is lost, the generator waits for ever at its next [await]. *)
Fixpoint cursor_events (waits : consumer) (i : nat) (vs : list record)
  : list record * bool :=
  match vs with
  | [] => ([], waits i)
  | v :: vs' =>
      let '(yielded, ends) := cursor_events waits (S i) vs' in
      (if waits i then v :: yielded else yielded, ends)
  end.

(** The generator runs from the first [next()] on, so it is at its
    [await] when the cursor fires first. *)
Definition cursor (waits : consumer) (vs : list record) : list record * bool :=
  match vs with
  | [] => ([], true)
  | v :: vs' => let '(yielded, ends) := cursor_events waits 0 vs' in (v :: yielded, ends)
  end.

(** [dbGenerator(collection)] with its consumer. *)
Definition dbGenerator (collection : string) (waits : consumer)
  : state -> iteration * state :=
  fun '(engine, self) =>
    match db self with
    | None => (Fails NotInitializedError, (engine, self))
    | Some c =>
        match transaction c collection engine with
        | Throw e => (Fails e, (engine, self))
        | Ok _ =>
            let engine' := IndexedDB.settle engine in
            let '(yielded, ends) :=
              cursor waits (IndexedDB.values (name c) collection engine') in
            (Yields yielded ends, (engine', self))
        end
    end.

(** [getAllFromDB(collection)].  Without a connection the optional
    chaining leaves no object store, and the promise is rejected in the
    executor; with one, [transaction] may throw, which rejects the
    promise of the asynchronous function. *)
Definition getAllFromDB (collection : string) : async state (list record) :=
  fun '(engine, self) =>
    match db self with
    | None => (Rejected (Error "Object store not found"), (engine, self))
    | Some c =>
        match transaction c collection engine with
        | Throw e => (Rejected e, (engine, self))
        | Ok _ =>
            let engine' := IndexedDB.settle engine in
            (Resolved (IndexedDB.values (name c) collection engine'), (engine', self))
        end
    end.
End DynamicDB.

Module EmbeddingIndex.

Record t : Type := {
  objects : list record;
  keys : list string;
  db : DynamicDB.t;
}.

Definition set_objects (f : list record -> list record) (s : t) : t :=
  {| objects := f (objects s); keys := keys s; db := db s |}.
Definition set_keys (ks : list string) (s : t) : t :=
  {| objects := objects s; keys := ks; db := db s |}.

(** One entry of a search result. *)
Record SimilarityResult : Type := {
  similarity : float;
  object : record;
}.

(** [Object.keys(filter).every((key) => object[key] === filter[key])] *)
Definition matches (filter object : record) : bool :=
  forallb (fun key => JS.strict_equals (JS.prop object key) (JS.prop filter key))
          (JS.Object_keys filter).

(** [(a, b) => b.similarity - a.similarity] *)
Definition by_similarity (a b : SimilarityResult) : float :=
  (similarity b - similarity a)%float.

(** [search]'s options, [{ topK?: number; filter?: {...} }], with an
    integral [topK]. *)
Record options : Type := {
  topK : option Z;
  filter : option record;
}.

Section Methods.
Context `{Builtins}.

(** [obj.embedding.some(isNaN)], evaluated on arrays only. *)
Definition embedding_some_isNaN (embedding : value) : bool :=
  match embedding with
  | VArray _ items => existsb JS.isNaN items
  | _ => false
  end.

Definition validateAndAdd (obj : record) : method t unit :=
  if negb (JS.Array_isArray (JS.prop obj "embedding"))
     || embedding_some_isNaN (JS.prop obj "embedding")
  then throw InvalidEmbeddingError
  else
    do self <- this;
    (if (length (keys self) =? 0)%nat then assign (set_keys (JS.Object_keys obj))
     else if negb (forallb (fun key => JS.has key obj) (keys self))
          then throw SchemaMismatchError
          else ret tt);;
    assign (set_objects (fun objects => objects ++ [obj])).

(** [new EmbeddingIndex(initialObjects)]; a constructor that throws
    yields no index. *)
Definition constructor (initialObjects : option (list record)) : result t :=
  let self := {| objects := []; keys := []; db := DynamicDB.new |} in
  match initialObjects with
  | Some (first :: rest) =>
      match forEach validateAndAdd (first :: rest) self with
      | (Ok _, self') => Ok (set_keys (JS.Object_keys first) self')
      | (Throw e, _) => Throw e
      end
  | _ => Ok self
  end.

Definition add (obj : record) : method t unit := validateAndAdd obj.

Definition update (filter vector : record) : method t unit :=
  do self <- this;
  let index := JS.findIndex (matches filter) (objects self) in
  if (index =? -1)%Z then throw NotFoundError
  else
    validateAndAdd vector;;
    (* this.objects[index] = vector: [index] is a position of the sequence *)
    assign (set_objects (fun objects => <[Z.to_nat index := vector]> objects)).

Definition remove (filter : record) : method t unit :=
  do self <- this;
  let index := JS.findIndex (matches filter) (objects self) in
  if (index =? -1)%Z then throw NotFoundError
  else assign (set_objects (fun objects => delete (Z.to_nat index) objects)).

Definition removeBatch (filters : list record) : method t unit :=
  forEach (fun filter =>
    do self <- this;
    let index := JS.findIndex (matches filter) (objects self) in
    if negb (index =? -1)%Z
    then assign (set_objects (fun objects => delete (Z.to_nat index) objects))
    else ret tt) filters.

(** [get]: [None] is the [null] the source returns. *)
Definition get (filter : record) : method t (option record) :=
  do self <- this;
  ret (find (matches filter) (objects self)).

(** The embedding of a stored record read as [number[]].  An array
    gives its entries as numbers, which is what the arithmetic of
    [cosineSimilarity] makes of them (an [undefined] entry counts as [0]
    in the dot product and as [NaN] in the magnitude; the quotient is
    [NaN] either way).  Anything else cannot have passed
    [validateAndAdd]; using it as a vector fails at run time. *)
Definition embedding_vector (obj : record) : result (list float) :=
  match JS.prop obj "embedding" with
  | VArray _ items => Ok (JS.ToNumber <$> items)
  | _ => Throw TypeError
  end.

(** [objs.map((obj) => ({ similarity: cosineSimilarity(q, obj.embedding), object: obj }))] *)
Fixpoint score (queryEmbedding : list float) (objs : list record)
  : result (list SimilarityResult) :=
  match objs with
  | [] => Ok []
  | obj :: objs' =>
      match embedding_vector obj with
      | Throw e => Throw e
      | Ok vecB =>
          match cosineSimilarity queryEmbedding vecB 6 with
          | Throw e => Throw e
          | Ok sim =>
              match score queryEmbedding objs' with
              | Throw e => Throw e
              | Ok rest => Ok ({| similarity := sim; object := obj |} :: rest)
              end
          end
      end
  end.

Definition search (queryEmbedding : list float) (opts : options)
  : method t (list SimilarityResult) :=
  (* options.topK || 3, options.filter || {} *)
  let topK := match topK opts with Some 0%Z | None => 3%Z | Some k => k end in
  let filter := default ∅ (filter opts) in
  do self <- this;
  match score queryEmbedding (List.filter (matches filter) (objects self)) with
  | Throw e => throw e
  | Ok similarities =>
      ret (JS.slice0 topK (JS.sort by_similarity similarities))
  end.
End Methods.

(** The asynchronous methods run in the engine and the index. *)
Abbreviation world := (IndexedDB.t * t)%type.

Definition set_db (d : DynamicDB.t) (s : t) : t :=
  {| objects := objects s; keys := keys s; db := d |}.

(** A call [this.db.m(...)]. *)
Definition on_db {R} (m : DynamicDB.state -> R * DynamicDB.state) : world -> R * world :=
  fun '(engine, self) =>
    let '(p, (engine', d)) := m (engine, db self) in
    (p, (engine', set_db d self)).

(** [objs.forEach((obj) => { this.db.addToDB(name, obj); })]: the
    promise of every call is dropped. *)
Fixpoint issue_all (collection : string) (objs : list record) (s : DynamicDB.state)
  : DynamicDB.state :=
  match objs with
  | [] => s
  | obj :: objs' => issue_all collection objs' (DynamicDB.addToDB collection obj s).2
  end.

(** The promise of [saveIndexToDB] and the state at the moment it
    settles. *)
Definition saveIndexToDB (DBname objectStoreName : string) : async world unit :=
  fun '(engine, self) =>
    if (length (objects self) =? 0)%nat
    then (Rejected EmptyIndexError, (engine, self))
    else
      match
        on_db (await _ <- DynamicDB.initializeDB DBname;
               await _ <- DynamicDB.makeObjectStore objectStoreName;
               fun s => (Resolved tt, issue_all objectStoreName (objects self) s))
              (engine, self)
      with
      | (Resolved _, w) => (Resolved tt, w)
      | (Rejected _, w) => (Rejected (Error "Error saving index to database"), w)
      | (Unsettled, w) => (Unsettled, w)
      end.

(** [for await (const record of generator) this.objects.push(record)]:
    the loop asks for the next record at once. *)
Definition loadIndexFromDB (objectStoreName : string) : async world unit :=
  fun '(engine, self) =>
    let self := set_objects (fun _ => []) self in
    match on_db (DynamicDB.dbGenerator objectStoreName DynamicDB.at_once) (engine, self) with
    | (DynamicDB.Yields records ends, (engine', self')) =>
        (if ends then Resolved tt else Unsettled,
         (engine', set_objects (fun objects => objects ++ records) self'))
    | (DynamicDB.Fails e, w) => (Rejected e, w)
    end.

End EmbeddingIndex.

(** ** Definitions that follow the words of the specification *)

(** "Deletes the first matching record": the list without its first
    element that satisfies [p], unchanged when there is none. *)
Fixpoint remove_first {A} (p : A -> bool) (l : list A) : list A :=
  match l with
  | [] => []
  | x :: l' => if p x then l' else x :: remove_first p l'
  end.

(** The check of [validateAndAdd] on the embedding passes. *)
Definition valid_embedding `{Builtins} (obj : record) : bool :=
  JS.Array_isArray (JS.prop obj "embedding")
  && negb (EmbeddingIndex.embedding_some_isNaN (JS.prop obj "embedding")).

(** The record has every name of the schema [ks]. *)
Definition has_schema (ks : list string) (obj : record) : bool :=
  forallb (fun key => JS.has key obj) ks.

(** "A sequence of numbers with no NaN entries". *)
Definition numbers_without_NaN (v : value) : bool :=
  match v with
  | VArray _ items =>
      forallb (fun item => match item with
                           | VNumber x => negb (is_nan x)
                           | _ => false
                           end) items
  | _ => false
  end.

(** Not an array at all, or an array with an entry that is the number
    [NaN]. *)
Definition no_array_or_NaN_entry (v : value) : bool :=
  match v with
  | VArray _ items =>
      existsb (fun item => match item with
                           | VNumber x => is_nan x
                           | _ => false
                           end) items
  | _ => true
  end.

(** The engine carries out the insertion of the record: it can clone
    the record, and it stores the clone. *)
Definition carries_out (engine : IndexedDB.t) (obj : record) : bool :=
  IndexedDB.clones engine obj && IndexedDB.accepts engine obj.

(** The request that [addToDB(collection, obj)] issues on a connection to
    the database [DBname]. *)
Definition request_for (DBname collection : string) (obj : record) : IndexedDB.request :=
  {| IndexedDB.target := DBname; IndexedDB.store := collection; IndexedDB.item := obj |}.

(** The records that [search] keeps: those that match the filter, every
    record when there is none. *)
Definition matching (flt : option record) (s : EmbeddingIndex.t) : list record :=
  List.filter (EmbeddingIndex.matches (default ∅ flt)) (EmbeddingIndex.objects s).

(** The cosine similarity of the query and a stored record, as [search]
    computes it. *)
Definition similarity_of `{Builtins} (queryEmbedding : list float) (obj : record)
  : result float :=
  match EmbeddingIndex.embedding_vector obj with
  | Ok vecB => cosineSimilarity queryEmbedding vecB 6
  | Throw e => Throw e
  end.

(** "Sorted in non-increasing similarity order": no result has a larger
    similarity than the one before it. *)
Definition non_increasing (results : list EmbeddingIndex.SimilarityResult) : Prop :=
  Sorted (fun a b => (EmbeddingIndex.similarity b <=? EmbeddingIndex.similarity a)%float = true)
         results.

(** A value without the identities of its arrays and objects. *)
Fixpoint data (v : value) : value :=
  match v with
  | VArray _ items => VArray 0 (map data items)
  | VObject _ => VObject 0
  | _ => v
  end.

(** "Equal as field-name-to-value mappings": the same field names, with
    the same data.  (The engine stores and returns structured clones; a
    clone has the data of its original, not its identity.) *)
Definition same_fields (a b : record) : Prop := data <$> a = data <$> b.

(** The calls that change an index in memory. *)
Inductive mutation : Type :=
| Add (obj : record)
| Update (filter vector : record)
| Remove (filter : record)
| RemoveBatch (filters : list record).

Definition run `{Builtins} (c : mutation) : method EmbeddingIndex.t unit :=
  match c with
  | Add obj => EmbeddingIndex.add obj
  | Update filter vector => EmbeddingIndex.update filter vector
  | Remove filter => EmbeddingIndex.remove filter
  | RemoveBatch filters => EmbeddingIndex.removeBatch filters
  end.

(** The calls of [add], [update] and [remove]. *)
Definition single (c : mutation) : bool :=
  match c with RemoveBatch _ => false | _ => true end.

(** The states an index goes through from [s] on, by calls that change
    it in memory and by saves and loads, whatever the engine holds. *)
Inductive reachable `{Builtins} (s : EmbeddingIndex.t) : EmbeddingIndex.t -> Prop :=
| reachable_here : reachable s s
| reachable_call c s' : reachable s s' -> reachable s (run c s').2
| reachable_save engine DBname collection s' :
    reachable s s' ->
    reachable s (EmbeddingIndex.saveIndexToDB DBname collection (engine, s')).2.2
| reachable_load engine collection s' :
    reachable s s' ->
    reachable s (EmbeddingIndex.loadIndexFromDB collection (engine, s')).2.2.

(** The scenarios of the specification, on a host that answers for the
    values the scenarios use, and with [NaN] for everything else. *)
Module Scenario.
Open Scope float_scope.

#[export] Instance host : Builtins := {|
  coerceToNumber := fun _ => nan;
  toFixed := fun x digits =>
    if (x =? 0) && (digits =? 6)%Z then "0.000000"
    else if (x =? 1) && (digits =? 6)%Z then "1.000000"
    else if (x =? 0.70710678118654746) && (digits =? 6)%Z then "0.707107"
    else "NaN";
  parseFloat := fun s =>
    if String.eqb s "0.000000" then 0
    else if String.eqb s "1.000000" then 1
    else if String.eqb s "0.707107" then 0.707107
    else nan;
|}.

Definition vec (ref : loc) (xs : list float) : value := VArray ref (VNumber <$> xs).

Definition rec (id : float) (ref : loc) (xs : list float) : record :=
  {[ "id" := VNumber id; "embedding" := vec ref xs ]}.

Definition by_id (id : float) : record := {[ "id" := VNumber id ]}.

Definition index (objs : list record) (ks : list string) : EmbeddingIndex.t :=
  {| EmbeddingIndex.objects := objs; EmbeddingIndex.keys := ks;
     EmbeddingIndex.db := DynamicDB.new |}.

(** [new EmbeddingIndex()] *)
Definition empty : EmbeddingIndex.t := index [] [].

(** An engine without databases, which can clone every record. *)
Definition engine (accepts : record -> bool) : IndexedDB.t :=
  {| IndexedDB.databases := ∅; IndexedDB.pending := [];
     IndexedDB.clones := fun _ => true; IndexedDB.accepts := accepts |}.
End Scenario.

(** ** Further definitions *)

(** The index that [new EmbeddingIndex()] makes. *)
Definition new_index : EmbeddingIndex.t :=
  {| EmbeddingIndex.objects := []; EmbeddingIndex.keys := [];
     EmbeddingIndex.db := DynamicDB.new |}.

(** The index after the calls [cs], one after the other; a call that
    throws leaves the index as it was when it threw. *)
Definition run_all `{Builtins} (cs : list mutation) (s : EmbeddingIndex.t)
  : EmbeddingIndex.t :=
  foldl (fun s c => (run c s).2) s cs.

(** Every record of the index has passed the checks of [validateAndAdd]
    against the schema of the index, and an index without a schema has
    no record. *)
Definition well_formed `{Builtins} (s : EmbeddingIndex.t) : Prop :=
  (EmbeddingIndex.keys s = [] -> EmbeddingIndex.objects s = [])
  /\ Forall (fun obj => valid_embedding obj = true
                        /\ has_schema (EmbeddingIndex.keys s) obj = true)
            (EmbeddingIndex.objects s).

(** The length of [l.slice(0, topK)] for a list of length [n], with the
    [options.topK || 3] of [search]. *)
Definition sliced_length (topK : option Z) (n : nat) : nat :=
  match topK with
  | None | Some 0%Z => 3 `min` n
  | Some k => if (k <? 0)%Z then Z.to_nat (Z.of_nat n + k) else Z.to_nat k `min` n
  end.

(** The calls of the methods of [DynamicDB]. *)
Inductive db_call : Type :=
| InitializeDB (name : string)
| CreateNewVersion (collection : string)
| MakeObjectStore (collection : string)
| AddToDB (collection : string) (obj : record)
| GetAllFromDB (collection : string)
| DbGenerator (collection : string) (waits : DynamicDB.consumer).

(** The engine and the instance when the promise of the call has
    settled (for [addToDB], when the call has returned). *)
Definition run_db (c : db_call) (s : DynamicDB.state) : DynamicDB.state :=
  match c with
  | InitializeDB name => (DynamicDB.initializeDB name s).2
  | CreateNewVersion collection => (DynamicDB.createNewVersion collection s).2
  | MakeObjectStore collection => (DynamicDB.makeObjectStore collection s).2
  | AddToDB collection obj => (DynamicDB.addToDB collection obj s).2
  | GetAllFromDB collection => (DynamicDB.getAllFromDB collection s).2
  | DbGenerator collection waits => (DynamicDB.dbGenerator collection waits s).2
  end.

(** A database holds what another held: its version is not lower, it
    has every collection of the other, and the records of a collection
    are where they were, new ones coming behind them. *)
Definition extends (d d' : IndexedDB.database) : Prop :=
  (IndexedDB.version d <= IndexedDB.version d')%Z
  /\ forall (collection : string) (l : list record),
       IndexedDB.stores d !! collection = Some l ->
       exists l', IndexedDB.stores d' !! collection = Some l' /\ l `prefix_of` l'.

(** What the engine holds is kept: from [e] to [e'] no database
    disappears, and each one holds what it held. *)
Definition keeps (e e' : IndexedDB.t) : Prop :=
  forall (name : string) (d : IndexedDB.database),
    IndexedDB.databases e !! name = Some d ->
    exists d' : IndexedDB.database,
      IndexedDB.databases e' !! name = Some d' /\ extends d d'.

(** The collections an instance of [DynamicDB] lists in [objectStores]
    are in the database of its connection, whose name is not empty. *)
Definition lists_its_own (s : DynamicDB.state) : Prop :=
  forall collection : string,
    collection ∈ DynamicDB.objectStores s.2 ->
    exists c : DynamicDB.IDBDatabase,
      DynamicDB.db s.2 = Some c /\ DynamicDB.name c <> ""
      /\ IndexedDB.contains (DynamicDB.name c) collection s.1 = true.

(** Equality of JavaScript numbers as values ([NaN] is one value, [0]
    and [-0] are two) is decidable. *)
#[export] Instance spec_float_eq_dec : EqDecision spec_float.
Proof. solve_decision. Defined.

#[export] Instance float_eq_dec : EqDecision float.
Proof.
  intros x y. destruct (decide (Prim2SF x = Prim2SF y)) as [Heq|Hne].
  - left. by apply Prim2SF_inj.
  - right. intros ->. by apply Hne.
Defined.

(** The results whose similarity is [c]. *)
Definition with_similarity (c : float) (results : list EmbeddingIndex.SimilarityResult)
  : list EmbeddingIndex.SimilarityResult :=
  List.filter (fun r => bool_decide (EmbeddingIndex.similarity r = c)) results.

(** ** Lists *)

Section ListFacts.
Context {A : Type} (p : A -> bool).

Lemma findIndex_range (l : list A) :
  JS.findIndex p l = (-1)%Z \/ (0 <= JS.findIndex p l < Z.of_nat (length l))%Z.
Proof.
  induction l as [|x l IH]; simpl; [by left|].
  destruct (p x); [right; lia|].
  destruct (Z.eqb_spec (JS.findIndex p l) (-1)); [by left|].
  right. lia.
Qed.

Lemma findIndex_none (l : list A) :
  JS.findIndex p l = (-1)%Z <-> existsb p l = false.
Proof.
  induction l as [|x l IH]; simpl; [done|].
  destruct (p x); simpl; [split; [lia|done]|].
  destruct (Z.eqb_spec (JS.findIndex p l) (-1)) as [E|E]; [tauto|].
  pose proof (findIndex_range l). split; [lia|]. intros E'. apply IH in E'. lia.
Qed.

Lemma findIndex_delete (l : list A) :
  existsb p l = true -> delete (Z.to_nat (JS.findIndex p l)) l = remove_first p l.
Proof.
  induction l as [|x l IH]; simpl; [done|].
  destruct (p x) eqn:Hx; simpl; [done|]. intros Hl.
  destruct (Z.eqb_spec (JS.findIndex p l) (-1)) as [E|E].
  - apply findIndex_none in E. congruence.
  - pose proof (findIndex_range l).
    replace (Z.to_nat (JS.findIndex p l + 1)) with (S (Z.to_nat (JS.findIndex p l))) by lia.
    simpl. by rewrite IH.
Qed.

Lemma remove_first_none (l : list A) : existsb p l = false -> remove_first p l = l.
Proof.
  induction l as [|x l IH]; simpl; [done|].
  destruct (p x); simpl; [done|]. intros. by rewrite IH.
Qed.

Lemma findIndex_find (l : list A) :
  existsb p l = true ->
  exists x, l !! Z.to_nat (JS.findIndex p l) = Some x /\ find p l = Some x /\ p x = true.
Proof.
  induction l as [|x l IH]; simpl; [done|].
  destruct (p x) eqn:Hx; simpl; [by exists x|]. intros Hl.
  destruct (Z.eqb_spec (JS.findIndex p l) (-1)) as [E|E].
  - apply findIndex_none in E. congruence.
  - pose proof (findIndex_range l). destruct (IH Hl) as (y & ? & ? & ?). exists y.
    replace (Z.to_nat (JS.findIndex p l + 1)) with (S (Z.to_nat (JS.findIndex p l))) by lia.
    done.
Qed.
End ListFacts.

(** ** [get], [remove] and [removeBatch] *)

Section Removal.
Import EmbeddingIndex.

Lemma matches_empty (obj : record) : matches ∅ obj = true.
Proof. reflexivity. Qed.

Lemma remove_spec (filter : record) (s : t) :
  remove filter s =
    if existsb (matches filter) (objects s)
    then (Ok tt, set_objects (remove_first (matches filter)) s)
    else (Throw NotFoundError, s).
Proof.
  unfold remove, set_objects. step_method.
  destruct (existsb (matches filter) (objects s)) eqn:E.
  - destruct (Z.eqb_spec (JS.findIndex (matches filter) (objects s)) (-1)) as [E'|E'].
    + apply findIndex_none in E'. congruence.
    + by rewrite findIndex_delete.
  - apply findIndex_none in E. by rewrite E.
Qed.

Lemma removeBatch_spec (filters : list record) (s : t) :
  removeBatch filters s =
    (Ok tt, set_objects (fun objs => foldl (fun l f => remove_first (matches f) l) objs filters) s).
Proof.
  revert s. induction filters as [|f fs IH]; intros s; [by destruct s|].
  unfold removeBatch in *. simpl. unfold bind at 1 2. unfold this at 1. simpl.
  destruct (Z.eqb_spec (JS.findIndex (matches f) (objects s)) (-1)) as [E|E]; simpl.
  - unfold ret at 1. rewrite IH. apply findIndex_none in E.
    unfold set_objects. simpl. by rewrite (remove_first_none _ _ E).
  - unfold assign at 1. rewrite IH. simpl. unfold set_objects. simpl.
    rewrite findIndex_delete; [done|].
    destruct (existsb (matches f) (objects s)) eqn:E'; [done|].
    apply findIndex_none in E'. done.
Qed.
End Removal.

(** C8. [remove(filter)] fails with [NotFoundError] when no record
    matches and otherwise deletes the first matching record;
    [removeBatch(filters)] never fails: filter by filter, in order, it
    deletes the first record matching the filter from what the earlier
    filters left, and skips a filter that matches nothing. *)
Theorem remove_throws_removeBatch_skips (filter : record) (filters : list record)
    (s : EmbeddingIndex.t) :
  EmbeddingIndex.remove filter s =
    (if existsb (EmbeddingIndex.matches filter) (EmbeddingIndex.objects s)
     then (Ok tt, EmbeddingIndex.set_objects (remove_first (EmbeddingIndex.matches filter)) s)
     else (Throw NotFoundError, s))
  /\ EmbeddingIndex.removeBatch [] s = (Ok tt, s)
  /\ EmbeddingIndex.removeBatch (filter :: filters) s =
       EmbeddingIndex.removeBatch filters
         (if existsb (EmbeddingIndex.matches filter) (EmbeddingIndex.objects s)
          then (EmbeddingIndex.remove filter s).2
          else s)
  /\ (EmbeddingIndex.removeBatch filters s).1 = Ok tt.
Proof.
  split; [apply remove_spec|]. split; [done|]. split.
  - rewrite !removeBatch_spec, remove_spec. unfold EmbeddingIndex.set_objects. simpl.
    destruct (existsb _ _) eqn:E; simpl; [done|].
    by rewrite (remove_first_none _ _ E).
  - by rewrite removeBatch_spec.
Qed.

(** C10. The empty filter matches every record: [get({})] returns the
    first record in insertion order, and [null] on an empty index;
    [remove({})] on a non-empty index deletes the first record. *)
Theorem empty_filter_selects_first (first : record) (rest : list record)
    (ks : list string) (d : DynamicDB.t) (s : EmbeddingIndex.t) :
  (forall obj, EmbeddingIndex.matches ∅ obj = true)
  /\ EmbeddingIndex.get ∅ s = (Ok (head (EmbeddingIndex.objects s)), s)
  /\ EmbeddingIndex.remove ∅
       {| EmbeddingIndex.objects := first :: rest; EmbeddingIndex.keys := ks;
          EmbeddingIndex.db := d |}
     = (Ok tt, {| EmbeddingIndex.objects := rest; EmbeddingIndex.keys := ks;
                  EmbeddingIndex.db := d |}).
Proof.
  split; [apply matches_empty|]. split; [|done].
  unfold EmbeddingIndex.get. step_method. by destruct (EmbeddingIndex.objects s).
Qed.

(** ** [validateAndAdd], [add] and [update] *)

Section Validation.
Context `{Builtins}.
Import EmbeddingIndex.

Lemma validateAndAdd_spec (obj : record) (s : t) :
  validateAndAdd obj s =
    if negb (valid_embedding obj) then (Throw InvalidEmbeddingError, s)
    else if (length (keys s) =? 0)%nat
         then (Ok tt, {| objects := objects s ++ [obj]; keys := JS.Object_keys obj;
                         db := db s |})
         else if negb (has_schema (keys s) obj) then (Throw SchemaMismatchError, s)
              else (Ok tt, set_objects (fun objs => objs ++ [obj]) s).
Proof.
  unfold validateAndAdd, valid_embedding, has_schema.
  rewrite negb_andb, negb_involutive.
  destruct (negb (JS.Array_isArray _) || _); [done|].
  step_method.
  destruct (length (keys s) =? 0)%nat; [done|].
  by destruct (negb _).
Qed.

Lemma validateAndAdd_throws (obj : record) (s : t) (e : exn) :
  (validateAndAdd obj s).1 = Throw e -> (validateAndAdd obj s).2 = s.
Proof.
  rewrite validateAndAdd_spec.
  destruct (negb (valid_embedding obj)); [done|].
  destruct (length (keys s) =? 0)%nat; [done|].
  by destruct (negb (has_schema (keys s) obj)).
Qed.

Lemma update_spec (filter vector : record) (s : t) :
  update filter vector s =
    if negb (existsb (matches filter) (objects s)) then (Throw NotFoundError, s)
    else match validateAndAdd vector s with
         | (Ok _, s') =>
             (Ok tt, set_objects
                       (fun objs => <[Z.to_nat (JS.findIndex (matches filter) (objects s)) := vector]> objs)
                       s')
         | (Throw e, s') => (Throw e, s')
         end.
Proof.
  unfold update. unfold bind at 1. unfold this at 1. simpl.
  destruct (existsb (matches filter) (objects s)) eqn:E; simpl.
  - destruct (Z.eqb_spec (JS.findIndex (matches filter) (objects s)) (-1)) as [E'|E'].
    + apply findIndex_none in E'. congruence.
    + unfold bind. destruct (validateAndAdd vector s) as [[[]|e] s']; done.
  - apply findIndex_none in E. by rewrite E.
Qed.

Lemma run_keys (c : mutation) (s : t) :
  keys s <> [] -> keys (run c s).2 = keys s.
Proof.
  intros Hk.
  assert (Hlen : (length (keys s) =? 0)%nat = false)
    by (destruct (keys s); [done|reflexivity]).
  assert (Hv : forall obj, keys (validateAndAdd obj s).2 = keys s).
  { intros obj. rewrite validateAndAdd_spec, Hlen.
    destruct (negb (valid_embedding obj)); [done|].
    by destruct (negb (has_schema (keys s) obj)). }
  destruct c as [obj|filter vector|filter|filters]; simpl.
  - apply Hv.
  - rewrite update_spec. destruct (negb _); [done|].
    specialize (Hv vector). by destruct (validateAndAdd vector s) as [[[]|e'] s'].
  - rewrite remove_spec. by destruct (existsb _ _).
  - by rewrite removeBatch_spec.
Qed.

Lemma on_db_keys {R} (m : DynamicDB.state -> R * DynamicDB.state) (w : world) :
  keys (on_db m w).2.2 = keys w.2.
Proof.
  destruct w as [engine self]. unfold on_db.
  by destruct (m (engine, db self)) as [p [engine' d]].
Qed.

Lemma saveIndexToDB_keys (DBname collection : string) (w : world) :
  keys (saveIndexToDB DBname collection w).2.2 = keys w.2.
Proof.
  destruct w as [engine self]. unfold saveIndexToDB.
  destruct (length (objects self) =? 0)%nat; [done|].
  match goal with |- context [on_db ?m ?w] => pose proof (on_db_keys m w) as Hk end.
  by destruct (on_db _ _) as [[[]|e|] w'].
Qed.

Lemma loadIndexFromDB_keys (collection : string) (w : world) :
  keys (loadIndexFromDB collection w).2.2 = keys w.2.
Proof.
  destruct w as [engine self]. unfold loadIndexFromDB.
  match goal with |- context [on_db ?m ?w] => pose proof (on_db_keys m w) as Hk end.
  by destruct (on_db _ _) as [[e|records ends] [engine' self']].
Qed.

Lemma reachable_keys (s s' : t) :
  keys s <> [] -> reachable s s' -> keys s' = keys s.
Proof.
  intros Hk.
  induction 1 as [|c s' _ IH|engine DBname collection s' _ IH|engine collection s' _ IH].
  - done.
  - rewrite run_keys; [done|]. by rewrite IH.
  - by rewrite saveIndexToDB_keys.
  - by rewrite loadIndexFromDB_keys.
Qed.

Lemma valid_embedding_has (obj : record) :
  valid_embedding obj = true -> is_Some (obj !! "embedding").
Proof.
  unfold valid_embedding, JS.prop. destruct (obj !! "embedding"); [eauto|done].
Qed.

Lemma elem_of_Object_keys (obj : record) (key : string) :
  key ∈ JS.Object_keys obj <-> key ∈ dom obj.
Proof.
  unfold JS.Object_keys. rewrite elem_of_dom, list_elem_of_fmap. split.
  - intros [[k v] [-> Hkv]]. apply elem_of_map_to_list in Hkv. eauto.
  - intros [v Hv]. exists (key, v). split; [done|]. by apply elem_of_map_to_list.
Qed.

Lemma has_dom (key : string) (obj : record) :
  JS.has key obj = true <-> key ∈ dom obj \/ key ∈ JS.Object_prototype.
Proof.
  unfold JS.has, JS.inherited.
  by rewrite orb_true_iff, !bool_decide_eq_true, elem_of_dom.
Qed.

Lemma has_schema_dom (ks : list string) (obj : record) :
  has_schema ks obj = true
  <-> forall key, key ∈ ks -> key ∈ dom obj \/ key ∈ JS.Object_prototype.
Proof.
  unfold has_schema. rewrite forallb_forall. split.
  - intros Hall key Hkey. apply has_dom, Hall. by apply list_elem_of_In.
  - intros Hall key Hkey. apply has_dom, Hall. by apply list_elem_of_In.
Qed.

Lemma has_schema_lacks (ks : list string) (obj : record) :
  has_schema ks obj = false
  <-> exists key, key ∈ ks /\ (key ∉ dom obj) /\ key ∉ JS.Object_prototype.
Proof.
  split.
  - unfold has_schema. induction ks as [|k ks IH]; simpl; [done|].
    destruct (JS.has k obj) eqn:Hk; simpl.
    + intros (key & Hkey & Hmiss)%IH. exists key. split; [by apply list_elem_of_further|done].
    + intros _. exists k. split; [by apply list_elem_of_here|].
      split; intros Hin; assert (JS.has k obj = true) by (apply has_dom; auto); congruence.
  - intros (key & Hkey & Hmiss & Hown).
    destruct (has_schema ks obj) eqn:Hhas; [|done].
    destruct (proj1 (has_schema_dom ks obj) Hhas key Hkey); done.
Qed.
End Validation.

(** C9. When [add], [update] or [remove] throws, the record sequence and
    the schema of the index (its whole state) are as they were before
    the call. *)
Theorem failed_call_changes_nothing `{Builtins} (c : mutation) (s : EmbeddingIndex.t)
    (e : exn) :
  single c = true -> (run c s).1 = Throw e -> (run c s).2 = s.
Proof.
  destruct c as [obj|filter vector|filter|filters]; simpl; [| | |done]; intros _.
  - (* add: both checks precede the first assignment *)
    apply validateAndAdd_throws.
  - (* update: the lookup fails first, then the validation *)
    rewrite update_spec. destruct (negb _); [done|].
    pose proof (validateAndAdd_throws vector s) as Hv.
    destruct (EmbeddingIndex.validateAndAdd vector s) as [[[]|e'] s']; simpl in *; [done|].
    eauto.
  - (* remove: the lookup fails before the splice *)
    rewrite remove_spec. by destruct (existsb _ _).
Qed.

Lemma failed_call_changes_nothing_witness :
  single (Update (Scenario.by_id 7) (Scenario.rec 7 1 [1%float])) = true
  /\ (@run Scenario.host (Update (Scenario.by_id 7) (Scenario.rec 7 1 [1%float]))
          (Scenario.index [Scenario.rec 1 2 [0%float]] ["id"; "embedding"])).1
     = Throw NotFoundError
  /\ (@run Scenario.host (Update (Scenario.by_id 7) (Scenario.rec 7 1 [1%float]))
          (Scenario.index [Scenario.rec 1 2 [0%float]] ["id"; "embedding"])).2
     = Scenario.index [Scenario.rec 1 2 [0%float]] ["id"; "embedding"].
Proof.
  assert (Hthrow : (@run Scenario.host (Update (Scenario.by_id 7) (Scenario.rec 7 1 [1%float]))
          (Scenario.index [Scenario.rec 1 2 [0%float]] ["id"; "embedding"])).1
     = Throw NotFoundError) by (vm_compute; reflexivity).
  split; [reflexivity|]. split; [exact Hthrow|].
  eapply (@failed_call_changes_nothing Scenario.host); [reflexivity|exact Hthrow].
Defined.

Section AddUpdate.
Context `{Builtins}.
Import EmbeddingIndex.

Lemma numbers_without_NaN_valid (obj : record) :
  numbers_without_NaN (JS.prop obj "embedding") = true -> valid_embedding obj = true.
Proof.
  unfold valid_embedding. destruct (JS.prop obj "embedding") as [| | | | |ref items| |]; try done.
  simpl. intros Hall. apply negb_true_iff, not_true_iff_false. intros Hex.
  apply existsb_exists in Hex as (item & Hin & Hnan).
  rewrite forallb_forall in Hall. specialize (Hall item Hin).
  destruct item; try done. unfold JS.isNaN in Hnan. simpl in Hnan.
  by rewrite Hnan in Hall.
Qed.

Lemma no_array_or_NaN_entry_invalid (obj : record) :
  no_array_or_NaN_entry (JS.prop obj "embedding") = true -> valid_embedding obj = false.
Proof.
  unfold valid_embedding. destruct (JS.prop obj "embedding") as [| | | | |ref items| |]; try done.
  simpl. intros Hex. apply negb_false_iff.
  apply existsb_exists in Hex as (item & Hin & Hnan).
  apply existsb_exists. exists item. split; [done|].
  destruct item; try done.
Qed.

Lemma validateAndAdd_objects (obj : record) (s : t) :
  (validateAndAdd obj s).1 = Ok tt ->
  objects (validateAndAdd obj s).2 = objects s ++ [obj].
Proof.
  rewrite validateAndAdd_spec.
  destruct (negb (valid_embedding obj)); [done|].
  destruct (length (keys s) =? 0)%nat; [done|].
  by destruct (negb (has_schema (keys s) obj)).
Qed.
End AddUpdate.

(** C3, as the code has it.  [update(filter, newRecord)] fails with
    [NotFoundError] when no record matches.  When a record matches and
    [newRecord] passes the validation, the first matching record is
    replaced at its position and every other record keeps its own, but
    the validation has also appended [newRecord]: the sequence is one
    record longer than before. *)
Theorem update_replaces_and_appends `{Builtins} (filter vector : record)
    (s : EmbeddingIndex.t) :
  existsb (EmbeddingIndex.matches filter) (EmbeddingIndex.objects s) = true ->
  (EmbeddingIndex.validateAndAdd vector s).1 = Ok tt ->
  exists (i : nat) (old : record),
    EmbeddingIndex.objects s !! i = Some old
    /\ find (EmbeddingIndex.matches filter) (EmbeddingIndex.objects s) = Some old
    /\ (EmbeddingIndex.update filter vector s).1 = Ok tt
    /\ EmbeddingIndex.objects (EmbeddingIndex.update filter vector s).2
       = <[i := vector]> (EmbeddingIndex.objects s) ++ [vector]
    /\ length (EmbeddingIndex.objects (EmbeddingIndex.update filter vector s).2)
       = S (length (EmbeddingIndex.objects s)).
Proof.
  intros Hmatch Hvalid.
  destruct (findIndex_find _ _ Hmatch) as (old & Hold & Hfind & _).
  exists (Z.to_nat (JS.findIndex (EmbeddingIndex.matches filter) (EmbeddingIndex.objects s))), old.
  split; [done|]. split; [done|].
  pose proof (validateAndAdd_objects vector s Hvalid) as Hobjs.
  rewrite update_spec, Hmatch. simpl.
  destruct (EmbeddingIndex.validateAndAdd vector s) as [[[]|e] s']; simpl in *; [|done].
  split; [done|]. rewrite Hobjs.
  apply lookup_lt_Some in Hold.
  rewrite insert_app_l by done.
  split; [done|]. rewrite length_app, length_insert. simpl. lia.
Qed.

Lemma update_replaces_and_appends_witness :
  @EmbeddingIndex.update Scenario.host (Scenario.by_id 1) (Scenario.rec 1 2 [0; 1]%float)
    (Scenario.index [Scenario.rec 1 1 [1; 0]%float] ["id"; "embedding"])
  = (Ok tt, Scenario.index [Scenario.rec 1 2 [0; 1]%float; Scenario.rec 1 2 [0; 1]%float]
                          ["id"; "embedding"])
  /\ exists (i : nat) (old : record),
    [Scenario.rec 1 1 [1; 0]%float] !! i = Some old
    /\ find (EmbeddingIndex.matches (Scenario.by_id 1)) [Scenario.rec 1 1 [1; 0]%float] = Some old
    /\ (@EmbeddingIndex.update Scenario.host (Scenario.by_id 1) (Scenario.rec 1 2 [0; 1]%float)
          (Scenario.index [Scenario.rec 1 1 [1; 0]%float] ["id"; "embedding"])).1 = Ok tt
    /\ EmbeddingIndex.objects
         (@EmbeddingIndex.update Scenario.host (Scenario.by_id 1) (Scenario.rec 1 2 [0; 1]%float)
            (Scenario.index [Scenario.rec 1 1 [1; 0]%float] ["id"; "embedding"])).2
       = <[i := Scenario.rec 1 2 [0; 1]%float]> [Scenario.rec 1 1 [1; 0]%float]
         ++ [Scenario.rec 1 2 [0; 1]%float]
    /\ length (EmbeddingIndex.objects
         (@EmbeddingIndex.update Scenario.host (Scenario.by_id 1) (Scenario.rec 1 2 [0; 1]%float)
            (Scenario.index [Scenario.rec 1 1 [1; 0]%float] ["id"; "embedding"])).2)
       = 2.
Proof.
  split; [vm_compute; reflexivity|].
  apply (@update_replaces_and_appends Scenario.host (Scenario.by_id 1)
           (Scenario.rec 1 2 [0; 1]%float)
           (Scenario.index [Scenario.rec 1 1 [1; 0]%float] ["id"; "embedding"]));
    vm_compute; reflexivity.
Defined.

(** C5, as stated, fails on the code in two ways.  A record whose
    embedding is a sequence of numbers without [NaN] is not appended
    when it lacks a name of the schema; and an embedding whose entries
    are not numbers ([null], [true]) passes the check of [isNaN], which
    converts its argument to a number first. *)
Lemma add_embedding_claim_counterexample :
  (numbers_without_NaN
     (JS.prop {[ "embedding" := Scenario.vec 2 [1; 2]%float ]} "embedding") = true
   /\ @EmbeddingIndex.add Scenario.host {[ "embedding" := Scenario.vec 2 [1; 2]%float ]}
        (Scenario.index [Scenario.rec 1 1 [1; 2]%float] ["id"; "embedding"])
      = (Throw SchemaMismatchError,
         Scenario.index [Scenario.rec 1 1 [1; 2]%float] ["id"; "embedding"]))
  /\ (numbers_without_NaN
        (JS.prop {[ "embedding" := VArray 3 [VNull; VBool true] ]} "embedding") = false
      /\ (@EmbeddingIndex.add Scenario.host {[ "embedding" := VArray 3 [VNull; VBool true] ]}
            Scenario.empty).1 = Ok tt).
Proof. repeat split; vm_compute; reflexivity. Qed.

(** C5, amended.  [add(record)] fails with [InvalidEmbeddingError], and
    changes nothing, whenever [record.embedding] is not an array (so
    also when the record has no such field) or has an entry that is the
    number [NaN].  When [record.embedding] is a sequence of numbers
    without [NaN], [add] does not fail with [InvalidEmbeddingError]: it
    appends the record to the end of the sequence, unless the index has
    a schema and the record has one of its names neither as a field nor
    as a member inherited from [Object.prototype] (the check is
    [key in obj]), in which case [add] fails with
    [SchemaMismatchError]. *)
Theorem add_checks_embedding `{Builtins} (obj : record) (s : EmbeddingIndex.t) :
  (obj !! "embedding" = None ->
   EmbeddingIndex.add obj s = (Throw InvalidEmbeddingError, s))
  /\ (no_array_or_NaN_entry (JS.prop obj "embedding") = true ->
      EmbeddingIndex.add obj s = (Throw InvalidEmbeddingError, s))
  /\ (numbers_without_NaN (JS.prop obj "embedding") = true ->
      (EmbeddingIndex.add obj s).1 <> Throw InvalidEmbeddingError
      /\ EmbeddingIndex.add obj s =
           if (length (EmbeddingIndex.keys s) =? 0)%nat
           then (Ok tt, {| EmbeddingIndex.objects := EmbeddingIndex.objects s ++ [obj];
                           EmbeddingIndex.keys := JS.Object_keys obj;
                           EmbeddingIndex.db := EmbeddingIndex.db s |})
           else if has_schema (EmbeddingIndex.keys s) obj
                then (Ok tt, EmbeddingIndex.set_objects (fun objs => objs ++ [obj]) s)
                else (Throw SchemaMismatchError, s))
  /\ (has_schema (EmbeddingIndex.keys s) obj = false
      <-> exists key, key ∈ EmbeddingIndex.keys s /\ (key ∉ dom obj)
                      /\ key ∉ JS.Object_prototype).
Proof.
  assert (Hbad : no_array_or_NaN_entry (JS.prop obj "embedding") = true ->
                 EmbeddingIndex.add obj s = (Throw InvalidEmbeddingError, s)).
  { intros Hno. unfold EmbeddingIndex.add. rewrite validateAndAdd_spec.
    by rewrite (no_array_or_NaN_entry_invalid _ Hno). }
  split; [|split; [exact Hbad|split; [|apply has_schema_lacks]]].
  - intros Hnone. apply Hbad. unfold JS.prop. by rewrite Hnone.
  - intros Hnum. unfold EmbeddingIndex.add. rewrite validateAndAdd_spec.
    rewrite (numbers_without_NaN_valid _ Hnum). simpl.
    destruct (length (EmbeddingIndex.keys s) =? 0)%nat; [done|].
    by destruct (has_schema (EmbeddingIndex.keys s) obj).
Qed.

Lemma add_checks_embedding_witness :
  (* no embedding field: the scenario [add({id: 3})] *)
  @EmbeddingIndex.add Scenario.host (Scenario.by_id 3)
    (Scenario.index [Scenario.rec 1 1 [1; 2]%float] ["id"; "embedding"])
  = (Throw InvalidEmbeddingError,
     Scenario.index [Scenario.rec 1 1 [1; 2]%float] ["id"; "embedding"])
  (* a [NaN] entry *)
  /\ @EmbeddingIndex.add Scenario.host (Scenario.rec 2 2 [1; nan]%float) Scenario.empty
     = (Throw InvalidEmbeddingError, Scenario.empty)
  (* numbers without [NaN], with an extra field *)
  /\ @EmbeddingIndex.add Scenario.host (<["extra" := VString "x"]> (Scenario.rec 2 2 [1; 2]%float))
       (Scenario.index [Scenario.rec 1 1 [1; 2]%float] ["id"; "embedding"])
     = (Ok tt, Scenario.index [Scenario.rec 1 1 [1; 2]%float;
                              <["extra" := VString "x"]> (Scenario.rec 2 2 [1; 2]%float)]
                             ["id"; "embedding"]).
Proof.
  split; [|split].
  - apply (@add_checks_embedding Scenario.host). reflexivity.
  - apply (@add_checks_embedding Scenario.host). reflexivity.
  - assert (Hnum : numbers_without_NaN
             (JS.prop (<["extra" := VString "x"]> (Scenario.rec 2 2 [1; 2]%float)) "embedding")
           = true) by (vm_compute; reflexivity).
    destruct (proj1 (proj2 (proj2 (@add_checks_embedding Scenario.host
         (<["extra" := VString "x"]> (Scenario.rec 2 2 [1; 2]%float))
         (Scenario.index [Scenario.rec 1 1 [1; 2]%float] ["id"; "embedding"])))) Hnum)
      as [_ ->].
    vm_compute. reflexivity.
Defined.

(** C6, as stated, fails on the code.  The schema check is
    [key in obj], which also holds for a name the record inherits: on an
    index whose first record has a field [toString], a record without
    such a field is appended, although it lacks a name of the schema. *)
Lemma schema_claim_counterexample :
  @EmbeddingIndex.add Scenario.host
    {[ "toString" := VNumber 1; "embedding" := Scenario.vec 1 [1]%float ]} Scenario.empty
  = (Ok tt,
     Scenario.index [ {[ "toString" := VNumber 1; "embedding" := Scenario.vec 1 [1]%float ]} ]
                    ["embedding"; "toString"])
  /\ ({[ "embedding" := Scenario.vec 2 [2]%float ]} : record) !! "toString" = None
  /\ @valid_embedding Scenario.host {[ "embedding" := Scenario.vec 2 [2]%float ]} = true
  /\ @EmbeddingIndex.add Scenario.host {[ "embedding" := Scenario.vec 2 [2]%float ]}
       (Scenario.index
          [ {[ "toString" := VNumber 1; "embedding" := Scenario.vec 1 [1]%float ]} ]
          ["embedding"; "toString"])
     = (Ok tt,
        Scenario.index
          [ {[ "toString" := VNumber 1; "embedding" := Scenario.vec 1 [1]%float ]};
            {[ "embedding" := Scenario.vec 2 [2]%float ]} ]
          ["embedding"; "toString"]).
Proof. repeat split; vm_compute; reflexivity. Qed.

(** C6, amended.  The first record added to a new index establishes the
    schema as the set of its field names.  From then on, whatever calls
    of [add], [update], [remove], [removeBatch], [saveIndexToDB] and
    [loadIndexFromDB] come between, [add] of a record with a valid
    embedding fails with [SchemaMismatchError] exactly when some name of
    the schema is neither a field of the record nor the name of a member
    it inherits from [Object.prototype]; otherwise the record is
    appended, whatever further names it carries. *)
Theorem first_record_establishes_schema `{Builtins} (first : record)
    (s0 : EmbeddingIndex.t) :
  EmbeddingIndex.constructor None = Ok s0 ->
  valid_embedding first = true ->
  exists s1 : EmbeddingIndex.t,
    EmbeddingIndex.add first s0 = (Ok tt, s1)
    /\ (forall key, key ∈ EmbeddingIndex.keys s1 <-> key ∈ dom first)
    /\ forall (s : EmbeddingIndex.t) (obj : record),
        reachable s1 s ->
        valid_embedding obj = true ->
        (forall key, key ∈ EmbeddingIndex.keys s <-> key ∈ dom first)
        /\ ((EmbeddingIndex.add obj s).1 = Throw SchemaMismatchError
            <-> exists key, key ∈ dom first /\ (key ∉ dom obj)
                            /\ key ∉ JS.Object_prototype)
        /\ ((forall key, key ∈ dom first ->
                         key ∈ dom obj \/ key ∈ JS.Object_prototype) ->
            EmbeddingIndex.add obj s
            = (Ok tt, EmbeddingIndex.set_objects (fun objs => objs ++ [obj]) s)).
Proof.
  intros Hnew Hfirst. injection Hnew as <-.
  eexists. split.
  { unfold EmbeddingIndex.add. rewrite validateAndAdd_spec, Hfirst. reflexivity. }
  simpl. split; [apply elem_of_Object_keys|].
  intros s obj Hreach Hobj.
  (* the schema is not empty, so no later call changes it *)
  assert (Hne : JS.Object_keys first <> []).
  { destruct (valid_embedding_has _ Hfirst) as [v Hv].
    assert (Hin : "embedding" ∈ JS.Object_keys first)
      by (apply elem_of_Object_keys, elem_of_dom; eauto).
    intros E. rewrite E in Hin. by apply not_elem_of_nil in Hin. }
  apply reachable_keys in Hreach; [|done]. simpl in Hreach.
  assert (Hlen : (length (EmbeddingIndex.keys s) =? 0)%nat = false).
  { rewrite Hreach. destruct (JS.Object_keys first); [done|reflexivity]. }
  assert (Hschema : has_schema (EmbeddingIndex.keys s) obj = true
                    <-> forall key, key ∈ dom first ->
                                    key ∈ dom obj \/ key ∈ JS.Object_prototype).
  { rewrite has_schema_dom, Hreach. by setoid_rewrite elem_of_Object_keys. }
  split; [intros key; rewrite Hreach; apply elem_of_Object_keys|].
  unfold EmbeddingIndex.add. rewrite validateAndAdd_spec, Hobj, Hlen. simpl.
  destruct (has_schema (EmbeddingIndex.keys s) obj) eqn:Hhas; simpl.
  - split; [|done]. split; [done|].
    intros (key & Hkey & Hmiss & Hown).
    destruct (proj1 Hschema eq_refl key Hkey); done.
  - split.
    + split; [intros _|done].
      destruct (decide (set_Forall (fun key => key ∈ dom obj \/ key ∈ JS.Object_prototype)
                                   (dom first))) as [Hall|Hex].
      * by apply Hschema in Hall.
      * apply not_set_Forall_Exists in Hex; [|apply _].
        destruct Hex as (key & Hkey & Hmiss). exists key. split; [done|].
        split; intros Hin; apply Hmiss; auto.
    + intros Hall. by apply Hschema in Hall.
Qed.

Lemma first_record_establishes_schema_witness :
  exists s1 : EmbeddingIndex.t,
    @EmbeddingIndex.add Scenario.host (Scenario.rec 1 1 [1; 2]%float) Scenario.empty = (Ok tt, s1)
    /\ (forall key, key ∈ EmbeddingIndex.keys s1 <-> key ∈ dom (Scenario.rec 1 1 [1; 2]%float))
    /\ forall (s : EmbeddingIndex.t) (obj : record),
        @reachable Scenario.host s1 s ->
        @valid_embedding Scenario.host obj = true ->
        (forall key, key ∈ EmbeddingIndex.keys s <-> key ∈ dom (Scenario.rec 1 1 [1; 2]%float))
        /\ ((@EmbeddingIndex.add Scenario.host obj s).1 = Throw SchemaMismatchError
            <-> exists key, key ∈ dom (Scenario.rec 1 1 [1; 2]%float) /\ (key ∉ dom obj)
                            /\ key ∉ JS.Object_prototype)
        /\ ((forall key, key ∈ dom (Scenario.rec 1 1 [1; 2]%float) ->
                         key ∈ dom obj \/ key ∈ JS.Object_prototype) ->
            @EmbeddingIndex.add Scenario.host obj s
            = (Ok tt, EmbeddingIndex.set_objects (fun objs => objs ++ [obj]) s)).
Proof.
  apply (@first_record_establishes_schema Scenario.host (Scenario.rec 1 1 [1; 2]%float)
           Scenario.empty); reflexivity.
Defined.

(** ** [cosineSimilarity] on vectors of magnitude zero *)

Section ZeroMagnitude.
Open Scope float_scope.

(** [x === 0] holds of the two zeros only. *)
Lemma eqb_zero (x : float) : (x =? 0) = true -> x = 0 \/ x = -0.
Proof.
  rewrite FloatAxioms.eqb_spec. change (Prim2SF 0) with (S754_zero false). intros Hx.
  rewrite <- (SF2Prim_Prim2SF x).
  destruct (Prim2SF x) as [[]|[]| |[]]; try discriminate Hx; [right|left]; reflexivity.
Qed.

Lemma sum_of_squares_zero (vec : list float) :
  Forall (fun a => (a =? 0) = true) vec ->
  foldl (fun sum a => sum + a * a) 0 vec = 0.
Proof.
  induction 1 as [|a vec Ha _ IH]; simpl; [done|].
  destruct (eqb_zero a Ha) as [-> | ->]; exact IH.
Qed.

Lemma magnitude_zero (vec : list float) :
  Forall (fun a => (a =? 0) = true) vec -> magnitude vec = 0.
Proof. intros Hvec. unfold magnitude. by rewrite sum_of_squares_zero. Qed.
End ZeroMagnitude.

(** C7. For vectors of equal length and every precision,
    [cosineSimilarity] returns [0] whenever the magnitude of either
    vector is zero, in particular when either vector is all-zero; it
    divides by nothing and rounds nothing. *)
Theorem cosineSimilarity_zero_magnitude `{Builtins} (vecA vecB : list float)
    (precision : Z) :
  length vecA = length vecB ->
  (magnitude vecA =? 0)%float = true \/ (magnitude vecB =? 0)%float = true
  \/ Forall (fun a => (a =? 0)%float = true) vecA
  \/ Forall (fun b => (b =? 0)%float = true) vecB ->
  cosineSimilarity vecA vecB precision = Ok 0%float.
Proof.
  intros Hlen Hzero. unfold cosineSimilarity.
  rewrite Hlen, Nat.eqb_refl. simpl.
  assert (Hmag : (magnitude vecA =? 0)%float = true \/ (magnitude vecB =? 0)%float = true).
  { destruct Hzero as [HA|[HB|[HA|HB]]]; [by left|by right| |].
    - left. by rewrite magnitude_zero.
    - right. by rewrite magnitude_zero. }
  destruct Hmag as [-> | ->]; [done|]. by rewrite orb_true_r.
Qed.

Lemma cosineSimilarity_zero_magnitude_witness :
  @cosineSimilarity Scenario.host [0; -0]%float [3; 4]%float (-5) = Ok 0%float.
Proof.
  apply (@cosineSimilarity_zero_magnitude Scenario.host); [reflexivity|].
  right; right; left. repeat constructor.
Defined.

(** ** [saveIndexToDB] and [loadIndexFromDB] *)

Section Persistence.
Import EmbeddingIndex.

Lemma foldl_carry_out (acc : IndexedDB.t) (rs : list IndexedDB.request) (n : string) :
  exists D,
    foldl IndexedDB.carry_out acc rs
    = {| IndexedDB.databases := D; IndexedDB.pending := IndexedDB.pending acc;
         IndexedDB.clones := IndexedDB.clones acc;
         IndexedDB.accepts := IndexedDB.accepts acc |}
    /\ (IndexedDB.databases acc !! n = None -> D !! n = None).
Proof.
  revert acc. induction rs as [|r rs IH]; intros acc; simpl.
  - exists (IndexedDB.databases acc). by destruct acc.
  - destruct (IH (IndexedDB.carry_out acc r)) as (D & -> & HD). exists D.
    unfold IndexedDB.carry_out in *. destruct (IndexedDB.accepts acc (IndexedDB.item r)); simpl in *.
    + split; [done|]. intros Hn. apply HD. rewrite lookup_alter. case_decide; subst; by rewrite ?Hn.
    + done.
Qed.

Lemma settle_spec (e : IndexedDB.t) (n : string) :
  exists D,
    IndexedDB.settle e
    = {| IndexedDB.databases := D; IndexedDB.pending := [];
         IndexedDB.clones := IndexedDB.clones e;
         IndexedDB.accepts := IndexedDB.accepts e |}
    /\ (IndexedDB.databases e !! n = None -> D !! n = None).
Proof.
  unfold IndexedDB.settle.
  destruct (foldl_carry_out {| IndexedDB.databases := IndexedDB.databases e;
                               IndexedDB.pending := [];
                               IndexedDB.clones := IndexedDB.clones e;
                               IndexedDB.accepts := IndexedDB.accepts e |}
              (IndexedDB.pending e) n) as (D & HD & Hn).
  exists D. by split.
Qed.

(** On an open connection to a database that has the collection, and
    for a name that the instance finds in [objectStores], the calls of
    [addToDB] issue an insertion for every record that the engine can
    clone. *)
Lemma issue_all_spec (DBname collection : string) (objs : list record)
    (D : gmap string IndexedDB.database) (d : IndexedDB.database) pend cl acc
    (self : DynamicDB.t) :
  DynamicDB.db self = Some {| DynamicDB.name := DBname; DynamicDB.closed := false |} ->
  DynamicDB.listed collection self = true ->
  D !! DBname = Some d ->
  is_Some (IndexedDB.stores d !! collection) ->
  issue_all collection objs
    ({| IndexedDB.databases := D; IndexedDB.pending := pend; IndexedDB.clones := cl;
        IndexedDB.accepts := acc |}, self)
  = ({| IndexedDB.databases := D;
        IndexedDB.pending := pend ++ (request_for DBname collection <$> List.filter cl objs);
        IndexedDB.clones := cl;
        IndexedDB.accepts := acc |}, self).
Proof.
  intros Hdb Hcoll HD Hstore. revert pend.
  induction objs as [|obj objs IH]; intros pend; simpl.
  - by rewrite app_nil_r.
  - rewrite Hdb, Hcoll. simpl.
    unfold DynamicDB.transaction, IndexedDB.contains. simpl. rewrite HD.
    rewrite bool_decide_eq_true_2 by done. simpl.
    destruct (cl obj); simpl; [|apply IH].
    unfold IndexedDB.issue. simpl. rewrite IH. by rewrite <- app_assoc.
Qed.

Lemma settle_issued (DBname collection : string) (objs : list record)
    (D : gmap string IndexedDB.database) (v : Z) (c : nat) (l : list record)
    (rest : gmap string (list record)) cl acc :
  foldl IndexedDB.carry_out
    {| IndexedDB.databases :=
         <[DBname := {| IndexedDB.version := v; IndexedDB.stores := <[collection := l]> rest;
                        IndexedDB.connections := c |}]> D;
       IndexedDB.pending := []; IndexedDB.clones := cl; IndexedDB.accepts := acc |}
    (request_for DBname collection <$> objs)
  = {| IndexedDB.databases :=
         <[DBname := {| IndexedDB.version := v;
                        IndexedDB.stores := <[collection := l ++ List.filter acc objs]> rest;
                        IndexedDB.connections := c |}]> D;
       IndexedDB.pending := []; IndexedDB.clones := cl; IndexedDB.accepts := acc |}.
Proof.
  revert l. induction objs as [|obj objs IH]; intros l; simpl.
  - by rewrite app_nil_r.
  - unfold IndexedDB.carry_out at 2. simpl. destruct (acc obj) eqn:Hacc; simpl.
    + unfold IndexedDB.set_databases. simpl. rewrite alter_insert_eq.
      unfold IndexedDB.append. simpl. rewrite alter_insert_eq.
      rewrite IH. by rewrite <- app_assoc.
    + apply IH.
Qed.

Lemma filter_carries_out (engine : IndexedDB.t) (objs : list record) :
  List.filter (IndexedDB.accepts engine) (List.filter (IndexedDB.clones engine) objs)
  = List.filter (carries_out engine) objs.
Proof.
  unfold carries_out. induction objs as [|obj objs IH]; simpl; [done|].
  destruct (IndexedDB.clones engine obj); simpl; [|done].
  destruct (IndexedDB.accepts engine obj); by rewrite IH.
Qed.

(** A consumer that asks at once receives every value, and the end. *)
Lemma cursor_events_at_once (i : nat) (vs : list record) :
  DynamicDB.cursor_events DynamicDB.at_once i vs = (vs, true).
Proof.
  revert i. induction vs as [|v vs IH]; intros i; simpl; [done|]. by rewrite IH.
Qed.

Lemma cursor_at_once (vs : list record) :
  DynamicDB.cursor DynamicDB.at_once vs = (vs, true).
Proof. destruct vs as [|v vs]; simpl; [done|]. by rewrite cursor_events_at_once. Qed.

#[local] Arguments issue_all : simpl never.

Lemma saveIndexToDB_first (DBname collection : string) (engine : IndexedDB.t) (self : t) :
  DBname <> "" ->
  IndexedDB.databases engine !! DBname = None ->
  db self = DynamicDB.new ->
  objects self <> [] ->
  exists D,
    D !! DBname = None
    /\ saveIndexToDB DBname collection (engine, self)
       = (Resolved tt,
          ({| IndexedDB.databases :=
                <[DBname := {| IndexedDB.version := 2;
                               IndexedDB.stores := <[collection := []]> ∅;
                               IndexedDB.connections := 1 |}]> D;
              IndexedDB.pending :=
                request_for DBname collection
                  <$> List.filter (IndexedDB.clones engine) (objects self);
              IndexedDB.clones := IndexedDB.clones engine;
              IndexedDB.accepts := IndexedDB.accepts engine |},
           set_db {| DynamicDB.db := Some {| DynamicDB.name := DBname;
                                             DynamicDB.closed := false |};
                     DynamicDB.objectStores := {[collection]} ∪ ∅;
                     DynamicDB.version := 2 |} self)).
Proof.
  intros Hname%String.eqb_neq Hnone Hnew Hobjs.
  destruct (settle_spec engine DBname) as (D & HD & Hn). specialize (Hn Hnone).
  exists D. split; [done|].
  destruct self as [objs ks d]. simpl in *. subst d.
  unfold saveIndexToDB. simpl.
  destruct objs as [|obj objs]; [done|]. clear Hobjs.
  change (length (obj :: objs) =? 0)%nat with false. cbv iota.
  unfold on_db, then_, DynamicDB.initializeDB, DynamicDB.makeObjectStore,
    DynamicDB.createNewVersion. simpl.
  unfold IndexedDB.open at 1. rewrite HD. simpl. rewrite Hn. simpl. rewrite Hname.
  unfold IndexedDB.close, IndexedDB.set_databases. simpl. rewrite alter_insert_eq. simpl.
  unfold IndexedDB.open, IndexedDB.settle. simpl. rewrite lookup_insert_eq. simpl.
  unfold IndexedDB.contains, IndexedDB.set_databases. simpl.
  rewrite insert_insert_eq, lookup_insert_eq. simpl. rewrite lookup_empty. simpl.
  unfold IndexedDB.createObjectStore, IndexedDB.set_databases. simpl.
  rewrite alter_insert_eq. simpl.
  erewrite (issue_all_spec DBname collection (obj :: objs)); simpl;
    [reflexivity|reflexivity| |apply lookup_insert_eq|].
  - unfold DynamicDB.listed. simpl. rewrite bool_decide_eq_true_2; [done|set_solver].
  - simpl. rewrite lookup_insert_eq. eauto.
Qed.

(** A load on an open connection, with insertions pending. *)
Lemma loadIndexFromDB_connected (DBname collection : string)
    (D : gmap string IndexedDB.database) (cl acc : record -> bool) (self : t)
    (v : Z) (n : nat) (l pend : list record) (rest : gmap string (list record)) :
  DynamicDB.db (db self)
  = Some {| DynamicDB.name := DBname; DynamicDB.closed := false |} ->
  loadIndexFromDB collection
    ({| IndexedDB.databases :=
          <[DBname := {| IndexedDB.version := v;
                         IndexedDB.stores := <[collection := l]> rest;
                         IndexedDB.connections := n |}]> D;
        IndexedDB.pending := request_for DBname collection <$> pend;
        IndexedDB.clones := cl;
        IndexedDB.accepts := acc |}, self)
  = (Resolved tt,
     ({| IndexedDB.databases :=
          <[DBname := {| IndexedDB.version := v;
                         IndexedDB.stores := <[collection := l ++ List.filter acc pend]> rest;
                         IndexedDB.connections := n |}]> D;
        IndexedDB.pending := [];
        IndexedDB.clones := cl;
        IndexedDB.accepts := acc |},
      set_objects (fun _ => l ++ List.filter acc pend) self)).
Proof.
  intros Hdb. destruct self as [objs ks d]. simpl in Hdb.
  unfold loadIndexFromDB, on_db, DynamicDB.dbGenerator. simpl. rewrite Hdb.
  unfold DynamicDB.transaction, IndexedDB.contains. simpl.
  rewrite lookup_insert_eq. simpl. rewrite lookup_insert_eq. simpl.
  unfold IndexedDB.settle. simpl. rewrite settle_issued. simpl.
  unfold IndexedDB.values. simpl. rewrite lookup_insert_eq. simpl. rewrite lookup_insert_eq.
  simpl. by rewrite cursor_at_once.
Qed.
End Persistence.

(** C2, as stated, fails on the code.  After an index has been saved, a
    new index that loads the collection is rejected with "Database not
    initialized" and holds no record: [loadIndexFromDB] never opens the
    store, an index opens it only in [saveIndexToDB].  And on the index
    that saved, a second save adds the records to the collection once
    more, so that the load yields them twice. *)
Lemma round_trip_claim_counterexample :
  (EmbeddingIndex.saveIndexToDB "db" "c"
     (Scenario.engine (fun _ => true),
      Scenario.index [Scenario.rec 1 1 [1; 0]%float] ["id"; "embedding"])).1
  = Resolved tt
  /\ EmbeddingIndex.loadIndexFromDB "c"
       ((EmbeddingIndex.saveIndexToDB "db" "c"
           (Scenario.engine (fun _ => true),
            Scenario.index [Scenario.rec 1 1 [1; 0]%float] ["id"; "embedding"])).2.1,
        Scenario.empty)
     = (Rejected NotInitializedError,
        ((EmbeddingIndex.saveIndexToDB "db" "c"
            (Scenario.engine (fun _ => true),
             Scenario.index [Scenario.rec 1 1 [1; 0]%float] ["id"; "embedding"])).2.1,
         Scenario.empty))
  /\ EmbeddingIndex.objects
       (EmbeddingIndex.loadIndexFromDB "c"
          (EmbeddingIndex.saveIndexToDB "db" "c"
             (EmbeddingIndex.saveIndexToDB "db" "c"
                (Scenario.engine (fun _ => true),
                 Scenario.index [Scenario.rec 1 1 [1; 0]%float] ["id"; "embedding"])).2).2).2.2
     = [Scenario.rec 1 1 [1; 0]%float; Scenario.rec 1 1 [1; 0]%float].
Proof. repeat split; vm_compute; reflexivity. Qed.

(** C2, amended.  Take an index with N > 0 records whose store
    connection has never been opened, a non-empty database name the
    engine does not know yet, and an engine that carries out the
    insertion of every record of the index.  Then [saveIndexToDB]
    resolves, and [loadIndexFromDB] on the same index and collection
    resolves and leaves the index with exactly N records, equal to the
    original ones as field-name-to-value mappings and in their original
    order, and with its schema. *)
Theorem save_then_load_same_index (DBname collection : string)
    (engine : IndexedDB.t) (self : EmbeddingIndex.t) :
  DBname <> "" ->
  IndexedDB.databases engine !! DBname = None ->
  EmbeddingIndex.db self = DynamicDB.new ->
  EmbeddingIndex.objects self <> [] ->
  Forall (fun obj => carries_out engine obj = true) (EmbeddingIndex.objects self) ->
  exists (saved loaded : EmbeddingIndex.world),
    EmbeddingIndex.saveIndexToDB DBname collection (engine, self) = (Resolved tt, saved)
    /\ EmbeddingIndex.loadIndexFromDB collection saved = (Resolved tt, loaded)
    /\ Forall2 same_fields (EmbeddingIndex.objects loaded.2) (EmbeddingIndex.objects self)
    /\ length (EmbeddingIndex.objects loaded.2) = length (EmbeddingIndex.objects self)
    /\ EmbeddingIndex.keys loaded.2 = EmbeddingIndex.keys self.
Proof.
  intros Hname Hnone Hnew Hobjs Hcarries.
  destruct (saveIndexToDB_first DBname collection engine self Hname Hnone Hnew Hobjs)
    as (D & _ & Hsave).
  eexists _, _. split; [exact Hsave|].
  split; [by apply loadIndexFromDB_connected|].
  simpl. rewrite filter_carries_out.
  (* the engine has carried out every insertion, in the order of issue *)
  assert (Hall : List.filter (carries_out engine) (EmbeddingIndex.objects self)
                 = EmbeddingIndex.objects self).
  { clear -Hcarries. induction Hcarries as [|obj objs Hobj _ IH]; simpl; [done|].
    by rewrite Hobj, IH. }
  rewrite Hall. split; [|done].
  apply Forall2_same_length_lookup_2; [done|].
  intros i a b Ha Hb. unfold same_fields. congruence.
Qed.

Lemma save_then_load_same_index_witness :
  exists (saved loaded : EmbeddingIndex.world),
    EmbeddingIndex.saveIndexToDB "db" "c"
      (Scenario.engine (fun _ => true),
       Scenario.index [Scenario.rec 1 1 [1; 0]%float; Scenario.rec 2 2 [0; 1]%float]
                     ["id"; "embedding"])
    = (Resolved tt, saved)
    /\ EmbeddingIndex.loadIndexFromDB "c" saved = (Resolved tt, loaded)
    /\ Forall2 same_fields (EmbeddingIndex.objects loaded.2)
         [Scenario.rec 1 1 [1; 0]%float; Scenario.rec 2 2 [0; 1]%float]
    /\ length (EmbeddingIndex.objects loaded.2) = 2
    /\ EmbeddingIndex.keys loaded.2 = ["id"; "embedding"].
Proof.
  apply (save_then_load_same_index "db" "c" (Scenario.engine (fun _ => true))
           (Scenario.index [Scenario.rec 1 1 [1; 0]%float; Scenario.rec 2 2 [0; 1]%float]
                          ["id"; "embedding"])).
  - discriminate.
  - reflexivity.
  - reflexivity.
  - discriminate.
  - repeat constructor.
Defined.

(** C4, as the code has it.  On an index with N > 0 records that saves
    for the first time, [saveIndexToDB] resolves at a moment when an
    insertion has been issued for every record that the engine can
    clone, all at once and in index order, and none of them has been
    carried out: the collection is still empty.  What becomes of the
    insertions does not reach the promise, which is resolved also when
    the promise of an insertion is rejected: at the call, for a record
    that the engine cannot clone, or later, when the engine fails the
    insertion. *)
Theorem saveIndexToDB_resolves_before_insertions_settle (DBname collection : string)
    (engine : IndexedDB.t) (self : EmbeddingIndex.t) :
  DBname <> "" ->
  IndexedDB.databases engine !! DBname = None ->
  EmbeddingIndex.db self = DynamicDB.new ->
  EmbeddingIndex.objects self <> [] ->
  exists saved : EmbeddingIndex.world,
    EmbeddingIndex.saveIndexToDB DBname collection (engine, self) = (Resolved tt, saved)
    /\ IndexedDB.pending saved.1
       = request_for DBname collection
           <$> List.filter (IndexedDB.clones engine) (EmbeddingIndex.objects self)
    /\ IndexedDB.values DBname collection saved.1 = []
    /\ IndexedDB.values DBname collection (IndexedDB.settle saved.1)
       = List.filter (carries_out engine) (EmbeddingIndex.objects self)
    /\ forall obj, obj ∈ EmbeddingIndex.objects self ->
         (IndexedDB.clones engine obj = false ->
          DynamicDB.addToDB collection obj (saved.1, EmbeddingIndex.db saved.2)
          = (DynamicDB.Refused DataCloneError, (saved.1, EmbeddingIndex.db saved.2)))
         /\ (IndexedDB.accepts engine obj = false ->
             DynamicDB.insertion_settles saved.1 obj = Rejected InsertError).
Proof.
  intros Hname Hnone Hnew Hobjs.
  destruct (saveIndexToDB_first DBname collection engine self Hname Hnone Hnew Hobjs)
    as (D & _ & Hsave).
  eexists. split; [exact Hsave|]. simpl. split; [done|].
  unfold IndexedDB.values. simpl. rewrite lookup_insert_eq. simpl.
  rewrite lookup_insert_eq. split; [done|]. split.
  - unfold IndexedDB.settle. simpl. rewrite settle_issued. simpl.
    rewrite lookup_insert_eq. simpl. by rewrite lookup_insert_eq, filter_carries_out.
  - intros obj _. split.
    + intros Hclone. unfold DynamicDB.addToDB, DynamicDB.listed, DynamicDB.transaction,
        IndexedDB.contains. simpl.
      rewrite bool_decide_eq_true_2 by set_solver. simpl.
      rewrite lookup_insert_eq. simpl. rewrite lookup_insert_eq. simpl.
      by rewrite Hclone.
    + intros Hrefused. unfold DynamicDB.insertion_settles. simpl. by rewrite Hrefused.
Qed.

Lemma saveIndexToDB_resolves_before_insertions_settle_witness :
  exists saved : EmbeddingIndex.world,
    EmbeddingIndex.saveIndexToDB "db" "c"
      (Scenario.engine (fun _ => false),
       Scenario.index [Scenario.rec 1 1 [1; 0]%float] ["id"; "embedding"])
    = (Resolved tt, saved)
    /\ IndexedDB.pending saved.1 = [request_for "db" "c" (Scenario.rec 1 1 [1; 0]%float)]
    /\ IndexedDB.values "db" "c" saved.1 = []
    /\ IndexedDB.values "db" "c" (IndexedDB.settle saved.1) = []
    /\ forall obj, obj ∈ [Scenario.rec 1 1 [1; 0]%float] ->
         (IndexedDB.clones (Scenario.engine (fun _ => false)) obj = false ->
          DynamicDB.addToDB "c" obj (saved.1, EmbeddingIndex.db saved.2)
          = (DynamicDB.Refused DataCloneError, (saved.1, EmbeddingIndex.db saved.2)))
         /\ (IndexedDB.accepts (Scenario.engine (fun _ => false)) obj = false ->
             DynamicDB.insertion_settles saved.1 obj = Rejected InsertError).
Proof.
  apply (saveIndexToDB_resolves_before_insertions_settle "db" "c"
           (Scenario.engine (fun _ => false))
           (Scenario.index [Scenario.rec 1 1 [1; 0]%float] ["id"; "embedding"])).
  - discriminate.
  - reflexivity.
  - reflexivity.
  - discriminate.
Defined.

(** ** The order of binary64 numbers

    [search] sorts with the comparator [b.similarity - a.similarity].
    That the sign of the difference of two numbers tells their order is
    a fact of IEEE 754 arithmetic; it is derived here from the
    specification of the primitive floats ([SpecFloat]).  A difference
    is rounded at an exponent that is not below [emin], where rounding
    never turns a non-zero mantissa into zero. *)

Section FloatOrder.
Open Scope Z_scope.

Lemma digits2_pos_bounds (m : positive) :
  2 ^ (Zpos (digits2_pos m) - 1) <= Zpos m < 2 ^ Zpos (digits2_pos m).
Proof.
  induction m as [m IH|m IH|]; simpl digits2_pos.
  - rewrite Pos2Z.inj_succ.
    replace (Z.succ (Zpos (digits2_pos m)) - 1) with (Z.succ (Zpos (digits2_pos m) - 1)) by lia.
    rewrite !Z.pow_succ_r by lia. lia.
  - rewrite Pos2Z.inj_succ.
    replace (Z.succ (Zpos (digits2_pos m)) - 1) with (Z.succ (Zpos (digits2_pos m) - 1)) by lia.
    rewrite !Z.pow_succ_r by lia. lia.
  - simpl. lia.
Qed.

Lemma shr_m_shr_1 (mrs : shr_record) :
  0 <= shr_m mrs -> shr_m (shr_1 mrs) = shr_m mrs / 2.
Proof.
  destruct mrs as [[|[m|m|]|m] r s]; cbn [shr_1 shr_m]; intros Hm; try lia.
  - reflexivity.
  - apply (Z.div_unique _ 2 _ 1); lia.
  - apply (Z.div_unique _ 2 _ 0); lia.
  - reflexivity.
Qed.

Lemma shr_m_iter_pos (p : positive) (mrs : shr_record) :
  0 <= shr_m mrs -> shr_m (SpecFloat.iter_pos shr_1 p mrs) = shr_m mrs / 2 ^ Zpos p.
Proof.
  revert mrs. induction p as [p IH|p IH|]; intros mrs Hm; simpl SpecFloat.iter_pos.
  - assert (H1 : 0 <= shr_m (shr_1 mrs)) by (rewrite shr_m_shr_1 by done; apply Z.div_pos; lia).
    assert (H2 : 0 <= shr_m (SpecFloat.iter_pos shr_1 p (shr_1 mrs)))
      by (rewrite IH by done; apply Z.div_pos; [done|apply Z.pow_pos_nonneg; lia]).
    rewrite IH, IH, shr_m_shr_1 by done.
    rewrite !Z.div_div by (try apply Z.pow_pos_nonneg; lia).
    f_equal. rewrite <- !Z.pow_add_r by lia.
    change 2 with (2 ^ 1) at 1. rewrite <- Z.pow_add_r by lia. f_equal. lia.
  - assert (H2 : 0 <= shr_m (SpecFloat.iter_pos shr_1 p mrs))
      by (rewrite IH by done; apply Z.div_pos; [done|apply Z.pow_pos_nonneg; lia]).
    rewrite IH, IH by done.
    rewrite !Z.div_div by (try apply Z.pow_pos_nonneg; lia).
    f_equal. rewrite <- Z.pow_add_r by lia. f_equal. lia.
  - rewrite shr_m_shr_1 by done. reflexivity.
Qed.

Lemma shr_m_of_loc (m : Z) (l : location) : shr_m (shr_record_of_loc m l) = m.
Proof. by destruct l as [|[]]. Qed.

(** Rounding a positive mantissa at an exponent that is not below
    [emin] leaves a positive mantissa. *)
Lemma shr_fexp_pos (m : positive) (e : Z) (l : location) :
  emin <= e ->
  0 < shr_m (shr_fexp prec emax (Zpos m) e l).1
  /\ emin <= (shr_fexp prec emax (Zpos m) e l).2.
Proof.
  intros He. unfold shr_fexp, shr, fexp. cbn [Zdigits2].
  pose proof (digits2_pos_bounds m) as [Hlow _].
  destruct (Z.max (Zpos (digits2_pos m) + e - prec) (emin) - e) as [|p|p] eqn:Hn;
    cbn [fst snd]; rewrite ?shr_m_of_loc; try (split; [done|lia]).
  split; [|lia].
  rewrite shr_m_iter_pos by (rewrite shr_m_of_loc; lia). rewrite shr_m_of_loc.
  assert (Hp : Zpos p <= Zpos (digits2_pos m) - 1) by (unfold prec in *; lia).
  assert (Hpow : 2 ^ Zpos p <= Zpos m).
  { etrans; [|exact Hlow]. apply Z.pow_le_mono_r; lia. }
  apply Z.div_str_pos. split; [apply Z.pow_pos_nonneg; lia|done].
Qed.

Lemma round_nearest_even_pos (m : Z) (l : location) :
  0 < m -> 0 < round_nearest_even m l.
Proof.
  intros Hm. destruct l as [|[]]; simpl; try done; [|lia].
  destruct (Z.even m); lia.
Qed.

Lemma binary_round_aux_sign (s : bool) (m : positive) (e : Z) (l : location) :
  emin <= e ->
  match binary_round_aux prec emax s (Zpos m) e l with
  | S754_finite s' _ _ | S754_infinity s' => s' = s
  | _ => False
  end.
Proof.
  intros He. unfold binary_round_aux.
  destruct (shr_fexp_pos m e l He) as [Hm1 He1].
  destruct (shr_fexp prec emax (Zpos m) e l) as [mrs1 e1]. cbn [fst snd] in *.
  pose proof (round_nearest_even_pos _ (loc_of_shr_record mrs1) Hm1) as Hr.
  destruct (round_nearest_even (shr_m mrs1) (loc_of_shr_record mrs1)) as [|m2|m2]; try lia.
  destruct (shr_fexp_pos m2 e1 loc_Exact He1) as [Hm2 _].
  destruct (shr_fexp prec emax (Zpos m2) e1 loc_Exact) as [mrs2 e2]. cbn [fst snd] in *.
  destruct (shr_m mrs2); try lia.
  by destruct (e2 <=? emax - prec).
Qed.

Lemma binary_round_sign (s : bool) (m : positive) (e : Z) :
  emin <= e ->
  match binary_round prec emax s m e with
  | S754_finite s' _ _ | S754_infinity s' => s' = s
  | _ => False
  end.
Proof.
  intros He. unfold binary_round, shl_align.
  destruct (fexp prec emax (Zpos (digits2_pos m) + e) - e) as [|p|p] eqn:Hn;
    apply binary_round_aux_sign; try done.
  unfold fexp in *. lia.
Qed.

Lemma iter_xO_value (m d : positive) : Zpos (Pos.iter xO m d) = Zpos m * 2 ^ Zpos d.
Proof.
  induction d as [|d IH] using Pos.peano_ind.
  - simpl. lia.
  - rewrite Pos.iter_succ, Pos2Z.inj_xO, IH, Pos2Z.inj_succ, Z.pow_succ_r by lia. lia.
Qed.

Lemma shl_align_value (m : positive) (e ez : Z) :
  ez <= e -> Zpos (shl_align m e ez).1 = Zpos m * 2 ^ (e - ez).
Proof.
  intros Hez. unfold shl_align.
  destruct (ez - e) as [|d|d] eqn:Hd; cbn [fst].
  - replace (e - ez) with 0 by lia. lia.
  - lia.
  - rewrite iter_xO_value. f_equal. f_equal. lia.
Qed.

Lemma bounded_canonical (m : positive) (e : Z) :
  bounded prec emax m e = true ->
  emin <= e /\ Zpos (digits2_pos m) <= prec /\ (emin < e -> Zpos (digits2_pos m) = prec).
Proof.
  unfold bounded, canonical_mantissa, fexp. intros Hb.
  apply andb_prop in Hb as [Hc _]. apply Z.eqb_eq in Hc. lia.
Qed.

(** Of two valid finite numbers, the one with the larger exponent has the
    larger magnitude. *)
Lemma bounded_magnitude (mx my : positive) (ex ey : Z) :
  bounded prec emax mx ex = true -> bounded prec emax my ey = true ->
  ex < ey -> Zpos mx < Zpos my * 2 ^ (ey - ex).
Proof.
  intros Hx Hy Hlt.
  apply bounded_canonical in Hx as (Hex & Hdx & _).
  apply bounded_canonical in Hy as (_ & _ & Hdy). specialize (Hdy ltac:(lia)).
  pose proof (digits2_pos_bounds mx) as [_ Hmx].
  pose proof (digits2_pos_bounds my) as [Hmy _]. rewrite Hdy in Hmy.
  assert (H1 : 2 ^ Zpos (digits2_pos mx) <= 2 ^ prec) by (apply Z.pow_le_mono_r; lia).
  assert (H2 : 2 ^ 1 <= 2 ^ (ey - ex)) by (apply Z.pow_le_mono_r; lia).
  assert (H3 : 2 ^ prec = 2 ^ (prec - 1) * 2 ^ 1) by reflexivity.
  assert (H4 : 0 < 2 ^ (prec - 1)) by reflexivity.
  nia.
Qed.

Lemma binary_normalize_pos (d e : Z) :
  emin <= e ->
  SFltb (S754_zero false) (binary_normalize prec emax d e false) = (0 <? d).
Proof.
  intros He. destruct d as [|m|m]; cbn [binary_normalize]; [done| |].
  - pose proof (binary_round_sign false m e He) as Hs.
    destruct (binary_round prec emax false m e) as [|s| |s ? ?]; try done; by subst s.
  - pose proof (binary_round_sign true m e He) as Hs.
    destruct (binary_round prec emax true m e) as [|s| |s ? ?]; try done; by subst s.
Qed.

Lemma SFltb_finite (sx sy : bool) (mx my : positive) (ex ey : Z) :
  bounded prec emax mx ex = true -> bounded prec emax my ey = true ->
  SFltb (S754_finite sx mx ex) (S754_finite sy my ey)
  = (0 <? cond_Zopp sy (Zpos my * 2 ^ (ey - Z.min ey ex))
          - cond_Zopp sx (Zpos mx * 2 ^ (ex - Z.min ey ex))).
Proof.
  intros Hx Hy. unfold SFltb, SFcompare.
  assert (Hpx : 0 < Zpos mx * 2 ^ (ex - Z.min ey ex))
    by (apply Z.mul_pos_pos; [done|apply Z.pow_pos_nonneg; lia]).
  assert (Hpy : 0 < Zpos my * 2 ^ (ey - Z.min ey ex))
    by (apply Z.mul_pos_pos; [done|apply Z.pow_pos_nonneg; lia]).
  symmetry.
  destruct sx, sy; cbn [cond_Zopp]; [| apply Z.ltb_lt; lia | apply Z.ltb_ge; lia |].
  - (* both negative *)
    destruct (Z.compare_spec ex ey) as [Heq|Hlt|Hgt].
    + subst ey. rewrite Z.min_id, Z.sub_diag, !Z.mul_1_r.
      rewrite Pos.compare_cont_spec. simpl Pos.switch_Eq.
      destruct (Pos.compare_spec mx my); cbn [CompOpp];
        [apply Z.ltb_ge|apply Z.ltb_ge|apply Z.ltb_lt]; lia.
    + pose proof (bounded_magnitude _ _ _ _ Hx Hy Hlt).
      rewrite Z.min_r, Z.sub_diag, Z.mul_1_r in * by lia. apply Z.ltb_ge. lia.
    + pose proof (bounded_magnitude _ _ _ _ Hy Hx ltac:(lia)).
      rewrite Z.min_l, Z.sub_diag, Z.mul_1_r in * by lia. apply Z.ltb_lt. lia.
  - (* both positive *)
    destruct (Z.compare_spec ex ey) as [Heq|Hlt|Hgt].
    + subst ey. rewrite Z.min_id, Z.sub_diag, !Z.mul_1_r.
      rewrite Pos.compare_cont_spec. simpl Pos.switch_Eq.
      destruct (Pos.compare_spec mx my); [apply Z.ltb_ge|apply Z.ltb_lt|apply Z.ltb_ge]; lia.
    + pose proof (bounded_magnitude _ _ _ _ Hx Hy Hlt).
      rewrite Z.min_r, Z.sub_diag, Z.mul_1_r in * by lia. apply Z.ltb_lt. lia.
    + pose proof (bounded_magnitude _ _ _ _ Hy Hx ltac:(lia)).
      rewrite Z.min_l, Z.sub_diag, Z.mul_1_r in * by lia. apply Z.ltb_ge. lia.
Qed.

(** The sign of a difference tells the order of its operands. *)
Lemma SFsub_pos (X Y : spec_float) :
  valid_binary X = true -> valid_binary Y = true ->
  X <> S754_nan -> Y <> S754_nan ->
  SFltb (S754_zero false) (SFsub prec emax Y X) = SFltb X Y.
Proof.
  intros HX HY HnX HnY.
  destruct X as [sx|sx| |sx mx ex], Y as [sy|sy| |sy my ey]; try done;
    try (by destruct sx, sy); try (by destruct sx); try (by destruct sy).
  cbn [valid_binary] in HX, HY.
  pose proof (bounded_canonical _ _ HX) as (Hex & _).
  pose proof (bounded_canonical _ _ HY) as (Hey & _).
  cbn [SFsub]. cbv zeta.
  rewrite binary_normalize_pos by lia.
  rewrite !shl_align_value by lia.
  by rewrite SFltb_finite.
Qed.
End FloatOrder.

Section FloatFacts.
Open Scope float_scope.

Lemma is_nan_Prim2SF (x : float) : is_nan x = false -> Prim2SF x <> S754_nan.
Proof.
  unfold is_nan. rewrite FloatAxioms.eqb_spec. intros Hx Hnan. by rewrite Hnan in Hx.
Qed.

Lemma sub_pos_ltb (x y : float) :
  is_nan x = false -> is_nan y = false -> (0 <? y - x) = (x <? y).
Proof.
  intros Hx Hy. rewrite !ltb_spec, sub_spec.
  change (Prim2SF 0) with (S754_zero false).
  apply SFsub_pos; auto using Prim2SF_valid, is_nan_Prim2SF.
Qed.

Lemma SFcompare_antisym (X Y : spec_float) :
  SFcompare Y X = option_map CompOpp (SFcompare X Y).
Proof.
  destruct X as [sx|sx| |sx mx ex], Y as [sy|sy| |sy my ey]; try done;
    try (by destruct sx, sy); try (by destruct sx); try (by destruct sy).
  cbn [SFcompare option_map].
  rewrite (Z.compare_antisym ex ey), !Pos.compare_cont_spec, (Pos.compare_antisym mx my).
  simpl Pos.switch_Eq.
  destruct sx, sy; try done; destruct (ex ?= ey)%Z; try done;
    by destruct (mx ?= my)%positive.
Qed.

Lemma SFcompare_total (X Y : spec_float) :
  X <> S754_nan -> Y <> S754_nan -> is_Some (SFcompare X Y).
Proof.
  destruct X as [sx|sx| |sx mx ex], Y as [sy|sy| |sy my ey]; try done; cbn [SFcompare]; eauto.
Qed.

Lemma ltb_false_leb (x y : float) :
  is_nan x = false -> is_nan y = false -> (x <? y) = false -> (y <=? x) = true.
Proof.
  intros Hx%is_nan_Prim2SF Hy%is_nan_Prim2SF.
  rewrite ltb_spec, leb_spec. unfold SFltb, SFleb. rewrite (SFcompare_antisym (Prim2SF x)).
  destruct (SFcompare_total _ _ Hx Hy) as [c ->]. by destruct c.
Qed.

Lemma ltb_leb (x y : float) : (x <? y) = true -> (x <=? y) = true.
Proof.
  rewrite ltb_spec, leb_spec. unfold SFltb, SFleb.
  by destruct (SFcompare _ _) as [[]|].
Qed.
End FloatFacts.


(** ** [search] *)

Section Ranking.
Import EmbeddingIndex.

Lemma sort_insert_perm {A} (cmp : A -> A -> float) (x : A) (l : list A) :
  JS.sort_insert cmp x l ≡ₚ x :: l.
Proof.
  induction l as [|y l IH]; simpl; [done|].
  destruct (0 <? cmp x y)%float; [|done].
  rewrite IH. apply Permutation_swap.
Qed.

Lemma sort_perm {A} (cmp : A -> A -> float) (l : list A) : JS.sort cmp l ≡ₚ l.
Proof.
  induction l as [|x l IH]; simpl; [done|].
  by rewrite sort_insert_perm, IH.
Qed.

Lemma sort_insert_non_increasing (x : SimilarityResult) (l : list SimilarityResult) :
  is_nan (similarity x) = false ->
  Forall (fun r => is_nan (similarity r) = false) l ->
  non_increasing l ->
  non_increasing (JS.sort_insert EmbeddingIndex.by_similarity x l).
Proof.
  intros Hx Hl Hsorted. unfold non_increasing in *.
  induction Hsorted as [|y l Hsorted IH Hhd]; simpl.
  - by repeat constructor.
  - apply Forall_cons in Hl as [Hy Hl]. unfold EmbeddingIndex.by_similarity at 1.
    rewrite sub_pos_ltb by done.
    destruct (similarity x <? similarity y)%float eqn:Hlt.
    + constructor; [by apply IH|].
      destruct Hhd as [|z l Hz]; simpl.
      * constructor. by apply ltb_leb.
      * unfold EmbeddingIndex.by_similarity at 1. destruct (0 <? _)%float; constructor; [done|].
        by apply ltb_leb.
    + constructor; [by constructor|]. constructor. by apply ltb_false_leb.
Qed.

Lemma sort_non_increasing (l : list SimilarityResult) :
  Forall (fun r => is_nan (similarity r) = false) l ->
  non_increasing (JS.sort EmbeddingIndex.by_similarity l).
Proof.
  induction 1 as [|x l Hx Hl IH]; simpl; [constructor|].
  apply sort_insert_non_increasing; [done| |done].
  by rewrite sort_perm.
Qed.

Lemma non_increasing_take (n : nat) (l : list SimilarityResult) :
  non_increasing l -> non_increasing (take n l).
Proof.
  unfold non_increasing. intros Hl. revert n.
  induction Hl as [|x l Hl IH Hhd]; intros [|n]; simpl; try constructor; [done|].
  destruct Hhd; destruct n; simpl; by constructor.
Qed.

Lemma slice0_take {A} (k : Z) (l : list A) :
  (0 < k)%Z -> JS.slice0 k l = take (Z.to_nat k) l.
Proof.
  intros Hk. unfold JS.slice0.
  destruct (Z.ltb_spec k 0); [lia|].
  destruct (Z.min_spec k (Z.of_nat (length l))) as [[? ->]|[? ->]]; [done|].
  rewrite Nat2Z.id, firstn_all. symmetry. apply take_ge. lia.
Qed.

Context `{Builtins}.

Lemma similarity_of_defined (q : list float) (obj : record) (vec : list float) :
  embedding_vector obj = Ok vec -> length vec = length q ->
  exists sim, similarity_of q obj = Ok sim.
Proof.
  intros Hvec Hlen. unfold similarity_of, cosineSimilarity. rewrite Hvec, Hlen, Nat.eqb_refl.
  simpl. destruct (_ || _); eauto.
Qed.

Lemma score_spec (q : list float) (objs : list record) :
  Forall (fun obj => exists sim, similarity_of q obj = Ok sim) objs ->
  exists results,
    score q objs = Ok results
    /\ object <$> results = objs
    /\ Forall (fun r => similarity_of q (object r) = Ok (similarity r)) results.
Proof.
  induction 1 as [|obj objs [sim Hsim] _ (results & Hscore & Hobjs & Hsims)]; simpl.
  - by exists [].
  - unfold similarity_of in Hsim.
    destruct (embedding_vector obj) as [vec|e] eqn:Hvec; [|done].
    rewrite Hsim, Hscore. eexists. split; [done|]. split; [by rewrite fmap_cons, Hobjs|].
    constructor; [|done]. simpl. unfold similarity_of. by rewrite Hvec.
Qed.

Lemma filter_matches_empty (l : list record) : List.filter (matches ∅) l = l.
Proof. induction l as [|obj l IH]; simpl; [done|]. by rewrite IH. Qed.
End Ranking.

Section Search.
Context `{Builtins}.
Import EmbeddingIndex.

Lemma score_ok (q : list float) (objs : list record) (results : list SimilarityResult) :
  score q objs = Ok results ->
  object <$> results = objs
  /\ Forall (fun r => similarity_of q (object r) = Ok (similarity r)) results.
Proof.
  revert results. induction objs as [|obj objs IH]; intros results; simpl.
  - by intros [= <-].
  - destruct (embedding_vector obj) as [vec|e] eqn:Hvec; [|done].
    destruct (cosineSimilarity q vec 6) as [sim|e] eqn:Hsim; [|done].
    destruct (score q objs) as [rest|e]; [|done]. intros [= <-].
    destruct (IH rest eq_refl) as [Hobjs Hsims]. split; [by rewrite fmap_cons, Hobjs|].
    constructor; [|done]. simpl. unfold similarity_of. by rewrite Hvec.
Qed.

Lemma score_throws (q : list float) (objs : list record) :
  (exists e, score q objs = Throw e)
  <-> exists obj e, obj ∈ objs /\ similarity_of q obj = Throw e.
Proof.
  induction objs as [|obj objs IH]; simpl.
  - split; [by intros [e ?]|]. intros (obj & e & Hin & _). by apply elem_of_nil in Hin.
  - unfold similarity_of in *.
    destruct (embedding_vector obj) as [vec|e] eqn:Hvec.
    + destruct (cosineSimilarity q vec 6) as [sim|e] eqn:Hsim.
      * destruct (score q objs) as [rest|e] eqn:Hrest.
        -- split; [by intros [e ?]|]. intros (obj' & e & Hin & Hthrow).
           apply elem_of_cons in Hin as [->|Hin].
           { rewrite Hvec, Hsim in Hthrow. done. }
           destruct (proj2 IH) as [e' He']; [eauto|done].
        -- split; [|eauto]. intros _.
           destruct (proj1 IH) as (obj' & e' & Hin & Hthrow); [eauto|].
           exists obj', e'. split; [by apply list_elem_of_further|done].
      * split; [|eauto]. intros _. exists obj, e. split; [by apply list_elem_of_here|].
        by rewrite Hvec, Hsim.
    + split; [|eauto]. intros _. exists obj, e. split; [by apply list_elem_of_here|].
      by rewrite Hvec.
Qed.

Lemma score_throws_elem (q : list float) (objs : list record) (e : exn) :
  score q objs = Throw e -> exists obj, obj ∈ objs /\ similarity_of q obj = Throw e.
Proof.
  induction objs as [|obj objs IH]; simpl; [done|]. unfold similarity_of in *.
  destruct (embedding_vector obj) as [vec|e'] eqn:Hvec.
  - destruct (cosineSimilarity q vec 6) as [sim|e'] eqn:Hsim.
    + destruct (score q objs) as [rest|e']; [done|]. intros [= ->].
      destruct (IH eq_refl) as (obj' & Hin & Hthrow). exists obj'.
      split; [by apply list_elem_of_further|done].
    + intros [= ->]. exists obj. split; [by apply list_elem_of_here|]. by rewrite Hvec, Hsim.
  - intros [= ->]. exists obj. split; [by apply list_elem_of_here|]. by rewrite Hvec.
Qed.

(** What [similarity_of] makes of a record that has passed the checks. *)
Lemma similarity_of_valid (q : list float) (obj : record) :
  valid_embedding obj = true ->
  exists vec, embedding_vector obj = Ok vec
    /\ if (length q =? length vec)%nat
       then exists sim, similarity_of q obj = Ok sim
       else similarity_of q obj = Throw LengthMismatchError.
Proof.
  unfold valid_embedding, similarity_of, embedding_vector, cosineSimilarity.
  destruct (JS.prop obj "embedding") as [| | | | |ref items| |]; try done. intros _.
  eexists. split; [done|].
  destruct (length q =? length (JS.ToNumber <$> items))%nat; simpl; [|done].
  destruct (_ || _); eauto.
Qed.

Lemma search_spec (q : list float) (opts : options) (s : t) :
  search q opts s =
    match score q (matching (filter opts) s) with
    | Ok similarities =>
        (Ok (JS.slice0 (match topK opts with Some 0%Z | None => 3%Z | Some k => k end)
               (JS.sort by_similarity similarities)), s)
    | Throw e => (Throw e, s)
    end.
Proof.
  unfold search. step_method. fold (matching (filter opts) s).
  by destruct (score q (matching (filter opts) s)).
Qed.

Lemma slice0_length {A} (topK : option Z) (l : list A) :
  length (JS.slice0 (match topK with Some 0%Z | None => 3%Z | Some k => k end) l)
  = sliced_length topK (length l).
Proof.
  unfold JS.slice0, sliced_length. rewrite length_take.
  destruct topK as [[|k|k]|];
    cbn -[Nat.min Z.min Z.max Z.to_nat Z.of_nat Z.add]; lia.
Qed.

Lemma slice0_sublist {A} (k : Z) (l : list A) : JS.slice0 k l `sublist_of` l.
Proof. apply sublist_take. Qed.
Lemma similarity_of_length (q : list float) (obj : record) (vec : list float) :
  embedding_vector obj = Ok vec -> length vec <> length q ->
  similarity_of q obj = Throw LengthMismatchError.
Proof.
  intros Hvec Hlen. unfold similarity_of, cosineSimilarity. rewrite Hvec.
  destruct (Nat.eqb_spec (length q) (length vec)) as [Heq|_]; [by rewrite Heq in Hlen|done].
Qed.

Lemma similarity_of_throws (q : list float) (obj : record) (vec : list float) (e : exn) :
  embedding_vector obj = Ok vec -> similarity_of q obj = Throw e ->
  e = LengthMismatchError.
Proof.
  intros Hvec. unfold similarity_of, cosineSimilarity. rewrite Hvec.
  destruct (length q =? length vec)%nat; simpl; [|by intros [= <-]].
  by destruct (_ || _).
Qed.
End Search.

(** C1, amended.  Let [k] be positive.  When the embedding of every
    record that matches the filter is an array as long as the query and
    no similarity is [NaN],
    [search(queryEmbedding, {topK: k, filter})] returns the first [k] of
    a ranking of exactly the matching records (all records when the
    filter is empty or absent), each paired with its cosine similarity
    to the query; the ranking is in non-increasing similarity order, so
    the result is, and the result has [min(k, number of matching
    records)] entries.  When the embeddings of the matching records are
    arrays and one of them has another length than the query, [search]
    throws "Vectors must have the same length".  The index is left as it
    was in both cases. *)
Theorem search_ranks_matching_records `{Builtins} (queryEmbedding : list float) (k : Z)
    (flt : option record) (s : EmbeddingIndex.t) :
  (0 < k)%Z ->
  (Forall (fun obj => exists vec, EmbeddingIndex.embedding_vector obj = Ok vec
                                  /\ length vec = length queryEmbedding) (matching flt s) ->
   Forall (fun obj => forall sim, similarity_of queryEmbedding obj = Ok sim ->
                                  is_nan sim = false) (matching flt s) ->
   exists ranked : list EmbeddingIndex.SimilarityResult,
     EmbeddingIndex.search queryEmbedding
       {| EmbeddingIndex.topK := Some k; EmbeddingIndex.filter := flt |} s
     = (Ok (take (Z.to_nat k) ranked), s)
     /\ EmbeddingIndex.object <$> ranked ≡ₚ matching flt s
     /\ Forall (fun r => similarity_of queryEmbedding (EmbeddingIndex.object r)
                         = Ok (EmbeddingIndex.similarity r)) ranked
     /\ non_increasing ranked
     /\ non_increasing (take (Z.to_nat k) ranked)
     /\ length (take (Z.to_nat k) ranked) = Z.to_nat k `min` length (matching flt s)
     /\ (default ∅ flt = ∅ -> matching flt s = EmbeddingIndex.objects s))
  /\ (Forall (fun obj => exists vec, EmbeddingIndex.embedding_vector obj = Ok vec)
             (matching flt s) ->
      Exists (fun obj => exists vec, EmbeddingIndex.embedding_vector obj = Ok vec
                                     /\ length vec <> length queryEmbedding) (matching flt s) ->
      EmbeddingIndex.search queryEmbedding
        {| EmbeddingIndex.topK := Some k; EmbeddingIndex.filter := flt |} s
      = (Throw LengthMismatchError, s)).
Proof.
  intros Hk. split.
  - intros Hlen Hnan.
    assert (Hdef : Forall (fun obj => exists sim, similarity_of queryEmbedding obj = Ok sim)
                          (matching flt s)).
    { eapply Forall_impl; [exact Hlen|]. intros obj (vec & Hvec & Hl).
      by eapply similarity_of_defined. }
    destruct (score_spec _ _ Hdef) as (results & Hscore & Hobjs & Hsims).
    exists (JS.sort EmbeddingIndex.by_similarity results).
    assert (Hperm : EmbeddingIndex.object <$> JS.sort EmbeddingIndex.by_similarity results
                    ≡ₚ matching flt s).
    { by rewrite sort_perm, Hobjs. }
    assert (Hranked : Forall (fun r => similarity_of queryEmbedding (EmbeddingIndex.object r)
                          = Ok (EmbeddingIndex.similarity r))
                        (JS.sort EmbeddingIndex.by_similarity results)).
    { by rewrite sort_perm. }
    assert (Hfinite : Forall (fun r => is_nan (EmbeddingIndex.similarity r) = false) results).
    { apply Forall_forall. intros r Hr.
      rewrite Forall_forall in Hnan. rewrite Forall_forall in Hsims.
      apply (Hnan (EmbeddingIndex.object r)); [|by apply Hsims].
      rewrite <- Hobjs. by apply list_elem_of_fmap_2. }
    assert (Hsorted : non_increasing (JS.sort EmbeddingIndex.by_similarity results))
      by (by apply sort_non_increasing).
    split.
    { unfold EmbeddingIndex.search. step_method.
      fold (matching flt s). rewrite Hscore.
      destruct k as [|k|k]; try lia. by rewrite slice0_take. }
    split; [done|]. split; [done|]. split; [done|].
    split; [by apply non_increasing_take|].
    split; [by rewrite length_take, <- Hperm, length_fmap|].
    intros Hempty. unfold matching. rewrite Hempty. apply filter_matches_empty.
  - intros Harrays Hother. rewrite search_spec. cbn [EmbeddingIndex.filter].
    destruct (EmbeddingIndex.score queryEmbedding (matching flt s))
      as [similarities|e] eqn:Hscore.
    + apply Exists_exists in Hother as (obj & Hobj & vec & Hvec & Hlen).
      destruct (proj2 (score_throws queryEmbedding (matching flt s))) as [e He];
        [|congruence].
      exists obj, LengthMismatchError. split; [done|]. by eapply similarity_of_length.
    + destruct (score_throws_elem _ _ _ Hscore) as (obj & Hobj & He).
      rewrite Forall_forall in Harrays. destruct (Harrays obj Hobj) as [vec Hvec].
      by rewrite (similarity_of_throws _ _ _ _ Hvec He).
Qed.

Lemma search_ranks_matching_records_witness :
  (@EmbeddingIndex.search Scenario.host [1; 0]%float
     {| EmbeddingIndex.topK := Some 2%Z; EmbeddingIndex.filter := None |}
     (Scenario.index [Scenario.rec 1 1 [1; 0]%float; Scenario.rec 2 2 [0; 1]%float;
                     Scenario.rec 3 3 [1; 1]%float] ["id"; "embedding"])
   = (Ok [ {| EmbeddingIndex.similarity := 1%float;
              EmbeddingIndex.object := Scenario.rec 1 1 [1; 0]%float |};
           {| EmbeddingIndex.similarity := 0.70710700000000004%float;
              EmbeddingIndex.object := Scenario.rec 3 3 [1; 1]%float |} ],
      Scenario.index [Scenario.rec 1 1 [1; 0]%float; Scenario.rec 2 2 [0; 1]%float;
                     Scenario.rec 3 3 [1; 1]%float] ["id"; "embedding"])
   /\ exists ranked : list EmbeddingIndex.SimilarityResult,
     @EmbeddingIndex.search Scenario.host [1; 0]%float
       {| EmbeddingIndex.topK := Some 2%Z; EmbeddingIndex.filter := None |}
       (Scenario.index [Scenario.rec 1 1 [1; 0]%float; Scenario.rec 2 2 [0; 1]%float;
                       Scenario.rec 3 3 [1; 1]%float] ["id"; "embedding"])
     = (Ok (take 2 ranked),
        Scenario.index [Scenario.rec 1 1 [1; 0]%float; Scenario.rec 2 2 [0; 1]%float;
                       Scenario.rec 3 3 [1; 1]%float] ["id"; "embedding"])
     /\ EmbeddingIndex.object <$> ranked
        ≡ₚ [Scenario.rec 1 1 [1; 0]%float; Scenario.rec 2 2 [0; 1]%float;
            Scenario.rec 3 3 [1; 1]%float]
     /\ Forall (fun r => @similarity_of Scenario.host [1; 0]%float (EmbeddingIndex.object r)
                         = Ok (EmbeddingIndex.similarity r)) ranked
     /\ non_increasing ranked
     /\ non_increasing (take 2 ranked)
     /\ length (take 2 ranked) = 2
     /\ (default ∅ (@None record) = ∅ ->
         matching None (Scenario.index [Scenario.rec 1 1 [1; 0]%float; Scenario.rec 2 2 [0; 1]%float;
                                       Scenario.rec 3 3 [1; 1]%float] ["id"; "embedding"])
         = [Scenario.rec 1 1 [1; 0]%float; Scenario.rec 2 2 [0; 1]%float;
            Scenario.rec 3 3 [1; 1]%float]))
  /\ @EmbeddingIndex.search Scenario.host [1; 0]%float
       {| EmbeddingIndex.topK := Some 2%Z; EmbeddingIndex.filter := Some (Scenario.by_id 2) |}
       (Scenario.index [Scenario.rec 1 1 [1; 0]%float; Scenario.rec 2 2 [0; 1; 0]%float]
                      ["id"; "embedding"])
     = (Throw LengthMismatchError,
        Scenario.index [Scenario.rec 1 1 [1; 0]%float; Scenario.rec 2 2 [0; 1; 0]%float]
                       ["id"; "embedding"]).
Proof.
  split; [split; [vm_compute; reflexivity|]|].
  - apply (@search_ranks_matching_records Scenario.host [1; 0]%float 2 None
             (Scenario.index [Scenario.rec 1 1 [1; 0]%float; Scenario.rec 2 2 [0; 1]%float;
                             Scenario.rec 3 3 [1; 1]%float] ["id"; "embedding"])).
    + reflexivity.
    + repeat constructor; eexists; split; vm_compute; reflexivity.
    + repeat constructor; intros sim Hsim; vm_compute in Hsim;
        injection Hsim as <-; reflexivity.
  - apply (@search_ranks_matching_records Scenario.host [1; 0]%float 2
             (Some (Scenario.by_id 2))
             (Scenario.index [Scenario.rec 1 1 [1; 0]%float; Scenario.rec 2 2 [0; 1; 0]%float]
                            ["id"; "embedding"])).
    + reflexivity.
    + repeat constructor. eexists. vm_compute. reflexivity.
    + apply Exists_cons_hd. eexists. split; [vm_compute; reflexivity|]. simpl. lia.
Defined.

(** C1, as stated, fails on the code.  A query whose length differs from
    that of a matching record's embedding makes [search] throw.
    [topK: 0] is taken for an absent [topK]: the result has 3 entries,
    not [min(0, 3)].  And embeddings whose squares overflow have the
    similarity [NaN], which no order of the results puts in
    non-increasing order. *)
Lemma search_claim_counterexample :
  @EmbeddingIndex.search Scenario.host [1]%float
    {| EmbeddingIndex.topK := Some 2%Z; EmbeddingIndex.filter := None |}
    (Scenario.index [Scenario.rec 1 1 [1; 0]%float] ["id"; "embedding"])
  = (Throw LengthMismatchError,
     Scenario.index [Scenario.rec 1 1 [1; 0]%float] ["id"; "embedding"])
  /\ (length (matching None
                (Scenario.index [Scenario.rec 1 1 [1; 0]%float; Scenario.rec 2 2 [0; 1]%float;
                                Scenario.rec 3 3 [1; 1]%float] ["id"; "embedding"])) = 3
      /\ exists results,
          (@EmbeddingIndex.search Scenario.host [1; 0]%float
             {| EmbeddingIndex.topK := Some 0%Z; EmbeddingIndex.filter := None |}
             (Scenario.index [Scenario.rec 1 1 [1; 0]%float; Scenario.rec 2 2 [0; 1]%float;
                             Scenario.rec 3 3 [1; 1]%float] ["id"; "embedding"])).1
          = Ok results
          /\ length results = 3)
  /\ ((@EmbeddingIndex.search Scenario.host [1e200]%float
         {| EmbeddingIndex.topK := Some 2%Z; EmbeddingIndex.filter := None |}
         (Scenario.index [Scenario.rec 1 1 [1e200]%float; Scenario.rec 2 2 [1]%float]
                        ["id"; "embedding"])).1
      = Ok [ {| EmbeddingIndex.similarity := nan;
                EmbeddingIndex.object := Scenario.rec 1 1 [1e200]%float |};
             {| EmbeddingIndex.similarity := 0%float;
                EmbeddingIndex.object := Scenario.rec 2 2 [1]%float |} ]
      /\ ~ non_increasing
            [ {| EmbeddingIndex.similarity := nan;
                 EmbeddingIndex.object := Scenario.rec 1 1 [1e200]%float |};
              {| EmbeddingIndex.similarity := 0%float;
                 EmbeddingIndex.object := Scenario.rec 2 2 [1]%float |} ]
      /\ ~ non_increasing
            [ {| EmbeddingIndex.similarity := 0%float;
                 EmbeddingIndex.object := Scenario.rec 2 2 [1]%float |};
              {| EmbeddingIndex.similarity := nan;
                 EmbeddingIndex.object := Scenario.rec 1 1 [1e200]%float |} ]).
Proof.
  split; [vm_compute; reflexivity|]. split.
  { split; [reflexivity|]. eexists. split; [vm_compute; reflexivity|reflexivity]. }
  split; [vm_compute; reflexivity|].
  split; intros Hsorted; apply Sorted_inv in Hsorted as [_ Hhd];
    apply HdRel_inv in Hhd; discriminate Hhd.
Qed.

(** * Further properties

    ** In memory *)

Ltac settle_cases :=
  unfold LengthMismatchError; repeat split; intros;
  repeat match goal with
         | H : _ /\ _ |- _ => destruct H
         | H : Throw _ = Throw _ |- _ => injection H as <-
         end;
  try done; try lia; eauto.

(** X1. [cosineSimilarity] throws in two cases only.  It throws
    "Vectors must have the same length" exactly when the lengths differ,
    and the [RangeError] of [toFixed] exactly when the lengths agree,
    neither magnitude is zero and the precision is outside 0..100. *)
Theorem cosineSimilarity_throws `{Builtins} (vecA vecB : list float) (precision : Z) :
  (cosineSimilarity vecA vecB precision = Throw LengthMismatchError
   <-> length vecA <> length vecB)
  /\ (cosineSimilarity vecA vecB precision = Throw RangeError
      <-> length vecA = length vecB
          /\ (magnitude vecA =? 0)%float = false
          /\ (magnitude vecB =? 0)%float = false
          /\ (precision < 0 \/ 100 < precision)%Z)
  /\ (forall e, cosineSimilarity vecA vecB precision = Throw e ->
                e = LengthMismatchError \/ e = RangeError).
Proof.
  unfold cosineSimilarity, JS.Number_toFixed.
  destruct (Nat.eqb_spec (length vecA) (length vecB)) as [Hlen|Hlen]; simpl;
    [|settle_cases].
  destruct (magnitude vecA =? 0)%float; simpl; [settle_cases|].
  destruct (magnitude vecB =? 0)%float; simpl; [settle_cases|].
  destruct (Z.ltb_spec precision 0) as [Hlow|Hlow]; simpl; [settle_cases|].
  destruct (Z.ltb_spec 100 precision) as [Hhigh|Hhigh]; simpl; settle_cases.
Qed.

Section Index.
Context `{Builtins}.
Import EmbeddingIndex.

Lemma forEach_validateAndAdd_keys (objs : list record) (s : t) :
  keys s <> [] -> keys (forEach validateAndAdd objs s).2 = keys s.
Proof.
  revert s. induction objs as [|obj objs IH]; intros s Hk; simpl; [done|].
  unfold bind. pose proof (run_keys (Add obj) s Hk) as Hadd. simpl in Hadd. unfold add in Hadd.
  destruct (validateAndAdd obj s) as [[[]|e] s']; simpl in *; [|done].
  rewrite IH; [done|]. by rewrite Hadd.
Qed.

Lemma Object_keys_valid (obj : record) :
  valid_embedding obj = true -> JS.Object_keys obj <> [].
Proof.
  intros Hvalid. destruct (valid_embedding_has _ Hvalid) as [v Hv].
  assert (Hin : "embedding" ∈ JS.Object_keys obj)
    by (apply elem_of_Object_keys, elem_of_dom; eauto).
  intros E. rewrite E in Hin. by apply not_elem_of_nil in Hin.
Qed.
End Index.

(** X2. The constructor does what adding the initial records one by
    one to a new index does: it yields the same index, or throws what
    the first failing [add] throws.  The assignment of [keys] at its end
    changes nothing, and without initial records, or with an empty
    list, it yields the empty index. *)
Theorem constructor_adds_in_order `{Builtins} (initialObjects : list record) :
  EmbeddingIndex.constructor None = Ok new_index
  /\ EmbeddingIndex.constructor (Some initialObjects)
     = match forEach EmbeddingIndex.add initialObjects new_index with
       | (Ok _, s) => Ok s
       | (Throw e, _) => Throw e
       end.
Proof.
  split; [done|]. destruct initialObjects as [|first rest]; [done|].
  unfold EmbeddingIndex.constructor. fold new_index.
  change (forEach EmbeddingIndex.add) with (forEach EmbeddingIndex.validateAndAdd).
  cbn [forEach]. unfold bind.
  rewrite validateAndAdd_spec.
  destruct (valid_embedding first) eqn:Hfirst; simpl; [|done].
  pose proof (forEach_validateAndAdd_keys rest
    {| EmbeddingIndex.objects := [first]; EmbeddingIndex.keys := JS.Object_keys first;
       EmbeddingIndex.db := DynamicDB.new |} (Object_keys_valid _ Hfirst)) as Hkeys.
  destruct (forEach _ rest _) as [[[]|e] s']; [|done]. simpl in Hkeys.
  destruct s' as [objs ks d]. simpl in *. by subst ks.
Qed.

Section WellFormed.
Context `{Builtins}.
Import EmbeddingIndex.

Lemma has_schema_own_keys (obj : record) : has_schema (JS.Object_keys obj) obj = true.
Proof. apply has_schema_dom. intros key Hkey. left. by apply elem_of_Object_keys. Qed.

Lemma remove_first_sublist {A} (p : A -> bool) (l : list A) : remove_first p l `sublist_of` l.
Proof.
  induction l as [|x l IH]; simpl; [done|].
  destruct (p x); [by apply sublist_cons|by apply sublist_skip].
Qed.

Lemma foldl_remove_first_sublist {A B} (p : B -> A -> bool) (fs : list B) (l : list A) :
  foldl (fun l f => remove_first (p f) l) l fs `sublist_of` l.
Proof.
  revert l. induction fs as [|f fs IH]; intros l; simpl; [done|].
  etrans; [apply IH|apply remove_first_sublist].
Qed.

Lemma well_formed_new : well_formed new_index.
Proof. split; [by intros _|constructor]. Qed.

Lemma well_formed_sublist (s : t) (l : list record) :
  well_formed s -> l `sublist_of` objects s -> well_formed (set_objects (fun _ => l) s).
Proof.
  intros [Hempty Hall] Hsub. split; simpl.
  - intros Hk. rewrite (Hempty Hk) in Hsub. by apply sublist_nil_r in Hsub.
  - rewrite Forall_forall in Hall. apply Forall_forall. intros obj Hobj.
    apply Hall. by eapply elem_of_sublist.
Qed.

Lemma validateAndAdd_well_formed (obj : record) (s : t) :
  well_formed s -> well_formed (validateAndAdd obj s).2.
Proof.
  intros Hs. pose proof Hs as [Hempty Hall]. rewrite validateAndAdd_spec.
  destruct (valid_embedding obj) eqn:Hvalid; simpl; [|done].
  destruct (length (keys s) =? 0)%nat eqn:Hlen; simpl.
  - assert (Hk : keys s = []) by (destruct (keys s); [done|discriminate]).
    rewrite (Hempty Hk). split; simpl.
    + intros Hk'. by apply Object_keys_valid in Hvalid.
    + repeat constructor; [done|apply has_schema_own_keys].
  - destruct (has_schema (keys s) obj) eqn:Hhas; simpl; [|done].
    split; simpl.
    + intros Hk. by rewrite Hk in Hlen.
    + apply Forall_app. split; [done|]. by repeat constructor.
Qed.

Lemma run_well_formed (c : mutation) (s : t) : well_formed s -> well_formed (run c s).2.
Proof.
  intros Hs. destruct c as [obj|filter vector|filter|filters]; simpl.
  - by apply validateAndAdd_well_formed.
  - rewrite update_spec. destruct (existsb (matches filter) (objects s)) eqn:Hmatch; simpl; [|done].
    pose proof (validateAndAdd_well_formed vector s Hs) as [Hempty Hall].
    pose proof (validateAndAdd_objects vector s) as Hobjs.
    destruct (validateAndAdd vector s) as [[[]|e] s']; simpl in *; [|by split].
    specialize (Hobjs eq_refl). split; simpl.
    + intros Hk. rewrite (Hempty Hk) in Hobjs. apply (f_equal length) in Hobjs.
      rewrite length_app in Hobjs. simpl in Hobjs. lia.
    + apply Forall_insert; [done|]. rewrite Hobjs in Hall.
      apply Forall_app in Hall as [_ Hlast]. rewrite Forall_singleton in Hlast. exact Hlast.
  - rewrite remove_spec. destruct (existsb (matches filter) (objects s)); simpl; [|done].
    apply (well_formed_sublist s); [done|apply remove_first_sublist].
  - rewrite removeBatch_spec. simpl.
    apply (well_formed_sublist s); [done|].
    apply (foldl_remove_first_sublist matches).
Qed.

Lemma run_all_well_formed (cs : list mutation) (s : t) :
  well_formed s -> well_formed (run_all cs s).
Proof.
  revert s. induction cs as [|c cs IH]; intros s Hs; simpl; [done|].
  by apply IH, run_well_formed.
Qed.

Lemma forEach_validateAndAdd_well_formed (objs : list record) (s : t) :
  well_formed s -> well_formed (forEach validateAndAdd objs s).2.
Proof.
  revert s. induction objs as [|obj objs IH]; intros s Hs; simpl; [done|].
  unfold bind. pose proof (validateAndAdd_well_formed obj s Hs) as Hs'.
  destruct (validateAndAdd obj s) as [[[]|e] s']; simpl in *; [by apply IH|done].
Qed.

Lemma constructor_well_formed (initialObjects : option (list record)) (s0 : t) :
  constructor initialObjects = Ok s0 -> well_formed s0.
Proof.
  destruct initialObjects as [[|first rest]|]; simpl;
    try (intros [= <-]; apply well_formed_new).
  pose proof (forEach_validateAndAdd_well_formed (first :: rest) new_index well_formed_new)
    as Hwf.
  change (forEach validateAndAdd (first :: rest) new_index)
    with (bind (validateAndAdd first) (fun _ => forEach validateAndAdd rest) new_index) in *.
  unfold bind in *. rewrite validateAndAdd_spec in *.
  destruct (valid_embedding first) eqn:Hfirst; simpl in *; [|done].
  pose proof (forEach_validateAndAdd_keys rest
    {| objects := [first]; keys := JS.Object_keys first; db := DynamicDB.new |}
    (Object_keys_valid _ Hfirst)) as Hkeys.
  destruct (forEach _ rest _) as [[[]|e] s']; [|done]. simpl in Hkeys.
  intros [= <-]. destruct s' as [objs ks d]. simpl in *. by subst ks.
Qed.
End WellFormed.

(** X3. Whatever calls of [add], [update], [remove] and [removeBatch]
    follow the constructor, failed ones included, every record of the
    index has an array without [NaN] entry as its embedding, [key in
    record] holds of it for every name [key] of the schema (the name of
    a field of the record, or of a member it inherits), and an index
    without a schema holds no record. *)
Theorem index_stays_well_formed `{Builtins} (initialObjects : option (list record))
    (s0 : EmbeddingIndex.t) (calls : list mutation) :
  EmbeddingIndex.constructor initialObjects = Ok s0 ->
  Forall (fun obj => JS.Array_isArray (JS.prop obj "embedding") = true
                     /\ EmbeddingIndex.embedding_some_isNaN (JS.prop obj "embedding") = false
                     /\ forall key, key ∈ EmbeddingIndex.keys (run_all calls s0) ->
                                     JS.has key obj = true)
         (EmbeddingIndex.objects (run_all calls s0))
  /\ (EmbeddingIndex.keys (run_all calls s0) = [] ->
      EmbeddingIndex.objects (run_all calls s0) = []).
Proof.
  intros Hnew%constructor_well_formed.
  destruct (run_all_well_formed calls s0 Hnew) as [Hempty Hall].
  split; [|done].
  eapply Forall_impl; [exact Hall|]. intros obj [Hvalid Hschema].
  apply andb_prop in Hvalid as [Harray Hnan]. apply negb_true_iff in Hnan.
  split; [done|]. split; [done|].
  intros key Hkey. rewrite has_schema_dom in Hschema. by apply has_dom, Hschema.
Qed.

Lemma index_stays_well_formed_witness :
  @EmbeddingIndex.constructor Scenario.host (Some [Scenario.rec 1 1 [1; 0]%float])
  = Ok (Scenario.index [Scenario.rec 1 1 [1; 0]%float] ["embedding"; "id"])
  /\ Forall (fun obj =>
       JS.Array_isArray (JS.prop obj "embedding") = true
       /\ @EmbeddingIndex.embedding_some_isNaN Scenario.host (JS.prop obj "embedding") = false
       /\ forall key,
            key ∈ EmbeddingIndex.keys
                    (@run_all Scenario.host
                       [Add (Scenario.rec 2 2 [0; 1]%float); Remove (Scenario.by_id 1)]
                       (Scenario.index [Scenario.rec 1 1 [1; 0]%float] ["embedding"; "id"])) ->
            JS.has key obj = true)
       (EmbeddingIndex.objects
          (@run_all Scenario.host
             [Add (Scenario.rec 2 2 [0; 1]%float); Remove (Scenario.by_id 1)]
             (Scenario.index [Scenario.rec 1 1 [1; 0]%float] ["embedding"; "id"]))).
Proof.
  assert (Hnew : @EmbeddingIndex.constructor Scenario.host (Some [Scenario.rec 1 1 [1; 0]%float])
                 = Ok (Scenario.index [Scenario.rec 1 1 [1; 0]%float] ["embedding"; "id"]))
    by (vm_compute; reflexivity).
  split; [exact Hnew|].
  exact (proj1 (@index_stays_well_formed Scenario.host _ _
                  [Add (Scenario.rec 2 2 [0; 1]%float); Remove (Scenario.by_id 1)] Hnew)).
Defined.

(** X4. On an index built by the constructor and any calls, [search]
    throws exactly when some record that matches the filter has an
    embedding whose length differs from the query's; what it throws is
    "Vectors must have the same length", and the index is unchanged. *)
Theorem search_throws_on_length_only `{Builtins} (initialObjects : option (list record))
    (s0 : EmbeddingIndex.t) (calls : list mutation) (queryEmbedding : list float)
    (opts : EmbeddingIndex.options) :
  EmbeddingIndex.constructor initialObjects = Ok s0 ->
  ((exists e, (EmbeddingIndex.search queryEmbedding opts (run_all calls s0)).1 = Throw e)
   <-> exists obj vec,
         obj ∈ matching (EmbeddingIndex.filter opts) (run_all calls s0)
         /\ EmbeddingIndex.embedding_vector obj = Ok vec
         /\ length vec <> length queryEmbedding)
  /\ (forall e, (EmbeddingIndex.search queryEmbedding opts (run_all calls s0)).1 = Throw e ->
                e = LengthMismatchError)
  /\ (EmbeddingIndex.search queryEmbedding opts (run_all calls s0)).2 = run_all calls s0.
Proof.
  intros Hnew%constructor_well_formed.
  destruct (run_all_well_formed calls s0 Hnew) as [_ Hall].
  set (s := run_all calls s0) in *.
  assert (Hvalid : forall obj, obj ∈ matching (EmbeddingIndex.filter opts) s ->
                               valid_embedding obj = true).
  { intros obj Hobj. unfold matching in Hobj.
    apply list_elem_of_In, filter_In in Hobj as [Hobj _]. apply list_elem_of_In in Hobj.
    rewrite Forall_forall in Hall. by apply Hall. }
  assert (Hthrow : forall obj e, obj ∈ matching (EmbeddingIndex.filter opts) s ->
             similarity_of queryEmbedding obj = Throw e ->
             e = LengthMismatchError
             /\ exists vec, EmbeddingIndex.embedding_vector obj = Ok vec
                            /\ length vec <> length queryEmbedding).
  { intros obj e Hobj He.
    destruct (similarity_of_valid queryEmbedding obj (Hvalid obj Hobj)) as (vec & Hvec & Hsim).
    destruct (Nat.eqb_spec (length queryEmbedding) (length vec)) as [Hlen|Hlen].
    - destruct Hsim as [sim Hsim]. congruence.
    - split; [congruence|]. exists vec. split; [done|]. congruence. }
  rewrite search_spec.
  destruct (EmbeddingIndex.score queryEmbedding (matching (EmbeddingIndex.filter opts) s))
    as [similarities|e] eqn:Hscore; simpl.
  - split; [|done]. split; [by intros [e ?]|].
    intros (obj & vec & Hobj & Hvec & Hlen).
    destruct (similarity_of_valid queryEmbedding obj (Hvalid obj Hobj)) as (vec' & Hvec' & Hsim).
    assert (vec' = vec) as -> by congruence.
    destruct (Nat.eqb_spec (length queryEmbedding) (length vec)) as [Heq|_]; [congruence|].
    destruct (proj2 (score_throws queryEmbedding
                       (matching (EmbeddingIndex.filter opts) s))) as [e He]; [eauto|].
    congruence.
  - destruct (score_throws_elem _ _ _ Hscore) as (obj & Hobj & He).
    destruct (Hthrow obj e Hobj He) as (-> & vec & Hvec & Hlen).
    split; [|split; [by intros e [= <-]|done]].
    split; [eauto|]. intros _. eauto.
Qed.

Lemma search_throws_on_length_only_witness :
  @EmbeddingIndex.constructor Scenario.host (Some [Scenario.rec 1 1 [1; 0]%float])
  = Ok (Scenario.index [Scenario.rec 1 1 [1; 0]%float] ["embedding"; "id"])
  /\ forall e,
       (@EmbeddingIndex.search Scenario.host [1; 0]%float
          {| EmbeddingIndex.topK := None; EmbeddingIndex.filter := None |}
          (@run_all Scenario.host [Add (Scenario.rec 2 2 [0; 1; 0]%float)]
             (Scenario.index [Scenario.rec 1 1 [1; 0]%float] ["embedding"; "id"]))).1
       = Throw e ->
       e = LengthMismatchError.
Proof.
  assert (Hnew : @EmbeddingIndex.constructor Scenario.host (Some [Scenario.rec 1 1 [1; 0]%float])
                 = Ok (Scenario.index [Scenario.rec 1 1 [1; 0]%float] ["embedding"; "id"]))
    by (vm_compute; reflexivity).
  split; [exact Hnew|].
  exact (proj1 (proj2 (@search_throws_on_length_only Scenario.host _ _
                         [Add (Scenario.rec 2 2 [0; 1; 0]%float)] [1; 0]%float
                         {| EmbeddingIndex.topK := None; EmbeddingIndex.filter := None |}
                         Hnew))).
Defined.

(** X5. A search that returns has as many results as
    [slice(0, topK)] leaves of the matching records: [min(topK, n)] for
    a positive [topK], [min(3, n)] for an absent one and for [0], and
    [max(n + topK, 0)] for a negative one. *)
Theorem search_result_length `{Builtins} (queryEmbedding : list float)
    (opts : EmbeddingIndex.options) (s : EmbeddingIndex.t)
    (results : list EmbeddingIndex.SimilarityResult) :
  (EmbeddingIndex.search queryEmbedding opts s).1 = Ok results ->
  length results
  = sliced_length (EmbeddingIndex.topK opts)
                  (length (matching (EmbeddingIndex.filter opts) s)).
Proof.
  rewrite search_spec.
  destruct (EmbeddingIndex.score queryEmbedding (matching (EmbeddingIndex.filter opts) s))
    as [similarities|e] eqn:Hscore; simpl; [|done].
  intros [= <-]. rewrite slice0_length.
  apply score_ok in Hscore as [Hobjs _].
  by rewrite sort_perm, <- Hobjs, length_fmap.
Qed.

Lemma search_result_length_witness :
  exists results,
    (@EmbeddingIndex.search Scenario.host [1; 0]%float
       {| EmbeddingIndex.topK := Some 1%Z; EmbeddingIndex.filter := None |}
       (Scenario.index [Scenario.rec 1 1 [0; 1]%float; Scenario.rec 2 2 [1; 0]%float]
                       ["embedding"; "id"])).1
    = Ok results
    /\ length results = 1.
Proof.
  eexists. split; [vm_compute; reflexivity|].
  apply (@search_result_length Scenario.host [1; 0]%float
           {| EmbeddingIndex.topK := Some 1%Z; EmbeddingIndex.filter := None |}
           (Scenario.index [Scenario.rec 1 1 [0; 1]%float; Scenario.rec 2 2 [1; 0]%float]
                           ["embedding"; "id"])).
  vm_compute; reflexivity.
Defined.

(** X6. The results of a search are stored records: each result is a
    record of the index that matches the filter, with the cosine
    similarity of the query and its embedding; no record is returned
    more often than it is stored; the index is unchanged. *)
Theorem search_returns_stored_matches `{Builtins} (queryEmbedding : list float)
    (opts : EmbeddingIndex.options) (s : EmbeddingIndex.t)
    (results : list EmbeddingIndex.SimilarityResult) :
  (EmbeddingIndex.search queryEmbedding opts s).1 = Ok results ->
  EmbeddingIndex.object <$> results ⊆+ matching (EmbeddingIndex.filter opts) s
  /\ Forall (fun r => EmbeddingIndex.object r ∈ EmbeddingIndex.objects s
                      /\ EmbeddingIndex.matches (default ∅ (EmbeddingIndex.filter opts))
                           (EmbeddingIndex.object r) = true
                      /\ similarity_of queryEmbedding (EmbeddingIndex.object r)
                         = Ok (EmbeddingIndex.similarity r)) results
  /\ (EmbeddingIndex.search queryEmbedding opts s).2 = s.
Proof.
  rewrite search_spec.
  destruct (EmbeddingIndex.score queryEmbedding (matching (EmbeddingIndex.filter opts) s))
    as [similarities|e] eqn:Hscore; simpl; [|done].
  intros [= <-]. apply score_ok in Hscore as [Hobjs Hsims].
  assert (Hsub : JS.slice0 (match EmbeddingIndex.topK opts with
                            | Some 0%Z | None => 3%Z
                            | Some k => k
                            end) (JS.sort EmbeddingIndex.by_similarity similarities)
                 ⊆+ similarities).
  { etrans; [apply sublist_submseteq, slice0_sublist|]. by rewrite sort_perm. }
  split; [by rewrite <- Hobjs; apply fmap_submseteq|]. split; [|done].
  apply Forall_forall. intros r Hr.
  assert (Hin : r ∈ similarities) by (by eapply elem_of_submseteq).
  assert (Hobj : EmbeddingIndex.object r ∈ matching (EmbeddingIndex.filter opts) s)
    by (rewrite <- Hobjs; by apply list_elem_of_fmap_2).
  unfold matching in Hobj. apply list_elem_of_In, filter_In in Hobj as [Hobj Hmatch].
  apply list_elem_of_In in Hobj. rewrite Forall_forall in Hsims. eauto.
Qed.

Lemma search_returns_stored_matches_witness :
  exists results,
    (@EmbeddingIndex.search Scenario.host [1; 0]%float
       {| EmbeddingIndex.topK := Some 1%Z;
          EmbeddingIndex.filter := Some (Scenario.by_id 1) |}
       (Scenario.index [Scenario.rec 1 1 [0; 1]%float; Scenario.rec 2 2 [1; 0]%float]
                       ["embedding"; "id"])).1
    = Ok results
    /\ EmbeddingIndex.object <$> results
       ⊆+ matching (Some (Scenario.by_id 1))
            (Scenario.index [Scenario.rec 1 1 [0; 1]%float; Scenario.rec 2 2 [1; 0]%float]
                            ["embedding"; "id"]).
Proof.
  eexists. split; [vm_compute; reflexivity|].
  apply (@search_returns_stored_matches Scenario.host [1; 0]%float
           {| EmbeddingIndex.topK := Some 1%Z;
              EmbeddingIndex.filter := Some (Scenario.by_id 1) |}
           (Scenario.index [Scenario.rec 1 1 [0; 1]%float; Scenario.rec 2 2 [1; 0]%float]
                           ["embedding"; "id"])).
  vm_compute; reflexivity.
Defined.

Section FirstMatch.
Context {A : Type} (p : A -> bool).

Lemma find_head_filter (l : list A) : find p l = head (List.filter p l).
Proof. induction l as [|x l IH]; simpl; [done|]. by destruct (p x). Qed.

Lemma filter_remove_first (l : list A) :
  List.filter p (remove_first p l) = tail (List.filter p l).
Proof.
  induction l as [|x l IH]; simpl; [done|].
  destruct (p x) eqn:Hx; simpl; [done|]. by rewrite Hx.
Qed.

Lemma find_split (l : list A) (x : A) :
  find p l = Some x ->
  exists l1 l2, l = l1 ++ x :: l2 /\ Forall (fun y => p y = false) l1 /\ p x = true
                /\ remove_first p l = l1 ++ l2
                /\ JS.findIndex p l = Z.of_nat (length l1).
Proof.
  induction l as [|y l IH]; simpl; [done|].
  destruct (p y) eqn:Hy.
  - intros [= ->]. by exists [], l.
  - intros Hfind. destruct (IH Hfind) as (l1 & l2 & -> & Hl1 & Hx & Hrem & Hidx).
    exists (y :: l1), l2. rewrite Hrem, Hidx. simpl.
    repeat split; [by constructor|done|].
    destruct (Z.eqb_spec (Z.of_nat (length l1)) (-1)); lia.
Qed.

Lemma find_none_existsb (l : list A) : find p l = None <-> existsb p l = false.
Proof. induction l as [|y l IH]; simpl; [done|]. by destruct (p y). Qed.
End FirstMatch.

(** X7. [get], [remove] and [update] designate the same record, the
    first that matches the filter.  When [get] returns [r], the records
    before [r] do not match, [remove] deletes [r] and nothing else, and
    a successful [update] puts the new record in the place of [r] and
    once more at the end.  When [get] returns [null], no record
    matches, and [remove] and [update] throw "Vector not found".  [get]
    never throws. *)
Theorem filter_designates_first_match `{Builtins} (filter vector : record)
    (s : EmbeddingIndex.t) :
  match (EmbeddingIndex.get filter s).1 with
  | Ok (Some r) =>
      exists before after,
        EmbeddingIndex.objects s = before ++ r :: after
        /\ Forall (fun obj => EmbeddingIndex.matches filter obj = false) before
        /\ EmbeddingIndex.matches filter r = true
        /\ EmbeddingIndex.remove filter s
           = (Ok tt, EmbeddingIndex.set_objects (fun _ => before ++ after) s)
        /\ ((EmbeddingIndex.update filter vector s).1 = Ok tt ->
            EmbeddingIndex.objects (EmbeddingIndex.update filter vector s).2
            = before ++ vector :: after ++ [vector])
  | Ok None =>
      Forall (fun obj => EmbeddingIndex.matches filter obj = false) (EmbeddingIndex.objects s)
      /\ EmbeddingIndex.remove filter s = (Throw NotFoundError, s)
      /\ EmbeddingIndex.update filter vector s = (Throw NotFoundError, s)
  | Throw _ => False
  end.
Proof.
  unfold EmbeddingIndex.get. step_method.
  destruct (find (EmbeddingIndex.matches filter) (EmbeddingIndex.objects s)) as [r|] eqn:Hfind.
  - destruct (find_split _ _ _ Hfind) as (l1 & l2 & Hobjs & Hl1 & Hr & Hrem & Hidx).
    assert (Hex : existsb (EmbeddingIndex.matches filter) (EmbeddingIndex.objects s) = true).
    { apply not_false_iff_true. intros Hno%find_none_existsb. congruence. }
    exists l1, l2. split; [done|]. split; [done|]. split; [done|]. split.
    + rewrite remove_spec, Hex. unfold EmbeddingIndex.set_objects. by rewrite Hrem.
    + rewrite update_spec, Hex. simpl. intros Hok.
      pose proof (validateAndAdd_objects vector s) as Hadd.
      destruct (EmbeddingIndex.validateAndAdd vector s) as [[[]|e] s']; [|done].
      simpl in *. rewrite (Hadd eq_refl), Hidx, Nat2Z.id, Hobjs.
      rewrite <- app_assoc. simpl.
      rewrite insert_app_r_alt by lia. by rewrite Nat.sub_diag.
  - apply find_none_existsb in Hfind as Hno. split.
    + apply Forall_forall. intros obj Hobj. apply not_true_iff_false. intros Hm.
      assert (existsb (EmbeddingIndex.matches filter) (EmbeddingIndex.objects s) = true)
        by (apply existsb_exists; exists obj; by rewrite <- list_elem_of_In).
      congruence.
    + by rewrite remove_spec, update_spec, Hno.
Qed.

(** X8. [get] returns the first of the matching records, and after
    [remove] with the same filter the second of them, [null] when there
    is none; this holds also when [remove] has thrown. *)
Theorem remove_then_get (filter : record) (s : EmbeddingIndex.t) :
  EmbeddingIndex.get filter (EmbeddingIndex.remove filter s).2
  = (Ok (tail (matching (Some filter) s) !! 0), (EmbeddingIndex.remove filter s).2)
  /\ EmbeddingIndex.get filter s = (Ok (matching (Some filter) s !! 0), s).
Proof.
  unfold EmbeddingIndex.get, matching. step_method.
  rewrite !find_head_filter, !head_lookup. split; [|done].
  rewrite remove_spec.
  destruct (existsb (EmbeddingIndex.matches filter) (EmbeddingIndex.objects s)) eqn:Hex; simpl.
  - by rewrite filter_remove_first.
  - apply find_none_existsb in Hex. rewrite find_head_filter in Hex.
    by destruct (List.filter _ _).
Qed.

(** X9. After a successful [add], [get] returns what it returned
    before when that was a record, and otherwise the added record if it
    matches the filter, [null] if not. *)
Theorem add_then_get `{Builtins} (obj filter : record) (s : EmbeddingIndex.t) :
  (EmbeddingIndex.add obj s).1 = Ok tt ->
  (EmbeddingIndex.get filter (EmbeddingIndex.add obj s).2).1
  = Ok (match (EmbeddingIndex.get filter s).1 with
        | Ok (Some earlier) => Some earlier
        | _ => if EmbeddingIndex.matches filter obj then Some obj else None
        end).
Proof.
  intros Hadd. pose proof (validateAndAdd_objects obj s Hadd) as Hobjs.
  unfold EmbeddingIndex.get. step_method. unfold EmbeddingIndex.add in *. rewrite Hobjs.
  rewrite !find_head_filter, List.filter_app. simpl.
  destruct (List.filter (EmbeddingIndex.matches filter) (EmbeddingIndex.objects s)); simpl;
    [|done].
  by destruct (EmbeddingIndex.matches filter obj).
Qed.

Lemma add_then_get_witness :
  (EmbeddingIndex.get (Scenario.by_id 2)
     (@EmbeddingIndex.add Scenario.host (Scenario.rec 2 2 [0; 1]%float)
        (Scenario.index [Scenario.rec 1 1 [1; 0]%float] ["embedding"; "id"])).2).1
  = Ok (Some (Scenario.rec 2 2 [0; 1]%float)).
Proof.
  apply (@add_then_get Scenario.host (Scenario.rec 2 2 [0; 1]%float) (Scenario.by_id 2)
           (Scenario.index [Scenario.rec 1 1 [1; 0]%float] ["embedding"; "id"])).
  vm_compute; reflexivity.
Defined.

Lemma update_objects `{Builtins} (filter vector : record) (s : EmbeddingIndex.t) :
  (EmbeddingIndex.update filter vector s).1 = Ok tt ->
  exists before r after,
    EmbeddingIndex.objects s = before ++ r :: after
    /\ Forall (fun obj => EmbeddingIndex.matches filter obj = false) before
    /\ EmbeddingIndex.matches filter r = true
    /\ EmbeddingIndex.objects (EmbeddingIndex.update filter vector s).2
       = before ++ vector :: after ++ [vector].
Proof.
  rewrite update_spec.
  destruct (existsb (EmbeddingIndex.matches filter) (EmbeddingIndex.objects s)) eqn:Hex;
    simpl; [|done].
  destruct (find (EmbeddingIndex.matches filter) (EmbeddingIndex.objects s)) as [r|] eqn:Hfind;
    [|apply find_none_existsb in Hfind; congruence].
  destruct (find_split _ _ _ Hfind) as (l1 & l2 & Hobjs & Hl1 & Hr & Hrem & Hidx).
  pose proof (validateAndAdd_objects vector s) as Hadd.
  destruct (EmbeddingIndex.validateAndAdd vector s) as [[[]|e] s']; [|done].
  intros _. exists l1, r, l2. split; [done|]. split; [done|]. split; [done|].
  simpl in *. rewrite (Hadd eq_refl), Hidx, Nat2Z.id, Hobjs.
  rewrite <- app_assoc. simpl.
  rewrite insert_app_r_alt by lia. by rewrite Nat.sub_diag.
Qed.

Lemma filter_no_match {A} (p : A -> bool) (l : list A) :
  Forall (fun y => p y = false) l -> List.filter p l = [].
Proof. induction 1 as [|y l Hy _ IH]; simpl; [done|]. by rewrite Hy. Qed.

(** X10. After a successful [update] with a new record that matches
    the filter itself, [get] with this filter returns the new record,
    and one record more than before matches the filter. *)
Theorem update_then_get `{Builtins} (filter vector : record) (s : EmbeddingIndex.t) :
  (EmbeddingIndex.update filter vector s).1 = Ok tt ->
  EmbeddingIndex.matches filter vector = true ->
  (EmbeddingIndex.get filter (EmbeddingIndex.update filter vector s).2).1 = Ok (Some vector)
  /\ length (matching (Some filter) (EmbeddingIndex.update filter vector s).2)
     = S (length (matching (Some filter) s)).
Proof.
  intros Hupdate Hmatch.
  destruct (update_objects filter vector s Hupdate)
    as (l1 & r & l2 & Hobjs & Hl1 & Hr & Hnew).
  unfold matching, EmbeddingIndex.get. step_method. simpl.
  rewrite Hnew, Hobjs, find_head_filter, !List.filter_app. simpl.
  rewrite Hmatch, Hr, List.filter_app, (filter_no_match _ _ Hl1). simpl.
  rewrite Hmatch. split; [done|]. rewrite !length_app. simpl. lia.
Qed.

Lemma update_then_get_witness :
  (EmbeddingIndex.get (Scenario.by_id 1)
     (@EmbeddingIndex.update Scenario.host (Scenario.by_id 1) (Scenario.rec 1 2 [0; 1]%float)
        (Scenario.index [Scenario.rec 1 1 [1; 0]%float] ["embedding"; "id"])).2).1
  = Ok (Some (Scenario.rec 1 2 [0; 1]%float))
  /\ length (matching (Some (Scenario.by_id 1))
       (@EmbeddingIndex.update Scenario.host (Scenario.by_id 1) (Scenario.rec 1 2 [0; 1]%float)
          (Scenario.index [Scenario.rec 1 1 [1; 0]%float] ["embedding"; "id"])).2)
     = 2.
Proof.
  apply (@update_then_get Scenario.host (Scenario.by_id 1) (Scenario.rec 1 2 [0; 1]%float)
           (Scenario.index [Scenario.rec 1 1 [1; 0]%float] ["embedding"; "id"]));
    vm_compute; reflexivity.
Defined.

Section Batch.
Context `{Builtins}.
Import EmbeddingIndex.

Lemma remove_first_length {A} (p : A -> bool) (l : list A) :
  length l <= S (length (remove_first p l)).
Proof. induction l as [|x l IH]; simpl; [lia|]. destruct (p x); simpl; lia. Qed.

Lemma foldl_remove_first_length {A B} (p : B -> A -> bool) (fs : list B) (l : list A) :
  length l <= length fs + length (foldl (fun l f => remove_first (p f) l) l fs).
Proof.
  revert l. induction fs as [|f fs IH]; intros l; simpl; [lia|].
  pose proof (IH (remove_first (p f) l)). pose proof (remove_first_length (p f) l). lia.
Qed.
End Batch.

(** X11. [removeBatch] keeps the remaining records in their order,
    deletes at most one record per filter, leaves the schema and the
    connection alone, and a batch in two parts does what the whole batch
    does. *)
Theorem removeBatch_keeps_order `{Builtins} (filters more : list record)
    (s : EmbeddingIndex.t) :
  EmbeddingIndex.objects (EmbeddingIndex.removeBatch filters s).2
    `sublist_of` EmbeddingIndex.objects s
  /\ length (EmbeddingIndex.objects s)
     <= length filters + length (EmbeddingIndex.objects (EmbeddingIndex.removeBatch filters s).2)
  /\ EmbeddingIndex.keys (EmbeddingIndex.removeBatch filters s).2 = EmbeddingIndex.keys s
  /\ EmbeddingIndex.db (EmbeddingIndex.removeBatch filters s).2 = EmbeddingIndex.db s
  /\ EmbeddingIndex.removeBatch (filters ++ more) s
     = EmbeddingIndex.removeBatch more (EmbeddingIndex.removeBatch filters s).2.
Proof.
  rewrite !removeBatch_spec. simpl.
  split; [apply foldl_remove_first_sublist|].
  split; [apply foldl_remove_first_length|].
  split; [done|]. split; [done|].
  unfold EmbeddingIndex.set_objects. simpl.
  by rewrite foldl_app.
Qed.

(** X12. [update] checks in this order: "Vector not found" exactly
    when no record matches; the embedding error exactly when one matches
    and the new record's embedding is invalid; the schema error exactly
    when one matches, the embedding is valid and some name of the schema
    is neither a field of the new record nor the name of a member it
    inherits from [Object.prototype] (the check is [key in vector]); and
    it succeeds in the remaining case. *)
Theorem update_checks_in_order `{Builtins} (filter vector : record) (s : EmbeddingIndex.t) :
  let found := existsb (EmbeddingIndex.matches filter) (EmbeddingIndex.objects s) in
  ((EmbeddingIndex.update filter vector s).1 = Throw NotFoundError <-> found = false)
  /\ ((EmbeddingIndex.update filter vector s).1 = Throw InvalidEmbeddingError
      <-> found = true /\ valid_embedding vector = false)
  /\ ((EmbeddingIndex.update filter vector s).1 = Throw SchemaMismatchError
      <-> found = true /\ valid_embedding vector = true
          /\ exists key, key ∈ EmbeddingIndex.keys s /\ (key ∉ dom vector)
                          /\ key ∉ JS.Object_prototype)
  /\ ((EmbeddingIndex.update filter vector s).1 = Ok tt
      <-> found = true /\ valid_embedding vector = true
          /\ forall key, key ∈ EmbeddingIndex.keys s ->
                          key ∈ dom vector \/ key ∈ JS.Object_prototype).
Proof.
  intros found. subst found. rewrite update_spec, validateAndAdd_spec.
  unfold NotFoundError, InvalidEmbeddingError, SchemaMismatchError.
  rewrite <- has_schema_lacks, <- has_schema_dom.
  assert (Hlen : (length (EmbeddingIndex.keys s) =? 0)%nat = true ->
                 has_schema (EmbeddingIndex.keys s) vector = true).
  { intros Hl%Nat.eqb_eq%length_zero_iff_nil. by rewrite Hl. }
  destruct (existsb _ _), (valid_embedding vector),
    (length (EmbeddingIndex.keys s) =? 0)%nat eqn:Hl,
    (has_schema (EmbeddingIndex.keys s) vector);
    cbn [negb fst]; intuition congruence.
Qed.

Lemma remove_first_last {A} (p : A -> bool) (l : list A) (x : A) :
  existsb p l = false -> p x = true -> remove_first p (l ++ [x]) = l.
Proof.
  intros Hl Hx. induction l as [|y l IH]; simpl in *; [by rewrite Hx|].
  apply orb_false_iff in Hl as [-> Hl]. by rewrite IH.
Qed.

(** X29. [add] and [remove] undo each other: when no record of the
    index matches the filter and the added record does, [remove] after
    the [add] deletes exactly the added record, and the index is what it
    was before the [add] if it had a schema then. *)
Theorem add_then_remove_round_trip `{Builtins} (obj filter : record)
    (s : EmbeddingIndex.t) :
  (EmbeddingIndex.add obj s).1 = Ok tt ->
  EmbeddingIndex.matches filter obj = true ->
  (EmbeddingIndex.get filter s).1 = Ok None ->
  EmbeddingIndex.remove filter (EmbeddingIndex.add obj s).2
  = (Ok tt, EmbeddingIndex.set_objects (fun _ => EmbeddingIndex.objects s)
                                       (EmbeddingIndex.add obj s).2)
  /\ (EmbeddingIndex.keys s <> [] ->
      (EmbeddingIndex.remove filter (EmbeddingIndex.add obj s).2).2 = s).
Proof.
  intros Hadd Hmatch Hget.
  assert (Hnone : existsb (EmbeddingIndex.matches filter) (EmbeddingIndex.objects s) = false).
  { revert Hget. unfold EmbeddingIndex.get. step_method. intros [= Hfind].
    by apply find_none_existsb. }
  pose proof (validateAndAdd_objects obj s Hadd) as Hobjs.
  unfold EmbeddingIndex.add in *.
  assert (Hremove : EmbeddingIndex.remove filter (EmbeddingIndex.validateAndAdd obj s).2
    = (Ok tt, EmbeddingIndex.set_objects (fun _ => EmbeddingIndex.objects s)
                (EmbeddingIndex.validateAndAdd obj s).2)).
  { rewrite remove_spec, Hobjs, existsb_app. simpl. rewrite Hmatch, orb_true_r.
    unfold EmbeddingIndex.set_objects. by rewrite Hobjs, remove_first_last. }
  split; [done|]. intros Hkeys. rewrite Hremove. simpl.
  revert Hadd. rewrite validateAndAdd_spec.
  destruct (negb (valid_embedding obj)); [done|].
  assert (Hlen : (length (EmbeddingIndex.keys s) =? 0)%nat = false)
    by (by destruct (EmbeddingIndex.keys s)).
  rewrite Hlen. destruct (negb (has_schema (EmbeddingIndex.keys s) obj)); [done|].
  intros _. destruct s. simpl in *. by subst.
Qed.

Lemma add_then_remove_round_trip_witness :
  EmbeddingIndex.remove (Scenario.by_id 2)
    (@EmbeddingIndex.add Scenario.host (Scenario.rec 2 2 [0; 1]%float)
       (Scenario.index [Scenario.rec 1 1 [1; 0]%float] ["embedding"; "id"])).2
  = (Ok tt, Scenario.index [Scenario.rec 1 1 [1; 0]%float] ["embedding"; "id"]).
Proof.
  destruct (@add_then_remove_round_trip Scenario.host (Scenario.rec 2 2 [0; 1]%float)
              (Scenario.by_id 2)
              (Scenario.index [Scenario.rec 1 1 [1; 0]%float] ["embedding"; "id"]))
    as [Hremove Hsame]; [vm_compute; reflexivity..|].
  rewrite <- (Hsame ltac:(discriminate)) at 2. rewrite Hremove. reflexivity.
Defined.

(** ** Ties in [search] *)

Section Stable.
Context `{Builtins}.
Import EmbeddingIndex.
Open Scope float_scope.

Lemma ltb_irrefl (c : float) : (c <? c) = false.
Proof.
  rewrite ltb_spec. unfold SFltb.
  destruct (Prim2SF c) as [[]|[]| |[] m e]; simpl; try done;
    by rewrite ?Z.compare_refl, ?Pos.compare_cont_refl.
Qed.

Lemma with_similarity_sort_insert (c : float) (x : SimilarityResult)
    (l : list SimilarityResult) :
  is_nan c = false ->
  with_similarity c (JS.sort_insert by_similarity x l) = with_similarity c (x :: l).
Proof.
  intros Hc. unfold with_similarity.
  induction l as [|y l IH]; [done|]. cbn [JS.sort_insert].
  destruct (0 <? by_similarity x y) eqn:Hcmp; [|done].
  cbn [List.filter] in *. rewrite IH.
  destruct (decide (similarity x = c)) as [Hx|Hx];
    [|by rewrite (bool_decide_eq_false_2 _ Hx)].
  destruct (decide (similarity y = c)) as [Hy|Hy];
    [|by rewrite (bool_decide_eq_false_2 _ Hy)].
  unfold by_similarity in Hcmp. rewrite Hx, Hy, sub_pos_ltb, ltb_irrefl in Hcmp by done.
  done.
Qed.

Lemma with_similarity_sort (c : float) (l : list SimilarityResult) :
  is_nan c = false ->
  with_similarity c (JS.sort by_similarity l) = with_similarity c l.
Proof.
  intros Hc. induction l as [|x l IH]; [done|]. cbn [JS.sort].
  rewrite with_similarity_sort_insert by done.
  unfold with_similarity in *. cbn [List.filter]. by rewrite IH.
Qed.

Lemma with_similarity_take (c : float) (n : nat) (l : list SimilarityResult) :
  with_similarity c (take n l) `prefix_of` with_similarity c l.
Proof.
  unfold with_similarity. rewrite <- (take_drop n l) at 2. rewrite List.filter_app.
  by apply prefix_app_r.
Qed.

Lemma with_similarity_nan (c : float) (l : list SimilarityResult) :
  is_nan c = true -> Forall (fun r => is_nan (similarity r) = false) l ->
  with_similarity c l = [].
Proof.
  intros Hc. unfold with_similarity. induction 1 as [|r l Hr _ IH]; [done|].
  cbn [List.filter]. rewrite bool_decide_eq_false_2; [done|]. congruence.
Qed.
End Stable.

(** X28. Results with the same similarity come in the order in which
    their records are stored, and where [slice] cuts among them it keeps
    the earlier ones: for every similarity, the results that have it are
    the first of the scored matching records that have it, in index
    order.  The similarities are taken not to be [NaN], for which the
    comparator of [search] is not an order. *)
Theorem search_ranks_ties_in_index_order `{Builtins} (queryEmbedding : list float)
    (opts : EmbeddingIndex.options) (s : EmbeddingIndex.t)
    (results : list EmbeddingIndex.SimilarityResult) :
  Forall (fun obj => forall sim, similarity_of queryEmbedding obj = Ok sim ->
                                 is_nan sim = false)
         (matching (EmbeddingIndex.filter opts) s) ->
  (EmbeddingIndex.search queryEmbedding opts s).1 = Ok results ->
  exists scored,
    EmbeddingIndex.object <$> scored = matching (EmbeddingIndex.filter opts) s
    /\ Forall (fun r => similarity_of queryEmbedding (EmbeddingIndex.object r)
                        = Ok (EmbeddingIndex.similarity r)) scored
    /\ forall c, with_similarity c results `prefix_of` with_similarity c scored.
Proof.
  intros Hnan. rewrite search_spec.
  destruct (EmbeddingIndex.score queryEmbedding (matching (EmbeddingIndex.filter opts) s))
    as [scored|e] eqn:Hscore; simpl; [|done].
  intros [= <-]. apply score_ok in Hscore as [Hobjs Hsims].
  exists scored. split; [done|]. split; [done|]. intros c.
  assert (Hscored : Forall (fun r => is_nan (EmbeddingIndex.similarity r) = false) scored).
  { rewrite <- Hobjs in Hnan. rewrite Forall_fmap in Hnan.
    rewrite Forall_forall in Hnan, Hsims |- *. intros r Hr. by apply (Hnan r Hr), Hsims. }
  unfold JS.slice0. etrans; [apply with_similarity_take|].
  destruct (is_nan c) eqn:Hc.
  - rewrite (with_similarity_nan c (JS.sort _ _)); [apply prefix_nil|done|].
    by rewrite sort_perm.
  - by rewrite with_similarity_sort.
Qed.

Lemma search_ranks_ties_in_index_order_witness :
  exists scored,
    (@EmbeddingIndex.search Scenario.host [1; 0]%float
       {| EmbeddingIndex.topK := Some 1%Z; EmbeddingIndex.filter := None |}
       (Scenario.index [Scenario.rec 1 1 [1; 0]%float; Scenario.rec 2 2 [1; 0]%float]
                       ["embedding"; "id"])).1
    = Ok [ {| EmbeddingIndex.similarity := 1%float;
              EmbeddingIndex.object := Scenario.rec 1 1 [1; 0]%float |} ]
    /\ EmbeddingIndex.object <$> scored
       = [Scenario.rec 1 1 [1; 0]%float; Scenario.rec 2 2 [1; 0]%float]
    /\ forall c,
         with_similarity c [ {| EmbeddingIndex.similarity := 1%float;
                                EmbeddingIndex.object := Scenario.rec 1 1 [1; 0]%float |} ]
         `prefix_of` with_similarity c scored.
Proof.
  assert (Hsearch :
    (@EmbeddingIndex.search Scenario.host [1; 0]%float
       {| EmbeddingIndex.topK := Some 1%Z; EmbeddingIndex.filter := None |}
       (Scenario.index [Scenario.rec 1 1 [1; 0]%float; Scenario.rec 2 2 [1; 0]%float]
                       ["embedding"; "id"])).1
    = Ok [ {| EmbeddingIndex.similarity := 1%float;
              EmbeddingIndex.object := Scenario.rec 1 1 [1; 0]%float |} ])
    by (vm_compute; reflexivity).
  destruct (@search_ranks_ties_in_index_order Scenario.host [1; 0]%float
              {| EmbeddingIndex.topK := Some 1%Z; EmbeddingIndex.filter := None |}
              (Scenario.index [Scenario.rec 1 1 [1; 0]%float; Scenario.rec 2 2 [1; 0]%float]
                              ["embedding"; "id"]) _
              ltac:(repeat constructor; intros sim Hsim; vm_compute in Hsim;
                    injection Hsim as <-; reflexivity)
              Hsearch) as (scored & Hobjs & _ & Hties).
  exists scored. split; [exact Hsearch|]. split; [exact Hobjs|exact Hties].
Defined.

(** ** Symmetry of [cosineSimilarity] *)

Section Symmetry.
Context `{Builtins}.
Open Scope float_scope.

Lemma SFmul_comm (x y : spec_float) : SF64mul x y = SF64mul y x.
Proof.
  destruct x as [sx|sx| |sx mx ex], y as [sy|sy| |sy my ey]; simpl;
    rewrite ?(xorb_comm sx sy); try done.
  by rewrite (Pos.mul_comm mx my), (Z.add_comm ex ey).
Qed.

Lemma float_mul_comm (x y : float) : x * y = y * x.
Proof. apply Prim2SF_inj. rewrite !mul_spec. apply SFmul_comm. Qed.

Lemma dotProduct_zip (vecA vecB vec : list float) (g : nat -> nat) (acc : float) :
  (forall i, (i < length vecA)%nat -> vec !! g i = vecB !! i) ->
  (length vecA <= length vecB)%nat ->
  foldl (fun sum '(i, a) => sum + a * (default 0 (vec !! i))) acc
        (imap (fun i a => (g i, a)) vecA)
  = foldl (fun sum '(a, b) => sum + a * b) acc (zip vecA vecB).
Proof.
  revert vecB g acc. induction vecA as [|a vecA IH]; intros vecB g acc Hvec Hlen; [done|].
  destruct vecB as [|b vecB]; simpl in *; [lia|].
  rewrite (Hvec 0%nat) by lia. simpl.
  apply (IH vecB (g ∘ S)); [|lia].
  intros i Hi. apply (Hvec (S i)). lia.
Qed.

Lemma foldl_zip_comm (vecA vecB : list float) (acc : float) :
  foldl (fun sum '(a, b) => sum + a * b) acc (zip vecA vecB)
  = foldl (fun sum '(a, b) => sum + a * b) acc (zip vecB vecA).
Proof.
  revert vecB acc. induction vecA as [|a vecA IH]; intros [|b vecB] acc; simpl; try done.
  by rewrite IH, float_mul_comm.
Qed.

Lemma dotProduct_comm (vecA vecB : list float) :
  length vecA = length vecB -> dotProduct vecA vecB = dotProduct vecB vecA.
Proof.
  intros Hlen. unfold dotProduct.
  rewrite (dotProduct_zip vecA vecB vecB id), (dotProduct_zip vecB vecA vecA id);
    [apply foldl_zip_comm|done|lia|done|lia].
Qed.
End Symmetry.

(** X13. [cosineSimilarity] is symmetric: exchanging the two vectors
    gives the same number, or the same exception. *)
Theorem cosineSimilarity_symmetric `{Builtins} (vecA vecB : list float) (precision : Z) :
  cosineSimilarity vecA vecB precision = cosineSimilarity vecB vecA precision.
Proof.
  unfold cosineSimilarity. rewrite (Nat.eqb_sym (length vecB)).
  destruct (Nat.eqb_spec (length vecA) (length vecB)) as [Hlen|]; simpl; [|done].
  rewrite (orb_comm (magnitude vecB =? 0)%float).
  by rewrite (dotProduct_comm vecA vecB Hlen), (float_mul_comm (magnitude vecA)).
Qed.

(** ** What the engine holds *)

Section Engine.
Import IndexedDB.

Lemma extends_refl (d : database) : extends d d.
Proof. split; [lia|]. intros c l Hl. by exists l. Qed.

Lemma extends_trans (d1 d2 d3 : database) : extends d1 d2 -> extends d2 d3 -> extends d1 d3.
Proof.
  intros [Hv1 Hs1] [Hv2 Hs2]. split; [lia|].
  intros c l Hl. destruct (Hs1 c l Hl) as (l' & Hl' & Hpre).
  destruct (Hs2 c l' Hl') as (l'' & Hl'' & Hpre'). exists l''. split; [done|].
  by etrans.
Qed.

Lemma keeps_refl (e : t) : keeps e e.
Proof. intros n d Hd. exists d. split; [done|apply extends_refl]. Qed.

Lemma keeps_trans (e1 e2 e3 : t) : keeps e1 e2 -> keeps e2 e3 -> keeps e1 e3.
Proof.
  intros H12 H23 n d Hd. destruct (H12 n d Hd) as (d' & Hd' & Hext).
  destruct (H23 n d' Hd') as (d'' & Hd'' & Hext'). exists d''. split; [done|].
  by eapply extends_trans.
Qed.

Lemma keeps_databases (e e' : t) : databases e' = databases e -> keeps e e'.
Proof. intros Heq n d Hd. exists d. rewrite Heq. split; [done|apply extends_refl]. Qed.

Lemma extends_append (collection : string) (x : record) (d : database) :
  extends d (append collection x d).
Proof.
  split; [simpl; lia|]. intros c l Hl. simpl. rewrite lookup_alter.
  case_decide as Hc.
  - subst c. rewrite Hl. simpl. eexists. split; [done|]. by apply prefix_app_r.
  - by exists l.
Qed.

Lemma keeps_alter (f : database -> database) (n : string) (e : t) :
  (forall d, extends d (f d)) -> keeps e (set_databases (alter f n) e).
Proof.
  intros Hf m d Hd. simpl. rewrite lookup_alter. case_decide as Hm.
  - subst m. rewrite Hd. simpl. eexists. split; [done|]. apply Hf.
  - exists d. split; [done|apply extends_refl].
Qed.

Lemma keeps_carry_out (e : t) (r : request) : keeps e (carry_out e r).
Proof.
  unfold carry_out. destruct (accepts e (item r)); [|apply keeps_refl].
  apply keeps_alter. intros d. apply extends_append.
Qed.

Lemma keeps_foldl_carry_out (rs : list request) (e : t) : keeps e (foldl carry_out e rs).
Proof.
  revert e. induction rs as [|r rs IH]; intros e; simpl; [apply keeps_refl|].
  eapply keeps_trans; [apply keeps_carry_out|apply IH].
Qed.

Lemma keeps_settle (e : t) : keeps e (settle e).
Proof.
  unfold settle. eapply keeps_trans; [|apply keeps_foldl_carry_out].
  by apply keeps_databases.
Qed.

Lemma keeps_close (n : string) (e : t) : keeps e (close n e).
Proof. apply keeps_alter. intros d. split; [simpl; lia|]. intros c l Hl. by exists l. Qed.

Lemma keeps_open (n : string) (v : Z) (e : t) : keeps e (open n v e).2.
Proof.
  unfold open. eapply keeps_trans; [apply keeps_settle|].
  destruct (databases (settle e) !! n) as [d|] eqn:Hd; simpl.
  - destruct (Z.ltb_spec v (version d)); simpl; [apply keeps_refl|].
    destruct (Z.eqb_spec v (version d)); simpl.
    + intros m d' Hd'. simpl. destruct (decide (m = n)) as [->|Hm].
      * rewrite lookup_insert_eq. eexists. split; [done|].
        rewrite Hd in Hd'. injection Hd' as <-. split; [simpl; lia|].
        intros c l Hl. by exists l.
      * rewrite lookup_insert_ne by done. exists d'. split; [done|apply extends_refl].
    + destruct (0 <? connections d)%nat; simpl; [apply keeps_refl|].
      intros m d' Hd'. simpl. destruct (decide (m = n)) as [->|Hm].
      * rewrite lookup_insert_eq. eexists. split; [done|].
        rewrite Hd in Hd'. injection Hd' as <-. split; [simpl; lia|].
        intros c l Hl. by exists l.
      * rewrite lookup_insert_ne by done. exists d'. split; [done|apply extends_refl].
  - intros m d' Hd'. simpl. destruct (decide (m = n)) as [->|Hm]; [congruence|].
    rewrite lookup_insert_ne by done. exists d'. split; [done|apply extends_refl].
Qed.

Lemma keeps_createObjectStore (n collection : string) (e : t) :
  contains n collection e = false -> keeps e (createObjectStore n collection e).
Proof.
  intros Hc m d Hd. simpl. rewrite lookup_alter. case_decide as Hm.
  - subst m. rewrite Hd. simpl. eexists. split; [done|]. split; [simpl; lia|].
    intros c l Hl. simpl. destruct (decide (c = collection)) as [->|Hne].
    + unfold contains in Hc. rewrite Hd in Hc.
      apply bool_decide_eq_false in Hc. destruct Hc. by exists l.
    + rewrite lookup_insert_ne by done. by exists l.
  - exists d. split; [done|apply extends_refl].
Qed.
End Engine.

Section Calls.
Lemma keeps_initializeDB (n : string) (s : DynamicDB.state) :
  keeps s.1 (DynamicDB.initializeDB n s).2.1.
Proof.
  destruct s as [e d]. unfold DynamicDB.initializeDB.
  destruct (DynamicDB.db d); [apply keeps_refl|].
  pose proof (keeps_open n (DynamicDB.version d) e) as Hopen.
  by destruct (IndexedDB.open n (DynamicDB.version d) e) as [[] e'].
Qed.

Lemma keeps_createNewVersion (collection : string) (s : DynamicDB.state) :
  keeps s.1 (DynamicDB.createNewVersion collection s).2.1.
Proof.
  destruct s as [e d]. unfold DynamicDB.createNewVersion.
  set (e0 := match DynamicDB.db d with
             | Some c => if DynamicDB.closed c then e else IndexedDB.close (DynamicDB.name c) e
             | None => e
             end).
  assert (He0 : keeps e e0).
  { subst e0. destruct (DynamicDB.db d) as [c|]; [|apply keeps_refl].
    destruct (DynamicDB.closed c); [apply keeps_refl|apply keeps_close]. }
  set (target := match DynamicDB.db d with
                 | Some c => if String.eqb (DynamicDB.name c) "" then "defaultDB"
                             else DynamicDB.name c
                 | None => "defaultDB"
                 end).
  pose proof (keeps_open target (DynamicDB.version d + 1) e0) as Hopen.
  destruct (IndexedDB.open target (DynamicDB.version d + 1) e0) as [[] e'];
    simpl in *; try by eapply keeps_trans.
  destruct (IndexedDB.contains target collection e') eqn:Hc; simpl.
  - by eapply keeps_trans.
  - eapply keeps_trans; [by eapply keeps_trans|]. by apply keeps_createObjectStore.
Qed.

Lemma keeps_addToDB (collection : string) (obj : record) (s : DynamicDB.state) :
  keeps s.1 (DynamicDB.addToDB collection obj s).2.1.
Proof.
  destruct s as [e d]. unfold DynamicDB.addToDB.
  destruct (DynamicDB.db d) as [c|]; [|apply keeps_refl].
  destruct (negb _); [apply keeps_refl|].
  destruct (DynamicDB.transaction c collection e); [|apply keeps_refl].
  destruct (IndexedDB.clones e obj); [by apply keeps_databases|apply keeps_refl].
Qed.

Lemma keeps_makeObjectStore (collection : string) (s : DynamicDB.state) :
  keeps s.1 (DynamicDB.makeObjectStore collection s).2.1.
Proof.
  destruct s as [e d]. unfold DynamicDB.makeObjectStore.
  destruct (DynamicDB.db d) eqn:Hd; [|apply keeps_refl].
  apply (keeps_createNewVersion collection (e, d)).
Qed.

Lemma keeps_dbGenerator (collection : string) (waits : DynamicDB.consumer)
    (s : DynamicDB.state) :
  keeps s.1 (DynamicDB.dbGenerator collection waits s).2.1.
Proof.
  destruct s as [e d]. unfold DynamicDB.dbGenerator.
  destruct (DynamicDB.db d) as [c|]; [|apply keeps_refl].
  destruct (DynamicDB.transaction c collection e); [|apply keeps_refl].
  destruct (DynamicDB.cursor _ _) as [yielded ends]. apply keeps_settle.
Qed.

Lemma keeps_run_db (c : db_call) (s : DynamicDB.state) : keeps s.1 (run_db c s).1.
Proof.
  destruct c as [n|collection|collection|collection obj|collection|collection waits];
    simpl.
  - apply keeps_initializeDB.
  - apply keeps_createNewVersion.
  - apply keeps_makeObjectStore.
  - apply keeps_addToDB.
  - destruct s as [e d]. unfold DynamicDB.getAllFromDB.
    destruct (DynamicDB.db d) as [c|]; [|apply keeps_refl].
    destruct (DynamicDB.transaction c collection e); [|apply keeps_refl].
    apply keeps_settle.
  - apply keeps_dbGenerator.
Qed.

Lemma keeps_issue_all (collection : string) (objs : list record) (s : DynamicDB.state) :
  keeps s.1 (EmbeddingIndex.issue_all collection objs s).1.
Proof.
  revert s. induction objs as [|obj objs IH]; intros s; simpl; [apply keeps_refl|].
  eapply keeps_trans; [apply keeps_addToDB|apply IH].
Qed.
End Calls.

(** X14. The methods of [DynamicDB] never lose what the engine
    holds: after any calls, every database is still there at a version
    that is not lower, with every collection, and each collection has
    its former records in their places, new ones behind them. *)
Theorem engine_keeps_its_records (calls : list db_call) (s : DynamicDB.state) :
  keeps s.1 (foldl (fun s c => run_db c s) s calls).1.
Proof.
  revert s. induction calls as [|c calls IH]; intros s; simpl; [apply keeps_refl|].
  eapply keeps_trans; [apply keeps_run_db|apply IH].
Qed.

(** X15. [saveIndexToDB] and [loadIndexFromDB] never lose what the
    engine holds, however they settle. *)
Theorem save_and_load_keep_engine_records (DBname collection : string)
    (w : EmbeddingIndex.world) :
  keeps w.1 (EmbeddingIndex.saveIndexToDB DBname collection w).2.1
  /\ keeps w.1 (EmbeddingIndex.loadIndexFromDB collection w).2.1.
Proof.
  destruct w as [e s]. split.
  - unfold EmbeddingIndex.saveIndexToDB.
    destruct (length (EmbeddingIndex.objects s) =? 0)%nat; [apply keeps_refl|].
    unfold EmbeddingIndex.on_db, then_.
    pose proof (keeps_initializeDB DBname (e, EmbeddingIndex.db s)) as H1.
    destruct (DynamicDB.initializeDB DBname (e, EmbeddingIndex.db s)) as [[[]|err|] [e1 d1]];
      cbn [fst snd] in *; try done.
    pose proof (keeps_makeObjectStore collection (e1, d1)) as H2.
    destruct (DynamicDB.makeObjectStore collection (e1, d1)) as [[[]|err|] [e2 d2]];
      cbn [fst snd] in *; try by eapply keeps_trans.
    pose proof (keeps_issue_all collection (EmbeddingIndex.objects s) (e2, d2)) as H3.
    destruct (EmbeddingIndex.issue_all collection (EmbeddingIndex.objects s) (e2, d2))
      as [e3 d3]. cbn [fst snd] in *.
    eapply keeps_trans; [|exact H3]. by eapply keeps_trans.
  - unfold EmbeddingIndex.loadIndexFromDB, EmbeddingIndex.on_db. cbn [EmbeddingIndex.db EmbeddingIndex.set_objects].
    pose proof (keeps_dbGenerator collection DynamicDB.at_once (e, EmbeddingIndex.db s))
      as H1.
    by destruct (DynamicDB.dbGenerator collection DynamicDB.at_once
                   (e, EmbeddingIndex.db s)) as [[err|records ends] [e1 d1]].
Qed.

(** ** The [DynamicDB] instance *)

Section Instance.
Import DynamicDB.

Lemma contains_keeps (n collection : string) (e e' : IndexedDB.t) :
  keeps e e' -> IndexedDB.contains n collection e = true ->
  IndexedDB.contains n collection e' = true.
Proof.
  unfold IndexedDB.contains. intros Hk Hc.
  destruct (IndexedDB.databases e !! n) as [d|] eqn:Hd; [|done].
  destruct (Hk n d Hd) as (d' & -> & _ & Hs).
  apply bool_decide_eq_true in Hc. destruct Hc as [l Hl].
  destruct (Hs collection l Hl) as (l' & -> & _). by apply bool_decide_eq_true.
Qed.

Lemma open_upgraded (n : string) (v : Z) (e e' : IndexedDB.t) :
  IndexedDB.open n v e = (IndexedDB.Upgraded, e') ->
  exists d, IndexedDB.databases e' !! n = Some d /\ IndexedDB.version d = v.
Proof.
  unfold IndexedDB.open.
  destruct (IndexedDB.databases (IndexedDB.settle e) !! n) as [d|].
  - destruct (v <? IndexedDB.version d)%Z; [done|].
    destruct (v =? IndexedDB.version d)%Z; [done|].
    destruct (0 <? IndexedDB.connections d)%nat; [done|].
    intros [= <-]. simpl. rewrite lookup_insert_eq. by eexists.
  - intros [= <-]. simpl. rewrite lookup_insert_eq. by eexists.
Qed.

Lemma contains_createObjectStore (n collection : string) (e : IndexedDB.t) :
  is_Some (IndexedDB.databases e !! n) ->
  IndexedDB.contains n collection (IndexedDB.createObjectStore n collection e) = true.
Proof.
  intros [d Hd]. unfold IndexedDB.contains. simpl. rewrite lookup_alter.
  rewrite decide_True by done. rewrite Hd. simpl.
  apply bool_decide_eq_true. rewrite lookup_insert_eq. by eexists.
Qed.

Lemma lists_its_own_keeps (e e' : IndexedDB.t) (d : t) :
  keeps e e' -> lists_its_own (e, d) -> lists_its_own (e', d).
Proof.
  intros Hk Hd collection Hc. destruct (Hd collection Hc) as (c & Hdb & Hn & Hcont).
  exists c. repeat split; [done..|]. by eapply contains_keeps.
Qed.

Lemma lists_its_own_same (e e' : IndexedDB.t) (d d' : t) :
  keeps e e' -> objectStores d' = objectStores d ->
  (forall c, db d = Some c -> name c <> "" ->
             exists c', db d' = Some c' /\ name c' = name c) ->
  lists_its_own (e, d) -> lists_its_own (e', d').
Proof.
  intros Hk Hstores Hdb Hd collection Hc. simpl in *. rewrite Hstores in Hc.
  destruct (Hd collection Hc) as (c & Hc' & Hn & Hcont). simpl in *.
  destruct (Hdb c Hc' Hn) as (c' & Hc'' & Hname). exists c'. rewrite Hname.
  repeat split; [done..|]. by eapply contains_keeps.
Qed.

Lemma lists_its_own_initializeDB (n : string) (s : state) :
  lists_its_own s -> lists_its_own (initializeDB n s).2.
Proof.
  destruct s as [e d]. intros Hs.
  pose proof (keeps_initializeDB n (e, d)) as Hk. revert Hk.
  unfold initializeDB. destruct (db d) as [c|] eqn:Hdb; [done|].
  assert (Hnone : objectStores d = ∅).
  { apply set_eq. intros collection. split; [|set_solver].
    intros Hc. destruct (Hs collection Hc) as (c & Hc' & _). simpl in Hc'. congruence. }
  destruct (IndexedDB.open n (version d) e) as [[] e']; simpl; intros Hk collection Hc;
    simpl in Hc; rewrite Hnone in Hc; set_solver.
Qed.

Lemma lists_its_own_createNewVersion (collection : string) (s : state) :
  lists_its_own s -> lists_its_own (createNewVersion collection s).2.
Proof.
  destruct s as [e d]. intros Hs.
  pose proof (keeps_createNewVersion collection (e, d)) as Hk. revert Hk.
  unfold createNewVersion.
  set (e0 := match db d with
             | Some c => if closed c then e else IndexedDB.close (name c) e
             | None => e
             end).
  set (target := match db d with
                 | Some c => if String.eqb (name c) "" then "defaultDB" else name c
                 | None => "defaultDB"
                 end).
  assert (Htarget : target <> "").
  { subst target. destruct (db d) as [c|]; [|done].
    by destruct (String.eqb_spec (name c) ""). }
  assert (Hname : forall c, db d = Some c -> name c <> "" -> target = name c).
  { intros c Hc Hn. subst target. rewrite Hc.
    by destruct (String.eqb_spec (name c) ""). }
  destruct (IndexedDB.open target (version d + 1) e0) as [[] e'] eqn:Hopen; simpl.
  - destruct (IndexedDB.contains target collection e') eqn:Hcont; simpl; intros Hk.
    + apply (lists_its_own_same e _ d); [done|done| |done].
      intros c Hc Hn. simpl. eexists. split; [reflexivity|]. simpl. by apply Hname.
    + intros c Hc. simpl in Hc. apply elem_of_union in Hc as [Hc|Hc].
      * apply elem_of_singleton in Hc as ->. simpl. eexists. split; [reflexivity|]. simpl.
        split; [done|]. apply contains_createObjectStore.
        destruct (open_upgraded _ _ _ _ Hopen) as (d' & Hd' & _). by eexists.
      * destruct (Hs c Hc) as (conn & Hconn & Hn & Hc'). simpl in *.
        eexists. split; [reflexivity|]. simpl. split; [done|].
        rewrite <- (Hname conn Hconn Hn) in Hc'. by eapply contains_keeps.
  - intros Hk. apply (lists_its_own_same e _ d); [done|done| |done].
    intros c Hc Hn. simpl. eexists. split; [reflexivity|]. simpl. by apply Hname.
  - intros Hk. apply (lists_its_own_same e _ d); [done|done| |done].
    intros c Hc Hn. simpl. rewrite Hc. simpl. by eexists.
  - intros Hk. apply (lists_its_own_same e _ d); [done|done| |done].
    intros c Hc Hn. simpl. rewrite Hc. simpl. by eexists.
Qed.

Lemma lists_its_own_run_db (call : db_call) (s : state) :
  lists_its_own s -> lists_its_own (run_db call s).
Proof.
  intros Hs.
  destruct call as [n|collection|collection|collection obj|collection|collection waits];
    simpl.
  - by apply lists_its_own_initializeDB.
  - by apply lists_its_own_createNewVersion.
  - destruct s as [e d]. unfold makeObjectStore.
    destruct (db d) eqn:Hd; [|done].
    by apply (lists_its_own_createNewVersion collection (e, d)).
  - pose proof (keeps_addToDB collection obj s) as Hk. revert Hk.
    destruct s as [e d]. unfold addToDB.
    destruct (db d) as [c|]; [|done]. destruct (negb _); [done|].
    destruct (transaction c collection e); [|done].
    destruct (IndexedDB.clones e obj); [|done].
    simpl. intros Hk. by apply (lists_its_own_same e _ d); eauto.
  - pose proof (keeps_run_db (GetAllFromDB collection) s) as Hk. revert Hk.
    destruct s as [e d]. simpl. unfold getAllFromDB.
    destruct (db d) as [c|]; [|done].
    destruct (transaction c collection e); [|done].
    simpl. intros Hk. by apply (lists_its_own_same e _ d); eauto.
  - pose proof (keeps_dbGenerator collection waits s) as Hk. revert Hk.
    destruct s as [e d]. unfold dbGenerator.
    destruct (db d) as [c|]; [|done].
    destruct (transaction c collection e); [|done].
    destruct (cursor _ _) as [yielded ends].
    simpl. intros Hk. by apply (lists_its_own_same e _ d); eauto.
Qed.

Lemma run_db_version (call : db_call) (s : state) :
  (version s.2 <= version (run_db call s).2 <= version s.2 + 1)%Z
  /\ objectStores s.2 ⊆ objectStores (run_db call s).2
  /\ (is_Some (db s.2) -> is_Some (db (run_db call s).2)).
Proof.
  destruct s as [e d].
  assert (Hsame : (version d <= version d <= version d + 1)%Z
                  /\ objectStores d ⊆ objectStores d /\ (is_Some (db d) -> is_Some (db d)))
    by (split; [lia|done]).
  assert (Hcreate : forall collection,
    (version d <= version (createNewVersion collection (e, d)).2.2 <= version d + 1)%Z
    /\ objectStores d ⊆ objectStores (createNewVersion collection (e, d)).2.2
    /\ (is_Some (db d) -> is_Some (db (createNewVersion collection (e, d)).2.2))).
  { intros collection. unfold createNewVersion.
    destruct (IndexedDB.open _ _ _) as [[] e']; simpl;
      [destruct (negb _); simpl|..];
      (split; [lia|]); (split; [first [done|apply union_subseteq_r]|]);
      intros [c Hc]; rewrite ?Hc; by eexists. }
  destruct call as [n|collection|collection|collection obj|collection|collection waits];
    cbn [run_db fst snd].
  - unfold initializeDB. destruct (db d) as [c|] eqn:Hdb; [by rewrite <- Hdb in *|].
    destruct (IndexedDB.open n (version d) e) as [[] e']; simpl;
      (split; [lia|]); (split; [done|]); by intros [? [=]].
  - apply Hcreate.
  - unfold makeObjectStore. specialize (Hcreate collection).
    by destruct (db d) eqn:Hdb; rewrite <- Hdb in *.
  - unfold addToDB. destruct (db d) as [c|] eqn:Hdb; rewrite <- Hdb in *; [|done].
    destruct (negb _); [done|].
    destruct (transaction c collection e); [|done]. by destruct (IndexedDB.clones e obj).
  - unfold getAllFromDB. destruct (db d) as [c|] eqn:Hdb; rewrite <- Hdb in *; [|done].
    by destruct (transaction c collection e).
  - unfold dbGenerator. destruct (db d) as [c|] eqn:Hdb; rewrite <- Hdb in *; [|done].
    destruct (transaction c collection e); [|done]. by destruct (cursor _ _).
Qed.

Lemma lists_its_own_calls (calls : list db_call) (engine : IndexedDB.t) :
  lists_its_own (foldl (fun s c => run_db c s) (engine, new) calls).
Proof.
  assert (H0 : lists_its_own (engine, new)) by (by intros c Hc%elem_of_empty).
  revert H0. generalize (engine, new).
  induction calls as [|c calls IH]; intros s Hs; simpl; [done|].
  apply IH. by apply lists_its_own_run_db.
Qed.
End Instance.

(** X16. Through any calls of its methods, the version of a
    [DynamicDB] instance never goes down and goes up by at most one per
    call, the collections it lists stay listed, and once it has a
    connection it keeps one. *)
Theorem instance_version_and_stores_grow (calls : list db_call) (s : DynamicDB.state) :
  let s' := foldl (fun s c => run_db c s) s calls in
  (DynamicDB.version s.2 <= DynamicDB.version s'.2
   <= DynamicDB.version s.2 + Z.of_nat (length calls))%Z
  /\ DynamicDB.objectStores s.2 ⊆ DynamicDB.objectStores s'.2
  /\ (is_Some (DynamicDB.db s.2) -> is_Some (DynamicDB.db s'.2)).
Proof.
  revert s. induction calls as [|c calls IH]; intros s; simpl.
  - split; [lia|]. done.
  - destruct (IH (run_db c s)) as (Hv & Hs & Hdb).
    destruct (run_db_version c s) as (Hv' & Hs' & Hdb').
    split; [lia|]. split; [by etrans|]. auto.
Qed.

(** X17. Whatever calls have been made on a new [DynamicDB]
    instance, a collection it lists in [objectStores] exists in the
    database of its connection. *)
Theorem instance_lists_collections_of_its_database (calls : list db_call)
    (engine : IndexedDB.t) (collection : string) :
  let s' := foldl (fun s c => run_db c s) (engine, DynamicDB.new) calls in
  collection ∈ DynamicDB.objectStores s'.2 ->
  exists c, DynamicDB.db s'.2 = Some c
            /\ IndexedDB.contains (DynamicDB.name c) collection s'.1 = true.
Proof.
  intros s' Hc. destruct (lists_its_own_calls calls engine collection Hc)
    as (c & Hdb & _ & Hcont). by exists c.
Qed.

Lemma instance_lists_collections_of_its_database_witness :
  exists c,
    DynamicDB.db
      (foldl (fun s c => run_db c s) (Scenario.engine (fun _ => true), DynamicDB.new)
             [InitializeDB "db"; MakeObjectStore "c"]).2
    = Some c
    /\ IndexedDB.contains (DynamicDB.name c) "c"
         (foldl (fun s c => run_db c s) (Scenario.engine (fun _ => true), DynamicDB.new)
                [InitializeDB "db"; MakeObjectStore "c"]).1
       = true.
Proof.
  apply (instance_lists_collections_of_its_database
           [InitializeDB "db"; MakeObjectStore "c"] (Scenario.engine (fun _ => true)) "c").
  apply (bool_decide_unpack _). vm_compute. exact I.
Defined.

(** ** Outcomes of saving and loading *)

(** X18. [saveIndexToDB] is rejected with "Index is empty" exactly
    when the index holds no record, and then touches neither the engine
    nor the index; however it settles, the records and the schema of the
    index are what they were. *)
Theorem saveIndexToDB_empty_index (DBname collection : string) (engine : IndexedDB.t)
    (self : EmbeddingIndex.t) :
  let after := EmbeddingIndex.saveIndexToDB DBname collection (engine, self) in
  (after.1 = Rejected EmptyIndexError <-> EmbeddingIndex.objects self = [])
  /\ (EmbeddingIndex.objects self = [] -> after.2 = (engine, self))
  /\ EmbeddingIndex.objects after.2.2 = EmbeddingIndex.objects self
  /\ EmbeddingIndex.keys after.2.2 = EmbeddingIndex.keys self.
Proof.
  intros after. subst after. unfold EmbeddingIndex.saveIndexToDB.
  destruct (EmbeddingIndex.objects self) as [|obj objs] eqn:Hobjs; simpl; [done|].
  unfold EmbeddingIndex.on_db.
  destruct (then_ _ _ _) as [[[]|err|] [e' d']]; simpl; by rewrite ?Hobjs.
Qed.

(** X19. [loadIndexFromDB] always settles.  When it resolves, the
    index has an open connection to a database with the collection, the
    engine has carried out the pending insertions, and the index holds
    the values of the collection.  When it is rejected, the engine is
    untouched and the index holds no record any more; the error is
    "Database not initialized" exactly when the index has no
    connection.  The schema and the connection are kept either way. *)
Theorem loadIndexFromDB_outcomes (collection : string) (engine : IndexedDB.t)
    (self : EmbeddingIndex.t) :
  let after := EmbeddingIndex.loadIndexFromDB collection (engine, self) in
  match after.1 with
  | Resolved _ =>
      exists c, DynamicDB.db (EmbeddingIndex.db self) = Some c
                /\ DynamicDB.closed c = false
                /\ IndexedDB.contains (DynamicDB.name c) collection engine = true
                /\ after.2.1 = IndexedDB.settle engine
                /\ EmbeddingIndex.objects after.2.2
                   = IndexedDB.values (DynamicDB.name c) collection (IndexedDB.settle engine)
  | Rejected e =>
      after.2.1 = engine
      /\ EmbeddingIndex.objects after.2.2 = []
      /\ (e = NotInitializedError <-> DynamicDB.db (EmbeddingIndex.db self) = None)
  | Unsettled => False
  end
  /\ EmbeddingIndex.keys after.2.2 = EmbeddingIndex.keys self
  /\ EmbeddingIndex.db after.2.2 = EmbeddingIndex.db self.
Proof.
  intros after. subst after.
  unfold EmbeddingIndex.loadIndexFromDB, EmbeddingIndex.on_db, DynamicDB.dbGenerator,
    DynamicDB.transaction, NotInitializedError.
  cbn [EmbeddingIndex.db EmbeddingIndex.set_objects].
  destruct (DynamicDB.db (EmbeddingIndex.db self)) as [c|] eqn:Hdb; simpl.
  - destruct (DynamicDB.closed c) eqn:Hclosed; simpl.
    { by destruct (EmbeddingIndex.db self). }
    destruct (IndexedDB.contains (DynamicDB.name c) collection engine) eqn:Hc; simpl.
    + rewrite cursor_at_once. simpl.
      split; [|by destruct (EmbeddingIndex.db self)]. by exists c.
    + by destruct (EmbeddingIndex.db self).
  - by destruct (EmbeddingIndex.db self).
Qed.

Section Cursor.
Import DynamicDB.

(** What the generator receives of the events after the first. *)
Lemma cursor_events_spec (waits : consumer) (i : nat) (vs : list record) :
  (cursor_events waits i vs).1 `sublist_of` vs
  /\ (cursor_events waits i vs).2 = waits (i + length vs)
  /\ ((forall j, j < length vs -> waits (i + j) = true) ->
      (cursor_events waits i vs).1 = vs)
  /\ (forall j, j < length vs -> waits (i + j) = false ->
                length (cursor_events waits i vs).1 < length vs).
Proof.
  revert i. induction vs as [|v vs IH]; intros i; simpl.
  - rewrite Nat.add_0_r. repeat split; [done|intros; lia].
  - destruct (IH (S i)) as (Hsub & Hends & Hall & Hlost).
    destruct (cursor_events waits (S i) vs) as [yielded ends]. simpl in *.
    assert (Hlen : length yielded <= length vs) by by apply sublist_length.
    split; [destruct (waits i); [by apply sublist_skip|by apply sublist_cons]|].
    split; [by rewrite Hends, ?Nat.add_succ_r|]. split.
    + intros Hw.
      assert (Hi : waits i = true)
        by (specialize (Hw 0); rewrite Nat.add_0_r in Hw; apply Hw; lia).
      rewrite Hi, Hall; [done|]. intros j Hj.
      replace (S (i + j)) with (i + S j) by lia. apply Hw. lia.
    + intros [|j] Hj Hw.
      * rewrite Nat.add_0_r in Hw. rewrite Hw. lia.
      * assert (length yielded < length vs).
        { apply (Hlost j); [lia|]. by replace (S (i + j)) with (i + S j) by lia. }
        destruct (waits i); simpl; lia.
Qed.
End Cursor.

(** X20. A resolved [getAllFromDB] tells what [dbGenerator] can yield:
    the generator leaves the same state and yields some of these
    records, in their order, always the first of them.  It yields them
    all and ends when the consumer asks for the next value before every
    further event of the cursor.  A value whose event comes while the
    consumer has not asked is lost, and when the end of the cursor comes
    so, the generator never ends.  Where [getAllFromDB] is rejected, the
    first [next()] of the generator is, with the same error on a
    connection, and with "Database not initialized" instead of "Object
    store not found" without one; nothing has changed then.
    [getAllFromDB] always settles. *)
Theorem dbGenerator_yields_part_of_getAllFromDB (collection : string)
    (waits : DynamicDB.consumer) (s : DynamicDB.state) :
  match DynamicDB.getAllFromDB collection s with
  | (Resolved all, s') =>
      exists yielded ends,
        DynamicDB.dbGenerator collection waits s = (DynamicDB.Yields yielded ends, s')
        /\ yielded `sublist_of` all
        /\ head yielded = head all
        /\ ((forall i, i < length all -> waits i = true) -> yielded = all /\ ends = true)
        /\ (forall i, S i < length all -> waits i = false -> length yielded < length all)
        /\ (all <> [] -> ends = waits (length all - 1))
  | (Rejected e, s') =>
      s' = s
      /\ DynamicDB.dbGenerator collection waits s
         = (DynamicDB.Fails (match DynamicDB.db s.2 with
                             | Some _ => e
                             | None => NotInitializedError
                             end), s)
      /\ (DynamicDB.db s.2 = None -> e = Error "Object store not found")
  | (Unsettled, _) => False
  end.
Proof.
  destruct s as [e d]. unfold DynamicDB.getAllFromDB, DynamicDB.dbGenerator. simpl.
  destruct (DynamicDB.db d) as [c|] eqn:Hdb; simpl; [|done].
  destruct (DynamicDB.transaction c collection e) as [[]|err] eqn:Ht; simpl; [|done].
  destruct (IndexedDB.values (DynamicDB.name c) collection (IndexedDB.settle e))
    as [|v vs]; simpl.
  { eexists _, _. split; [done|]. repeat split; [done|intros; simpl in *; lia|done]. }
  destruct (cursor_events_spec waits 0 vs) as (Hsub & Hends & Hall & Hlost).
  destruct (DynamicDB.cursor_events waits 0 vs) as [yielded ends]. simpl in *.
  eexists _, _. split; [done|]. split; [by apply sublist_skip|]. split; [done|].
  split; [|split].
  - intros Hw. rewrite Hall, Hends; [|intros j Hj; apply Hw; lia].
    split; [done|]. apply Hw. lia.
  - intros i Hi Hw. apply (Hlost i) in Hw; simpl in *; lia.
  - intros _. by rewrite Nat.sub_0_r.
Qed.

(** ** Versions *)

Section Versions.
Import IndexedDB.

Lemma carry_out_version (e : t) (r : request) (n : string) (d : database) :
  databases e !! n = Some d ->
  exists d', databases (carry_out e r) !! n = Some d'
             /\ version d' = version d /\ connections d' = connections d.
Proof.
  intros Hd. unfold carry_out. destruct (accepts e (item r)); [|by exists d].
  simpl. rewrite lookup_alter. case_decide; [|by exists d].
  subst n. rewrite Hd. simpl. by eexists.
Qed.

Lemma foldl_carry_out_version (rs : list request) (e : t) (n : string) (d : database) :
  databases e !! n = Some d ->
  exists d', databases (foldl carry_out e rs) !! n = Some d'
             /\ version d' = version d /\ connections d' = connections d.
Proof.
  revert e d. induction rs as [|r rs IH]; intros e d Hd; simpl; [by exists d|].
  destruct (carry_out_version e r n d Hd) as (d1 & Hd1 & Hv1 & Hc1).
  destruct (IH _ _ Hd1) as (d2 & Hd2 & Hv2 & Hc2). exists d2.
  split; [done|]. split; congruence.
Qed.

Lemma settle_version (e : t) (n : string) (d : database) :
  databases e !! n = Some d ->
  exists d', databases (settle e) !! n = Some d'
             /\ version d' = version d /\ connections d' = connections d.
Proof. intros Hd. unfold settle. by apply foldl_carry_out_version. Qed.
End Versions.

(** X21. A new index cannot save into a database that is at a later
    version than 1: [saveIndexToDB] is rejected with "Error saving index
    to database", the engine has only carried out what was pending, and
    the index is unchanged. *)
Theorem new_index_cannot_save_to_later_version (DBname collection : string)
    (engine : IndexedDB.t) (self : EmbeddingIndex.t) (d : IndexedDB.database) :
  IndexedDB.databases engine !! DBname = Some d ->
  (1 < IndexedDB.version d)%Z ->
  EmbeddingIndex.db self = DynamicDB.new ->
  EmbeddingIndex.objects self <> [] ->
  EmbeddingIndex.saveIndexToDB DBname collection (engine, self)
  = (Rejected (Error "Error saving index to database"), (IndexedDB.settle engine, self)).
Proof.
  intros Hd Hv Hnew Hobjs.
  destruct (settle_version engine DBname d Hd) as (d' & Hd' & Hv' & _).
  destruct self as [objs ks db]. simpl in *. subst db.
  unfold EmbeddingIndex.saveIndexToDB. simpl.
  destruct objs as [|obj objs]; [done|].
  change (length (obj :: objs) =? 0)%nat with false. cbv iota.
  unfold EmbeddingIndex.on_db, then_, DynamicDB.initializeDB. simpl.
  unfold IndexedDB.open. rewrite Hd'.
  destruct (Z.ltb_spec 1 (IndexedDB.version d')); [done|lia].
Qed.

Lemma new_index_cannot_save_to_later_version_witness :
  EmbeddingIndex.saveIndexToDB "db" "c"
    ({| IndexedDB.databases :=
          {[ "db" := {| IndexedDB.version := 2; IndexedDB.stores := ∅;
                        IndexedDB.connections := 0 |} ]};
        IndexedDB.pending := []; IndexedDB.clones := fun _ => true;
        IndexedDB.accepts := fun _ => true |},
     Scenario.index [Scenario.rec 1 1 [1; 0]%float] ["embedding"; "id"])
  = (Rejected (Error "Error saving index to database"),
     (IndexedDB.settle
        {| IndexedDB.databases :=
             {[ "db" := {| IndexedDB.version := 2; IndexedDB.stores := ∅;
                           IndexedDB.connections := 0 |} ]};
           IndexedDB.pending := []; IndexedDB.clones := fun _ => true;
           IndexedDB.accepts := fun _ => true |},
      Scenario.index [Scenario.rec 1 1 [1; 0]%float] ["embedding"; "id"])).
Proof.
  apply (new_index_cannot_save_to_later_version "db" "c" _ _
           {| IndexedDB.version := 2; IndexedDB.stores := ∅; IndexedDB.connections := 0 |}).
  - vm_compute; reflexivity.
  - simpl. lia.
  - reflexivity.
  - discriminate.
Defined.

Section Again.
Import EmbeddingIndex.
#[local] Arguments issue_all : simpl never.

Lemma saveIndexToDB_again (DBname other collection : string)
    (D : gmap string IndexedDB.database) (cl acc : record -> bool) (self : t)
    (v : Z) (l : list record) (pend : list record) :
  DBname <> "" ->
  objects self <> [] ->
  db self = {| DynamicDB.db := Some {| DynamicDB.name := DBname; DynamicDB.closed := false |};
               DynamicDB.objectStores := {[collection]} ∪ ∅;
               DynamicDB.version := v |} ->
  saveIndexToDB other collection
    ({| IndexedDB.databases :=
          <[DBname := {| IndexedDB.version := v;
                         IndexedDB.stores := <[collection := l]> ∅;
                         IndexedDB.connections := 1 |}]> D;
        IndexedDB.pending := request_for DBname collection <$> pend;
        IndexedDB.clones := cl;
        IndexedDB.accepts := acc |}, self)
  = (Resolved tt,
     ({| IndexedDB.databases :=
          <[DBname := {| IndexedDB.version := v + 1;
                         IndexedDB.stores := <[collection := l ++ List.filter acc pend]> ∅;
                         IndexedDB.connections := 1 |}]> D;
        IndexedDB.pending := request_for DBname collection <$> List.filter cl (objects self);
        IndexedDB.clones := cl;
        IndexedDB.accepts := acc |},
      set_db {| DynamicDB.db := Some {| DynamicDB.name := DBname;
                                        DynamicDB.closed := false |};
                DynamicDB.objectStores := {[collection]} ∪ ∅;
                DynamicDB.version := v + 1 |} self)).
Proof.
  intros Hname%String.eqb_neq Hobjs Hdb.
  destruct self as [objs ks d]. simpl in *. subst d.
  unfold saveIndexToDB. simpl.
  destruct objs as [|obj objs]; [done|]. clear Hobjs.
  change (length (obj :: objs) =? 0)%nat with false. cbv iota.
  unfold on_db, then_, DynamicDB.initializeDB, DynamicDB.makeObjectStore,
    DynamicDB.createNewVersion. simpl. rewrite Hname.
  unfold IndexedDB.close, IndexedDB.set_databases. simpl. rewrite alter_insert_eq. simpl.
  unfold IndexedDB.open, IndexedDB.settle. simpl. rewrite settle_issued. simpl.
  rewrite lookup_insert_eq. simpl.
  destruct (Z.ltb_spec (v + 1) v); [lia|]. destruct (Z.eqb_spec (v + 1) v); [lia|]. simpl.
  unfold IndexedDB.contains, IndexedDB.set_databases. simpl.
  rewrite insert_insert_eq, lookup_insert_eq. simpl. rewrite lookup_insert_eq. simpl.
  erewrite (issue_all_spec DBname collection (obj :: objs)); simpl;
    [reflexivity|reflexivity| |apply lookup_insert_eq|].
  - unfold DynamicDB.listed. simpl. rewrite bool_decide_eq_true_2; [done|set_solver].
  - simpl. rewrite lookup_insert_eq. eauto.
Qed.
End Again.

(** X22. On the index that has saved to a new database, a second
    save to the same collection resolves whatever database name it is
    given, adds the records whose insertion the engine carries out to
    the collection once more, in the database of the first save, now at
    version 3, and leaves what the engine holds under the other name as
    it was after the first save; the load then yields every such record
    twice. *)
Theorem saving_again_stores_the_records_again (DBname other collection : string)
    (engine : IndexedDB.t) (self : EmbeddingIndex.t) :
  DBname <> "" ->
  IndexedDB.databases engine !! DBname = None ->
  EmbeddingIndex.db self = DynamicDB.new ->
  EmbeddingIndex.objects self <> [] ->
  let first := EmbeddingIndex.saveIndexToDB DBname collection (engine, self) in
  let second := EmbeddingIndex.saveIndexToDB other collection first.2 in
  let loaded := EmbeddingIndex.loadIndexFromDB collection second.2 in
  let accepted := List.filter (carries_out engine) (EmbeddingIndex.objects self) in
  second.1 = Resolved tt
  /\ loaded.1 = Resolved tt
  /\ EmbeddingIndex.objects loaded.2.2 = accepted ++ accepted
  /\ IndexedDB.values DBname collection loaded.2.1 = accepted ++ accepted
  /\ IndexedDB.version <$> IndexedDB.databases loaded.2.1 !! DBname = Some 3%Z
  /\ (other <> DBname ->
      IndexedDB.databases loaded.2.1 !! other = IndexedDB.databases first.2.1 !! other).
Proof.
  intros Hname Hnone Hnew Hobjs first second loaded accepted.
  destruct (saveIndexToDB_first DBname collection engine self Hname Hnone Hnew Hobjs)
    as (D & HD & Hfirst).
  subst loaded second first accepted. rewrite Hfirst. cbn [fst snd].
  rewrite (saveIndexToDB_again DBname other collection D _ _ _ 2 []
             (List.filter (IndexedDB.clones engine) (EmbeddingIndex.objects self)));
    [|done|done|done].
  cbn [fst snd EmbeddingIndex.objects EmbeddingIndex.set_db]. split; [done|].
  rewrite loadIndexFromDB_connected by done.
  cbn [fst snd]. rewrite !filter_carries_out.
  split; [done|]. split; [by destruct self|].
  unfold IndexedDB.values. simpl. rewrite !lookup_insert_eq. simpl. rewrite lookup_insert_eq.
  split; [done|]. split; [done|].
  intros Hother. by rewrite !lookup_insert_ne.
Qed.

Lemma saving_again_stores_the_records_again_witness :
  let first := EmbeddingIndex.saveIndexToDB "db" "c"
                 (Scenario.engine (fun _ => true),
                  Scenario.index [Scenario.rec 1 1 [1; 0]%float] ["embedding"; "id"]) in
  let second := EmbeddingIndex.saveIndexToDB "elsewhere" "c" first.2 in
  let loaded := EmbeddingIndex.loadIndexFromDB "c" second.2 in
  second.1 = Resolved tt
  /\ loaded.1 = Resolved tt
  /\ EmbeddingIndex.objects loaded.2.2
     = [Scenario.rec 1 1 [1; 0]%float; Scenario.rec 1 1 [1; 0]%float]
  /\ IndexedDB.values "db" "c" loaded.2.1
     = [Scenario.rec 1 1 [1; 0]%float; Scenario.rec 1 1 [1; 0]%float]
  /\ IndexedDB.version <$> IndexedDB.databases loaded.2.1 !! "db" = Some 3%Z
  /\ ("elsewhere" <> "db" ->
      IndexedDB.databases loaded.2.1 !! "elsewhere"
      = IndexedDB.databases first.2.1 !! "elsewhere").
Proof.
  apply (saving_again_stores_the_records_again "db" "elsewhere" "c"
           (Scenario.engine (fun _ => true))
           (Scenario.index [Scenario.rec 1 1 [1; 0]%float] ["embedding"; "id"])).
  - discriminate.
  - reflexivity.
  - reflexivity.
  - discriminate.
Defined.

(** ** Insertions and reads *)

(** X23. Take a new [DynamicDB] instance after any calls, none of which
    has created a collection named [__proto__].  [addToDB] either issues
    the insertion, or is refused without any change.  It issues it on an
    open connection to a database that has the collection, for a record
    that the engine can clone and a name that [objectStores] holds or
    inherits.  It is refused with "Database not initialized" without a
    connection; with "Object store not initialized" for a name that
    [objectStores] neither holds nor inherits; with [InvalidStateError]
    on a closed connection; with [NotFoundError] when the database lacks
    the collection, which happens only for a name that [objectStores]
    inherits and does not hold; and with [DataCloneError] for a record
    that the engine cannot clone. *)
Theorem addToDB_outcomes (calls : list db_call) (engine : IndexedDB.t)
    (collection : string) (obj : record) :
  let s := foldl (fun s c => run_db c s) (engine, DynamicDB.new) calls in
  "__proto__" ∉ DynamicDB.objectStores s.2 ->
  match (DynamicDB.addToDB collection obj s).1 with
  | DynamicDB.Issued =>
      exists c, DynamicDB.db s.2 = Some c /\ DynamicDB.closed c = false
                /\ (collection ∈ DynamicDB.objectStores s.2
                    \/ collection ∈ JS.Object_prototype)
                /\ IndexedDB.contains (DynamicDB.name c) collection s.1 = true
                /\ IndexedDB.clones s.1 obj = true
                /\ (DynamicDB.addToDB collection obj s).2
                   = (IndexedDB.issue (request_for (DynamicDB.name c) collection obj) s.1, s.2)
  | DynamicDB.Refused e =>
      (DynamicDB.addToDB collection obj s).2 = s
      /\ ((e = NotInitializedError /\ DynamicDB.db s.2 = None)
          \/ (e = CollectionMissingError /\ is_Some (DynamicDB.db s.2)
              /\ (collection ∉ DynamicDB.objectStores s.2)
              /\ collection ∉ JS.Object_prototype)
          \/ (e = Error "InvalidStateError"
              /\ (collection ∈ DynamicDB.objectStores s.2
                  \/ collection ∈ JS.Object_prototype)
              /\ exists c, DynamicDB.db s.2 = Some c /\ DynamicDB.closed c = true)
          \/ (e = Error "NotFoundError"
              /\ (collection ∉ DynamicDB.objectStores s.2)
              /\ collection ∈ JS.Object_prototype
              /\ exists c, DynamicDB.db s.2 = Some c /\ DynamicDB.closed c = false
                           /\ IndexedDB.contains (DynamicDB.name c) collection s.1 = false)
          \/ (e = DataCloneError
              /\ IndexedDB.clones s.1 obj = false
              /\ exists c, DynamicDB.db s.2 = Some c /\ DynamicDB.closed c = false
                           /\ IndexedDB.contains (DynamicDB.name c) collection s.1 = true))
  end.
Proof.
  intros s _. pose proof (lists_its_own_calls calls engine) as Hinv. fold s in Hinv.
  destruct s as [e d]. unfold DynamicDB.addToDB, DynamicDB.listed, JS.inherited. simpl.
  destruct (DynamicDB.db d) as [c|] eqn:Hdb; simpl; [|by auto].
  assert (Hlisted : bool_decide (collection ∈ DynamicDB.objectStores d)
                    || bool_decide (collection ∈ JS.Object_prototype) = true
                    -> collection ∈ DynamicDB.objectStores d
                       \/ collection ∈ JS.Object_prototype).
  { intros [?%bool_decide_eq_true|?%bool_decide_eq_true]%orb_true_iff; auto. }
  destruct (bool_decide (collection ∈ DynamicDB.objectStores d)
            || bool_decide (collection ∈ JS.Object_prototype)) eqn:Hl; simpl.
  2:{ apply orb_false_iff in Hl as [Hout%bool_decide_eq_false Hnot%bool_decide_eq_false].
      split; [done|]. right. left. eauto. }
  specialize (Hlisted eq_refl).
  unfold DynamicDB.transaction. destruct (DynamicDB.closed c) eqn:Hclosed; simpl.
  { split; [done|]. right. right. left. split; [done|]. split; [exact Hlisted|]. eauto. }
  destruct (IndexedDB.contains (DynamicDB.name c) collection e) eqn:Hcont; simpl.
  - destruct (IndexedDB.clones e obj) eqn:Hclone; simpl.
    + exists c. split; [done|]. split; [done|]. split; [exact Hlisted|]. by repeat split.
    + split; [done|]. do 4 right. split; [done|]. split; [done|]. exists c. by repeat split.
  - split; [done|]. do 3 right. left. split; [done|].
    assert (Hout : collection ∉ DynamicDB.objectStores d).
    { intros Hin. destruct (Hinv collection Hin) as (c' & Hc' & _ & Hcont'). simpl in *.
      congruence. }
    destruct Hlisted; [done|]. eauto 10.
Qed.

Lemma addToDB_outcomes_witness :
  ("__proto__" ∉ DynamicDB.objectStores
                   (foldl (fun s c => run_db c s)
                          (Scenario.engine (fun _ => true), DynamicDB.new)
                          [InitializeDB "db"; MakeObjectStore "c"]).2)
  /\ (DynamicDB.addToDB "constructor" (Scenario.rec 1 1 [1; 0]%float)
        (foldl (fun s c => run_db c s) (Scenario.engine (fun _ => true), DynamicDB.new)
               [InitializeDB "db"; MakeObjectStore "c"])).1
     = DynamicDB.Refused (Error "NotFoundError")
  /\ (DynamicDB.addToDB "constructor" (Scenario.rec 1 1 [1; 0]%float)
        (foldl (fun s c => run_db c s) (Scenario.engine (fun _ => true), DynamicDB.new)
               [InitializeDB "db"; MakeObjectStore "c"])).2
     = foldl (fun s c => run_db c s) (Scenario.engine (fun _ => true), DynamicDB.new)
             [InitializeDB "db"; MakeObjectStore "c"].
Proof.
  assert (Hproto :
    "__proto__" ∉ DynamicDB.objectStores
                    (foldl (fun s c => run_db c s)
                           (Scenario.engine (fun _ => true), DynamicDB.new)
                           [InitializeDB "db"; MakeObjectStore "c"]).2).
  { apply (bool_decide_unpack _). vm_compute. exact I. }
  assert (Hcall :
    (DynamicDB.addToDB "constructor" (Scenario.rec 1 1 [1; 0]%float)
       (foldl (fun s c => run_db c s) (Scenario.engine (fun _ => true), DynamicDB.new)
              [InitializeDB "db"; MakeObjectStore "c"])).1
    = DynamicDB.Refused (Error "NotFoundError")) by (vm_compute; reflexivity).
  split; [exact Hproto|]. split; [exact Hcall|].
  pose proof (addToDB_outcomes [InitializeDB "db"; MakeObjectStore "c"]
                (Scenario.engine (fun _ => true)) "constructor"
                (Scenario.rec 1 1 [1; 0]%float) Hproto) as Hout.
  cbv zeta in Hout. rewrite Hcall in Hout. exact (proj1 Hout).
Defined.

Section Reads.
Import IndexedDB.

Lemma settle_issue (r : request) (e : t) : settle (issue r e) = carry_out (settle e) r.
Proof. unfold settle, issue. simpl. by rewrite foldl_app. Qed.

Lemma accepts_settle (e : t) : accepts (settle e) = accepts e.
Proof. destruct (settle_spec e "") as (D & -> & _). done. Qed.

Lemma values_carry_out (n collection : string) (obj : record) (e : t) :
  contains n collection e = true ->
  values n collection (carry_out e (request_for n collection obj))
  = values n collection e ++ (if accepts e obj then [obj] else []).
Proof.
  unfold contains, values, carry_out. simpl.
  destruct (databases e !! n) as [d|] eqn:Hd; [|done].
  intros [l Hl]%bool_decide_eq_true.
  destruct (accepts e obj); simpl; [|by rewrite Hd, app_nil_r].
  rewrite lookup_alter, decide_True, Hd by done. simpl.
  rewrite lookup_alter, decide_True, Hl by done. done.
Qed.
End Reads.

Section Insertions.
Import DynamicDB.

Lemma addToDB_issued (collection : string) (obj : record) (e : IndexedDB.t) (d : t) :
  (addToDB collection obj (e, d)).1 = Issued ->
  exists c, db d = Some c /\ closed c = false
            /\ listed collection d = true
            /\ IndexedDB.contains (name c) collection e = true
            /\ IndexedDB.clones e obj = true
            /\ (addToDB collection obj (e, d)).2
               = (IndexedDB.issue (request_for (name c) collection obj) e, d).
Proof.
  unfold addToDB, transaction. destruct (db d) as [c|]; [|done].
  destruct (listed collection d); [|done]. simpl.
  destruct (closed c) eqn:Hclosed; [done|].
  destruct (IndexedDB.contains (name c) collection e) eqn:Hc; [|done]. simpl.
  destruct (IndexedDB.clones e obj); [|done].
  intros _. by exists c.
Qed.

Lemma dbGenerator_connected (collection : string) (e : IndexedDB.t) (d : t)
    (c : IDBDatabase) :
  db d = Some c -> closed c = false -> IndexedDB.contains (name c) collection e = true ->
  dbGenerator collection at_once (e, d)
  = (Yields (IndexedDB.values (name c) collection (IndexedDB.settle e)) true,
     (IndexedDB.settle e, d))
  /\ getAllFromDB collection (e, d)
     = (Resolved (IndexedDB.values (name c) collection (IndexedDB.settle e)),
        (IndexedDB.settle e, d)).
Proof.
  intros Hdb Hclosed Hc. unfold dbGenerator, getAllFromDB, transaction.
  by rewrite Hdb, Hclosed, Hc, cursor_at_once.
Qed.
End Insertions.

(** X24. A read sees the insertion issued before it: after an
    [addToDB] that has issued its request, [dbGenerator], with a
    consumer that asks at once, yields what it would have yielded
    before, followed by the inserted record when the engine accepts it,
    and ends; [getAllFromDB] resolves with the same records. *)
Theorem dbGenerator_yields_issued_insertion (collection : string) (obj : record)
    (s : DynamicDB.state) :
  (DynamicDB.addToDB collection obj s).1 = DynamicDB.Issued ->
  exists before,
    (DynamicDB.dbGenerator collection DynamicDB.at_once s).1 = DynamicDB.Yields before true
    /\ (DynamicDB.dbGenerator collection DynamicDB.at_once
          (DynamicDB.addToDB collection obj s).2).1
       = DynamicDB.Yields (before ++ if IndexedDB.accepts s.1 obj then [obj] else []) true
    /\ (DynamicDB.getAllFromDB collection (DynamicDB.addToDB collection obj s).2).1
       = Resolved (before ++ if IndexedDB.accepts s.1 obj then [obj] else []).
Proof.
  destruct s as [e d]. intros Hissued.
  destruct (addToDB_issued collection obj e d Hissued)
    as (c & Hdb & Hclosed & _ & Hc & _ & ->).
  destruct (dbGenerator_connected collection e d c Hdb Hclosed Hc) as [-> _].
  destruct (dbGenerator_connected collection
              (IndexedDB.issue (request_for (DynamicDB.name c) collection obj) e) d c
              Hdb Hclosed Hc) as [-> ->].
  eexists. split; [done|]. simpl.
  rewrite settle_issue, values_carry_out, accepts_settle; [done|].
  apply (contains_keeps _ _ e); [apply keeps_settle|done].
Qed.

Lemma dbGenerator_yields_issued_insertion_witness :
  exists before,
    (DynamicDB.dbGenerator "c" DynamicDB.at_once
       (foldl (fun s c => run_db c s) (Scenario.engine (fun _ => true), DynamicDB.new)
              [InitializeDB "db"; MakeObjectStore "c"])).1
    = DynamicDB.Yields before true
    /\ (DynamicDB.dbGenerator "c" DynamicDB.at_once
          (DynamicDB.addToDB "c" (Scenario.rec 1 1 [1; 0]%float)
             (foldl (fun s c => run_db c s) (Scenario.engine (fun _ => true), DynamicDB.new)
                    [InitializeDB "db"; MakeObjectStore "c"])).2).1
       = DynamicDB.Yields (before ++ [Scenario.rec 1 1 [1; 0]%float]) true
    /\ (DynamicDB.getAllFromDB "c"
          (DynamicDB.addToDB "c" (Scenario.rec 1 1 [1; 0]%float)
             (foldl (fun s c => run_db c s) (Scenario.engine (fun _ => true), DynamicDB.new)
                    [InitializeDB "db"; MakeObjectStore "c"])).2).1
       = Resolved (before ++ [Scenario.rec 1 1 [1; 0]%float]).
Proof.
  apply (dbGenerator_yields_issued_insertion "c" (Scenario.rec 1 1 [1; 0]%float)
           (foldl (fun s c => run_db c s) (Scenario.engine (fun _ => true), DynamicDB.new)
                  [InitializeDB "db"; MakeObjectStore "c"])).
  vm_compute; reflexivity.
Defined.

(** X25. [createNewVersion] has no handler for a blocked upgrade.
    When two instances have opened the same new database,
    [makeObjectStore] on the first never settles, and the instance is
    left with a closed connection, on which every [addToDB] is refused:
    with [InvalidStateError] for a name that [objectStores] holds or
    inherits, with "Object store not initialized" for another. *)
Theorem makeObjectStore_waits_for_other_connection (n collection : string)
    (engine : IndexedDB.t) (d1 d2 : DynamicDB.t) :
  n <> "" ->
  IndexedDB.databases engine !! n = None ->
  DynamicDB.db d1 = None ->
  DynamicDB.db d2 = None ->
  DynamicDB.version d1 = DynamicDB.version d2 ->
  let first := DynamicDB.initializeDB n (engine, d1) in
  let second := DynamicDB.initializeDB n (first.2.1, d2) in
  let third := DynamicDB.makeObjectStore collection (second.2.1, first.2.2) in
  first.1 = Resolved tt
  /\ second.1 = Resolved tt
  /\ third.1 = Unsettled
  /\ DynamicDB.db third.2.2 = Some {| DynamicDB.name := n; DynamicDB.closed := true |}
  /\ forall obj,
       (DynamicDB.addToDB collection obj third.2).1
       = DynamicDB.Refused
           (if DynamicDB.listed collection d1
            then Error "InvalidStateError" else CollectionMissingError).
Proof.
  intros Hname%String.eqb_neq Hnone Hd1 Hd2 Hv first second third.
  destruct (settle_spec engine n) as (D & HD & Hn). specialize (Hn Hnone).
  assert (Hfirst : first
    = (Resolved tt,
       ({| IndexedDB.databases :=
             <[n := {| IndexedDB.version := DynamicDB.version d1; IndexedDB.stores := ∅;
                       IndexedDB.connections := 1 |}]> D;
           IndexedDB.pending := []; IndexedDB.clones := IndexedDB.clones engine;
           IndexedDB.accepts := IndexedDB.accepts engine |},
        {| DynamicDB.db := Some {| DynamicDB.name := n; DynamicDB.closed := false |};
           DynamicDB.objectStores := DynamicDB.objectStores d1;
           DynamicDB.version := DynamicDB.version d1 |}))).
  { subst first. unfold DynamicDB.initializeDB. rewrite Hd1.
    unfold IndexedDB.open. rewrite HD. simpl. by rewrite Hn. }
  assert (Hsecond : second
    = (Resolved tt,
       ({| IndexedDB.databases :=
             <[n := {| IndexedDB.version := DynamicDB.version d1; IndexedDB.stores := ∅;
                       IndexedDB.connections := 2 |}]> D;
           IndexedDB.pending := []; IndexedDB.clones := IndexedDB.clones engine;
           IndexedDB.accepts := IndexedDB.accepts engine |},
        {| DynamicDB.db := Some {| DynamicDB.name := n; DynamicDB.closed := false |};
           DynamicDB.objectStores := DynamicDB.objectStores d2;
           DynamicDB.version := DynamicDB.version d2 |}))).
  { subst second. rewrite Hfirst. unfold DynamicDB.initializeDB. cbn [fst snd]. rewrite Hd2.
    unfold IndexedDB.open, IndexedDB.settle. simpl. rewrite lookup_insert_eq. simpl.
    rewrite <- Hv, Z.ltb_irrefl, Z.eqb_refl. simpl.
    unfold IndexedDB.set_databases. simpl. by rewrite insert_insert_eq. }
  subst third. rewrite Hsecond, Hfirst. cbn [fst snd].
  split; [done|]. split; [done|].
  unfold DynamicDB.makeObjectStore, DynamicDB.createNewVersion. simpl. rewrite Hname.
  unfold IndexedDB.close, IndexedDB.set_databases. simpl.
  rewrite alter_insert_eq. simpl.
  unfold IndexedDB.open, IndexedDB.settle. simpl. rewrite lookup_insert_eq. simpl.
  destruct (Z.ltb_spec (DynamicDB.version d1 + 1) (DynamicDB.version d1)); [lia|].
  destruct (Z.eqb_spec (DynamicDB.version d1 + 1) (DynamicDB.version d1)); [lia|].
  simpl. split; [done|]. split; [done|].
  intros obj. unfold DynamicDB.addToDB, DynamicDB.listed. simpl.
  by destruct (_ || _).
Qed.

Lemma makeObjectStore_waits_for_other_connection_witness :
  let first := DynamicDB.initializeDB "db" (Scenario.engine (fun _ => true), DynamicDB.new) in
  let second := DynamicDB.initializeDB "db" (first.2.1, DynamicDB.new) in
  let third := DynamicDB.makeObjectStore "c" (second.2.1, first.2.2) in
  first.1 = Resolved tt
  /\ second.1 = Resolved tt
  /\ third.1 = Unsettled
  /\ DynamicDB.db third.2.2 = Some {| DynamicDB.name := "db"; DynamicDB.closed := true |}
  /\ forall obj,
       (DynamicDB.addToDB "c" obj third.2).1
       = DynamicDB.Refused
           (if DynamicDB.listed "c" DynamicDB.new
            then Error "InvalidStateError" else CollectionMissingError).
Proof.
  apply (makeObjectStore_waits_for_other_connection "db" "c" (Scenario.engine (fun _ => true))
           DynamicDB.new DynamicDB.new); [discriminate|reflexivity..].
Defined.

(** ** Opening a database, and what a save issues *)

Section Opening.
Import IndexedDB.

Lemma settle_pending (e : t) : pending (settle e) = [].
Proof. destruct (settle_spec e "") as (D & -> & _). done. Qed.

Lemma open_pending (n : string) (v : Z) (e : t) : pending (open n v e).2 = [].
Proof.
  unfold open. pose proof (settle_pending e) as Hp.
  destruct (databases (settle e) !! n) as [d|]; [|done].
  destruct (v <? version d)%Z; [done|]. destruct (v =? version d)%Z; [done|].
  by destruct (0 <? connections d)%nat.
Qed.

Lemma settle_lookup_inv (e : t) (n : string) (d' : database) :
  databases (settle e) !! n = Some d' ->
  exists d, databases e !! n = Some d
            /\ version d' = version d /\ connections d' = connections d.
Proof.
  intros Hd'. destruct (databases e !! n) as [d|] eqn:Hd.
  - destruct (settle_version e n d Hd) as (d'' & Hd'' & Hv & Hc).
    exists d. split; [done|]. split; congruence.
  - destruct (settle_spec e n) as (D & HD & Hn). rewrite HD in Hd'. simpl in Hd'.
    rewrite (Hn Hd) in Hd'. done.
Qed.
End Opening.

(** X26. [initializeDB] on an instance with a connection resolves and
    changes nothing, whatever name it is given.  Without a connection it
    resolves with an open connection to the named database, which is
    then at the version of the instance; it is rejected with "Database
    initialization failed" exactly because the database exists at a
    later version; and it never settles when the database exists at an
    earlier version with a connection open.  In the last two cases the
    instance is unchanged. *)
Theorem initializeDB_outcomes (n : string) (engine : IndexedDB.t) (self : DynamicDB.t) :
  let after := DynamicDB.initializeDB n (engine, self) in
  match DynamicDB.db self with
  | Some _ => after = (Resolved tt, (engine, self))
  | None =>
      match after.1 with
      | Resolved _ =>
          after.2.2 = {| DynamicDB.db := Some {| DynamicDB.name := n;
                                                 DynamicDB.closed := false |};
                         DynamicDB.objectStores := DynamicDB.objectStores self;
                         DynamicDB.version := DynamicDB.version self |}
          /\ IndexedDB.version <$> IndexedDB.databases after.2.1 !! n
             = Some (DynamicDB.version self)
      | Rejected e =>
          e = Error "Database initialization failed"
          /\ after.2 = (IndexedDB.settle engine, self)
          /\ exists existing,
               IndexedDB.databases engine !! n = Some existing
               /\ (DynamicDB.version self < IndexedDB.version existing)%Z
      | Unsettled =>
          after.2 = (IndexedDB.settle engine, self)
          /\ exists existing,
               IndexedDB.databases engine !! n = Some existing
               /\ (IndexedDB.version existing < DynamicDB.version self)%Z
               /\ 0 < IndexedDB.connections existing
      end
  end.
Proof.
  intros after. subst after. unfold DynamicDB.initializeDB.
  destruct (DynamicDB.db self) as [c|]; [done|].
  unfold IndexedDB.open.
  destruct (IndexedDB.databases (IndexedDB.settle engine) !! n) as [d'|] eqn:Hd'; simpl.
  - destruct (settle_lookup_inv engine n d' Hd') as (d & Hd & Hv & Hc).
    destruct (Z.ltb_spec (DynamicDB.version self) (IndexedDB.version d')); simpl.
    { split; [done|]. split; [done|]. exists d. split; [done|]. lia. }
    destruct (Z.eqb_spec (DynamicDB.version self) (IndexedDB.version d')); simpl.
    { split; [done|]. rewrite lookup_insert_eq. simpl. congruence. }
    destruct (Nat.ltb_spec 0 (IndexedDB.connections d')); simpl.
    { split; [done|]. exists d. split; [done|]. split; lia. }
    split; [done|]. by rewrite lookup_insert_eq.
  - split; [done|]. by rewrite lookup_insert_eq.
Qed.

Section AllOrNothing.
Import EmbeddingIndex.
#[local] Arguments issue_all : simpl never.

Lemma issue_all_refused (collection : string) (objs : list record) (s : DynamicDB.state) :
  (forall obj, (DynamicDB.addToDB collection obj s).2 = s) ->
  issue_all collection objs s = s.
Proof.
  intros Hs. induction objs as [|obj objs IH]; [done|].
  change (issue_all collection (obj :: objs) s)
    with (issue_all collection objs (DynamicDB.addToDB collection obj s).2).
  by rewrite Hs.
Qed.

Lemma issue_all_cases (collection : string) (objs : list record) (e : IndexedDB.t)
    (d : DynamicDB.t) :
  issue_all collection objs (e, d) = (e, d)
  \/ exists c, DynamicDB.db d = Some c /\ DynamicDB.closed c = false
               /\ DynamicDB.listed collection d = true
               /\ IndexedDB.contains (DynamicDB.name c) collection e = true
               /\ issue_all collection objs (e, d)
                  = ({| IndexedDB.databases := IndexedDB.databases e;
                        IndexedDB.pending :=
                          IndexedDB.pending e
                          ++ (request_for (DynamicDB.name c) collection
                                <$> List.filter (IndexedDB.clones e) objs);
                        IndexedDB.clones := IndexedDB.clones e;
                        IndexedDB.accepts := IndexedDB.accepts e |}, d).
Proof.
  destruct (DynamicDB.db d) as [c|] eqn:Hdb;
    [|left; apply issue_all_refused; intros obj; unfold DynamicDB.addToDB; by rewrite Hdb].
  destruct (DynamicDB.listed collection d) eqn:Hlisted;
    [|left; apply issue_all_refused; intros obj; unfold DynamicDB.addToDB;
      by rewrite Hdb, Hlisted].
  destruct (DynamicDB.closed c) eqn:Hclosed;
    [left; apply issue_all_refused; intros obj; unfold DynamicDB.addToDB, DynamicDB.transaction;
     by rewrite Hdb, Hlisted, Hclosed|].
  destruct (IndexedDB.contains (DynamicDB.name c) collection e) eqn:Hc;
    [|left; apply issue_all_refused; intros obj;
      unfold DynamicDB.addToDB, DynamicDB.transaction;
      by rewrite Hdb, Hlisted, Hclosed, Hc].
  right. exists c. repeat split; [done..|].
  unfold IndexedDB.contains in Hc.
  destruct (IndexedDB.databases e !! DynamicDB.name c) as [db|] eqn:Hlookup; [|done].
  apply bool_decide_eq_true in Hc.
  destruct e as [D pend cl acc]. simpl in *.
  apply (issue_all_spec (DynamicDB.name c) collection objs D db); [|done..].
  rewrite Hdb. destruct c. simpl in *. by subst.
Qed.

Lemma open_clones (n : string) (v : Z) (e : IndexedDB.t) :
  IndexedDB.clones (IndexedDB.open n v e).2 = IndexedDB.clones e.
Proof.
  unfold IndexedDB.open.
  assert (Hc : IndexedDB.clones (IndexedDB.settle e) = IndexedDB.clones e)
    by (by destruct (settle_spec e "") as (D & -> & _)).
  destruct (IndexedDB.databases (IndexedDB.settle e) !! n) as [d|]; [|done].
  destruct (v <? IndexedDB.version d)%Z; [done|].
  destruct (v =? IndexedDB.version d)%Z; [done|].
  by destruct (0 <? IndexedDB.connections d)%nat.
Qed.

Lemma initializeDB_clones (n : string) (s : DynamicDB.state) :
  IndexedDB.clones (DynamicDB.initializeDB n s).2.1 = IndexedDB.clones s.1.
Proof.
  destruct s as [e d]. unfold DynamicDB.initializeDB.
  destruct (DynamicDB.db d); [done|].
  pose proof (open_clones n (DynamicDB.version d) e) as Hc.
  by destruct (IndexedDB.open n (DynamicDB.version d) e) as [[] e'].
Qed.

Lemma createNewVersion_pending (collection : string) (s : DynamicDB.state) :
  IndexedDB.pending (DynamicDB.createNewVersion collection s).2.1 = []
  /\ IndexedDB.clones (DynamicDB.createNewVersion collection s).2.1 = IndexedDB.clones s.1.
Proof.
  destruct s as [e d]. unfold DynamicDB.createNewVersion.
  match goal with |- context [IndexedDB.open ?n ?v ?e0] =>
    pose proof (open_pending n v e0) as Hp; pose proof (open_clones n v e0) as Hc;
    assert (Hc0 : IndexedDB.clones e0 = IndexedDB.clones e)
      by (destruct (DynamicDB.db d) as [c|]; [by destruct (DynamicDB.closed c)|done]);
    destruct (IndexedDB.open n v e0) as [[] e']
  end; simpl in *; rewrite <- Hc0, <- Hc; try done.
  by destruct (negb _).
Qed.
End AllOrNothing.

(** X27. Take an index whose instance of [DynamicDB] has created no
    collection named [__proto__].  A save that resolves has issued an
    insertion for exactly the records of the index that the engine can
    clone, in their order, on an open connection to a database with the
    collection, or it has issued none at all: the calls of [addToDB] of
    one save are refused together for what the instance and the database
    hold, and one by one for a record that cannot be cloned. *)
Theorem saveIndexToDB_issues_for_cloneable_records (DBname collection : string)
    (engine : IndexedDB.t) (self : EmbeddingIndex.t) :
  let after := EmbeddingIndex.saveIndexToDB DBname collection (engine, self) in
  "__proto__" ∉ DynamicDB.objectStores (EmbeddingIndex.db self) ->
  after.1 = Resolved tt ->
  EmbeddingIndex.objects self <> []
  /\ (IndexedDB.pending after.2.1 = []
      \/ exists c,
           DynamicDB.db (EmbeddingIndex.db after.2.2) = Some c
           /\ DynamicDB.closed c = false
           /\ DynamicDB.listed collection (EmbeddingIndex.db after.2.2) = true
           /\ IndexedDB.contains (DynamicDB.name c) collection after.2.1 = true
           /\ IndexedDB.pending after.2.1
              = request_for (DynamicDB.name c) collection
                  <$> List.filter (IndexedDB.clones engine) (EmbeddingIndex.objects self)).
Proof.
  intros after _. subst after. unfold EmbeddingIndex.saveIndexToDB.
  destruct (EmbeddingIndex.objects self) as [|obj objs] eqn:Hobjs; [done|].
  change (length (obj :: objs) =? 0)%nat with false. cbv iota.
  unfold EmbeddingIndex.on_db, then_.
  pose proof (initializeDB_clones DBname (engine, EmbeddingIndex.db self)) as Hc1.
  destruct (DynamicDB.initializeDB DBname (engine, EmbeddingIndex.db self))
    as [[[]|err|] [e1 d1]]; [|done..].
  unfold DynamicDB.makeObjectStore.
  destruct (DynamicDB.db d1) eqn:Hd1; [|done].
  destruct (createNewVersion_pending collection (e1, d1)) as [Hp Hc2].
  destruct (DynamicDB.createNewVersion collection (e1, d1)) as [[[]|err|] [e2 d2]];
    [|done..].
  simpl in Hp, Hc1, Hc2. intros _. split; [done|].
  destruct (issue_all_cases collection (obj :: objs) e2 d2)
    as [->|(c & Hc & Hclosed & Hin & Hcont & ->)]; simpl.
  - by left.
  - right. exists c. rewrite Hp, Hc2, Hc1. by repeat split.
Qed.

Lemma saveIndexToDB_issues_for_cloneable_records_witness :
  let after := EmbeddingIndex.saveIndexToDB "db" "c"
                 (Scenario.engine (fun _ => true),
                  Scenario.index [Scenario.rec 1 1 [1; 0]%float] ["embedding"; "id"]) in
  after.1 = Resolved tt
  /\ [Scenario.rec 1 1 [1; 0]%float] <> []
  /\ (IndexedDB.pending after.2.1 = []
      \/ exists c,
           DynamicDB.db (EmbeddingIndex.db after.2.2) = Some c
           /\ DynamicDB.closed c = false
           /\ DynamicDB.listed "c" (EmbeddingIndex.db after.2.2) = true
           /\ IndexedDB.contains (DynamicDB.name c) "c" after.2.1 = true
           /\ IndexedDB.pending after.2.1
              = request_for (DynamicDB.name c) "c"
                  <$> List.filter (IndexedDB.clones (Scenario.engine (fun _ => true)))
                        [Scenario.rec 1 1 [1; 0]%float]).
Proof.
  assert (Hresolved :
    (EmbeddingIndex.saveIndexToDB "db" "c"
       (Scenario.engine (fun _ => true),
        Scenario.index [Scenario.rec 1 1 [1; 0]%float] ["embedding"; "id"])).1
    = Resolved tt) by (vm_compute; reflexivity).
  split; [exact Hresolved|].
  apply (saveIndexToDB_issues_for_cloneable_records "db" "c" (Scenario.engine (fun _ => true))
           (Scenario.index [Scenario.rec 1 1 [1; 0]%float] ["embedding"; "id"]));
    [|exact Hresolved].
  apply (bool_decide_unpack _). vm_compute. exact I.
Defined.
